(** * Cluster tunnel fabric: master-side tunnel manager, slave-side tunnel
      client, HTTP routing middleware and cluster status routes.

    Shallow embedding of
      - server/cluster/tunnel-manager.js   (class TunnelManager)
      - server/cluster/tunnel-client.js    (class TunnelClient)
      - server/cluster/request-router.js   (createRequestRouter)
      - server/routes/cluster.js           (createClusterRoutes)
      - the browser's API helper           (authenticatedFetch, header part)

    JavaScript objects with identity (WebSockets, timers) are named by
    numbers and live in explicit stores; every handler is a function from
    the state before to the state after together with the list of effects
    it performs on the outside world, in program order. *)

From stdpp Require Import gmap strings list fin_maps pretty.
From Stdlib Require Import Ascii QArith Qminmax Qround Lqa.

Set Warnings "-register-all,-clear-no-such-hyp".

Local Open Scope Z_scope.
Local Open Scope string_scope.
Local Open Scope list_scope.

(** ** JavaScript values that travel on the wire *)

(** The result of [JSON.parse].  Numbers are integers here: the protocol
    carries status codes and millisecond timestamps only. *)
Inductive json : Type :=
| JNull
| JBool (b : bool)
| JNum (n : Z)
| JStr (s : string)
| JArr (items : list json)
| JObj (fields : list (string * json)).

Global Instance json_eq_dec : EqDecision json.
Proof.
  refine (fix go (a b : json) {struct a} : Decision (a = b) :=
    match a, b with
    | JNull, JNull => left _
    | JBool x, JBool y => cast_if (decide (x = y))
    | JNum x, JNum y => cast_if (decide (x = y))
    | JStr x, JStr y => cast_if (decide (x = y))
    | JArr xs, JArr ys =>
        cast_if ((fix gol (xs ys : list json) {struct xs} : Decision (xs = ys) :=
                    match xs, ys with
                    | [], [] => left _
                    | x :: xs', y :: ys' => cast_if_and (go x y) (gol xs' ys')
                    | _, _ => right _
                    end) xs ys)
    | JObj xs, JObj ys =>
        cast_if ((fix gol (xs ys : list (string * json)) {struct xs} : Decision (xs = ys) :=
                    match xs, ys with
                    | [], [] => left _
                    | (k, x) :: xs', (k', y) :: ys' =>
                        cast_if_and3 (decide (k = k')) (go x y) (gol xs' ys')
                    | _, _ => right _
                    end) xs ys)
    | _, _ => right _
    end); clear go; try clear gol; abstract congruence.
Defined.

(** [o.k] on a parsed object: the last binding of a repeated key wins, a
    key that is not there reads [undefined] (here [None]). *)
Fixpoint lookup_field (k : string) (fields : list (string * json)) : option json :=
  match fields with
  | [] => None
  | (k', v) :: rest =>
      match lookup_field k rest with
      | Some v' => Some v'
      | None => if decide (k = k') then Some v else None
      end
  end.

(** Property access [message.k] for the field names of the protocol.  On
    [null] JavaScript throws a TypeError, which callers must handle before
    they get here; on every other non-object the property is undefined. *)
Definition prop (k : string) (message : json) : option json :=
  match message with
  | JObj fields => lookup_field k fields
  | _ => None
  end.

(** JavaScript truthiness of a possibly undefined value. *)
Definition truthy (v : option json) : bool :=
  match v with
  | None | Some JNull | Some (JBool false) => false
  | Some (JNum n) => negb (Z.eqb n 0)
  | Some (JStr s) => negb (String.eqb s "")
  | Some _ => true
  end.

(** [v === s] for a string [s]. *)
Definition is_str (v : option json) (s : string) : bool :=
  match v with
  | Some (JStr s') => String.eqb s' s
  | _ => false
  end.

(** Request ids and tunnel ids are strings: they are keys of Maps whose keys
    are minted by [randomUUID], so any other value finds nothing there. *)
Definition as_id (v : option json) : option string :=
  match v with
  | Some (JStr s) => Some s
  | _ => None
  end.

(** ** ASCII lower-casing, [String.prototype.toLowerCase] on header names *)

Definition lower_ascii (c : ascii) : ascii :=
  let n := nat_of_ascii c in
  if (Nat.leb 65 n && Nat.leb n 90)%bool then ascii_of_nat (n + 32) else c.

Fixpoint toLowerCase (s : string) : string :=
  match s with
  | EmptyString => EmptyString
  | String c rest => String (lower_ascii c) (toLowerCase rest)
  end.

(** ** WebSocket handles *)

Inductive readyState := CONNECTING | OPEN | CLOSING | CLOSED.

Global Instance readyState_eq_dec : EqDecision readyState.
Proof. solve_decision. Defined.

(** A socket object is named by a number; its mutable [readyState] lives
    in a store shared by everything that holds the handle. *)
Abbreviation sock := nat (only parsing).

Definition ready (socks : gmap sock readyState) (c : sock) : readyState :=
  default CLOSED (socks !! c).

Definition is_open (socks : gmap sock readyState) (c : sock) : bool :=
  bool_decide (ready socks c = OPEN).

(** ** Insertion-ordered maps, as JavaScript's [Map] *)

Module JsMap.
Section ops.
Context {K : Type} `{EqDecision K} {V : Type}.

Fixpoint get (k : K) (m : list (K * V)) : option V :=
  match m with
  | [] => None
  | (k', v) :: rest => if decide (k = k') then Some v else get k rest
  end.

Definition has (k : K) (m : list (K * V)) : bool :=
  match get k m with Some _ => true | None => false end.

(** [set] keeps the position of a key that is already there. *)
Fixpoint set (k : K) (v : V) (m : list (K * V)) : list (K * V) :=
  match m with
  | [] => [(k, v)]
  | (k', v') :: rest =>
      if decide (k = k') then (k, v) :: rest else (k', v') :: set k v rest
  end.

Fixpoint delete (k : K) (m : list (K * V)) : list (K * V) :=
  match m with
  | [] => []
  | (k', v') :: rest =>
      if decide (k = k') then delete k rest else (k', v') :: delete k rest
  end.

Definition keys (m : list (K * V)) : list K := m.*1.
End ops.
End JsMap.

(** [String(v)], the text [new Error(v)] carries as its [message]. *)
Fixpoint js_String (v : json) : string :=
  match v with
  | JNull => "null"
  | JBool true => "true"
  | JBool false => "false"
  | JNum n => pretty n
  | JStr s => s
  | JArr items =>
      (fix join (l : list json) : string :=
         match l with
         | [] => ""
         | [x] => match x with JNull => "" | _ => js_String x end
         | x :: rest =>
             (match x with JNull => "" | _ => js_String x end) +:+ "," +:+ join rest
         end) items
  | JObj _ => "[object Object]"
  end.

(** ** The master: class TunnelManager (tunnel-manager.js) *)

Module Master.

(** Frames the master writes on a control connection; each stands for
    [ws.send(JSON.stringify({type: ..., ...}))]. *)
Inductive frame :=
| auth_success (slaveId : json)
| http_request (requestId method path : string)
               (headers : gmap string string) (body : option string)
| ws_tunnel_open (tunnelId channel : string) (token : option string)
| ws_message (tunnelId data : string)
| ws_tunnel_close (tunnelId : string)
| pong (timestamp : option json).

(** What a pending request resolves to: [{ status, headers, body }] as read
    off the slave's [response] frame. *)
Record response := {
  status : option json;
  res_headers : option json;
  res_body : option json }.

(** The user's request as the middleware hands it over ([req.method],
    [req.url], [req.originalUrl], [req.headers]); the body is a stream
    read separately. *)
Record request := {
  method : string;
  url : string;
  originalUrl : string;
  headers : gmap string string }.

Inductive effect :=
| console (line : string)
| send (c : sock) (f : frame)
| send_local (l : sock) (data : option json)
| close (c : sock) (code : option (Z * string))
| resolve (requestId : string) (r : response)
| reject (requestId : string) (message : string)
| throw (message : string).

(** The keys of [this.slaves]: whatever value an [auth] frame carried as
    [slaveId].  A [Map] compares keys by SameValueZero: strings, numbers
    and booleans by value, arrays and objects by identity.  An array or
    object read off a frame is a new object each time; it is named by a
    number, like a socket. *)
Inductive slave_key :=
| key_val (v : json)              (* a string, a number, a boolean *)
| key_ref (o : nat) (v : json).   (* the array or object number [o], reading [v] *)

Global Instance slave_key_eq_dec : EqDecision slave_key.
Proof. solve_decision. Defined.

(** The key a caller names by a string (a header value, a route parameter). *)
Definition str_key (s : string) : slave_key := key_val (JStr s).

(** The value behind a key, as template literals and [JSON.stringify] see it. *)
Definition key_json (k : slave_key) : json :=
  match k with
  | key_val v | key_ref _ v => v
  end.

(** slaveId -> { ws, name, connectedAt, lastPing, authenticated } *)
Record slave := {
  ws : sock;
  name : json;
  connectedAt : Z;
  lastPing : Z;
  authenticated : bool }.

(** requestId -> { resolve, reject, timeout }.  The two settle functions
    belong to the promise of that request and are named by its id (effects
    [resolve] and [reject]); [timeout] is the timer handle. *)
Record pending := { timeout : nat }.

(** tunnelId -> { slaveId, localWs, channel } *)
Record tunnel := {
  slaveId : string;
  localWs : sock;
  channel : string }.

Record TunnelManager := {
  secret : option string;
  authTimeout : Z;
  slaves : list (slave_key * slave);
  pendingRequests : gmap string pending;
  tunnels : list (string * tunnel);
  requestTimeout : Z }.

(** [constructor(options)]: [a || b] takes [b] when [a] is undefined, the
    empty string or zero. *)
Definition or_default {A} (is_falsy : A → bool) (o : option A) (d : A) : A :=
  match o with
  | Some a => if is_falsy a then d else a
  | None => d
  end.

Definition new_TunnelManager (opt_secret env_secret : option string)
    (opt_authTimeout opt_requestTimeout : option Z) : TunnelManager :=
  {| secret := match opt_secret with
               | Some s => if String.eqb s "" then env_secret else Some s
               | None => env_secret
               end;
     authTimeout := or_default (Z.eqb 0) opt_authTimeout 10000;
     slaves := [];
     pendingRequests := ∅;
     tunnels := [];
     requestTimeout := or_default (Z.eqb 0) opt_requestTimeout 30000 |}.

(** The callbacks handed to [setTimeout]. *)
Inductive callback :=
| auth_deadline (c : sock)
| request_deadline (requestId : string).

(** The variables [handleConnection] closes over, one set per connection:
    [authenticated], [slaveId] and [authTimer]. *)
Record connection := {
  conn_authenticated : bool;
  conn_slaveId : option slave_key;
  authTimer : nat }.

(** Everything the master's handlers can read or change. *)
Record world := {
  tm : TunnelManager;
  conns : gmap sock connection;         (* closures of handleConnection *)
  socks : gmap sock readyState;         (* readyState of every WebSocket *)
  timers : gmap nat callback;           (* armed setTimeout handles *)
  next_timer : nat;
  draining : gmap string (sock * request); (* forwardHttpRequest calls reading a body *)
  listeners : list (sock * (sock * string)); (* localWs.on(...) of createWsTunnel *)
  next_object : nat                     (* arrays and objects used as slave ids so far *) }.

Definition with_tm (f : TunnelManager → TunnelManager) (w : world) : world :=
  {| tm := f (tm w); conns := conns w; socks := socks w; timers := timers w;
     next_timer := next_timer w; draining := draining w; listeners := listeners w;
     next_object := next_object w |}.

Definition with_slaves (f : list (slave_key * slave) → list (slave_key * slave))
    : world → world :=
  with_tm (λ m, {| secret := secret m; authTimeout := authTimeout m;
                   slaves := f (slaves m); pendingRequests := pendingRequests m;
                   tunnels := tunnels m; requestTimeout := requestTimeout m |}).

Definition with_pending (f : gmap string pending → gmap string pending) : world → world :=
  with_tm (λ m, {| secret := secret m; authTimeout := authTimeout m;
                   slaves := slaves m; pendingRequests := f (pendingRequests m);
                   tunnels := tunnels m; requestTimeout := requestTimeout m |}).

Definition with_tunnels (f : list (string * tunnel) → list (string * tunnel)) : world → world :=
  with_tm (λ m, {| secret := secret m; authTimeout := authTimeout m;
                   slaves := slaves m; pendingRequests := pendingRequests m;
                   tunnels := f (tunnels m); requestTimeout := requestTimeout m |}).

Definition with_conns (f : gmap sock connection → gmap sock connection) (w : world) : world :=
  {| tm := tm w; conns := f (conns w); socks := socks w; timers := timers w;
     next_timer := next_timer w; draining := draining w; listeners := listeners w;
     next_object := next_object w |}.

Definition with_socks (f : gmap sock readyState → gmap sock readyState) (w : world) : world :=
  {| tm := tm w; conns := conns w; socks := f (socks w); timers := timers w;
     next_timer := next_timer w; draining := draining w; listeners := listeners w;
     next_object := next_object w |}.

Definition with_timers (f : gmap nat callback → gmap nat callback) (w : world) : world :=
  {| tm := tm w; conns := conns w; socks := socks w; timers := f (timers w);
     next_timer := next_timer w; draining := draining w; listeners := listeners w;
     next_object := next_object w |}.

Definition with_draining (f : gmap string (sock * request) → gmap string (sock * request))
    (w : world) : world :=
  {| tm := tm w; conns := conns w; socks := socks w; timers := timers w;
     next_timer := next_timer w; draining := f (draining w); listeners := listeners w;
     next_object := next_object w |}.

Definition with_listeners (f : list (sock * (sock * string)) → list (sock * (sock * string)))
    (w : world) : world :=
  {| tm := tm w; conns := conns w; socks := socks w; timers := timers w;
     next_timer := next_timer w; draining := draining w; listeners := f (listeners w);
     next_object := next_object w |}.

Definition init (m : TunnelManager) : world :=
  {| tm := m; conns := ∅; socks := ∅; timers := ∅; next_timer := 0;
     draining := ∅; listeners := []; next_object := 0 |}.

(** *** The runtime: timers and sockets *)

(** [setTimeout(cb, ms)] arms a fresh handle and returns it. *)
Definition setTimeout (cb : callback) (w : world) : nat * world :=
  let t := next_timer w in
  (t, {| tm := tm w; conns := conns w; socks := socks w;
         timers := <[t := cb]> (timers w); next_timer := S t;
         draining := draining w; listeners := listeners w;
         next_object := next_object w |}).

Definition clearTimeout (t : nat) : world → world :=
  with_timers (delete t).

(** [ws.close(...)] of the ws package: an open (or connecting) socket
    starts closing, its ['close'] event comes later; on a socket already
    closing or closed the call changes nothing. *)
Definition js_close (c : sock) (w : world) : world :=
  match ready (socks w) c with
  | OPEN | CONNECTING => with_socks (<[c := CLOSING]>) w
  | _ => w
  end.

Definition sock_open (w : world) (c : sock) : bool := is_open (socks w) c.

(** *** sanitizeHeaders *)

Definition sanitizeHeaders (h : gmap string string) : gmap string string :=
  let sanitized := h in
  (* Remove hop-by-hop headers *)
  let sanitized := delete "connection" sanitized in
  let sanitized := delete "keep-alive" sanitized in
  let sanitized := delete "proxy-authenticate" sanitized in
  let sanitized := delete "proxy-authorization" sanitized in
  let sanitized := delete "te" sanitized in
  let sanitized := delete "trailers" sanitized in
  let sanitized := delete "transfer-encoding" sanitized in
  let sanitized := delete "upgrade" sanitized in
  (* Remove our custom header *)
  let sanitized := delete "x-target-slave" sanitized in
  sanitized.

(** *** handleAuth *)

(** [secret !== this.secret], negated.  The value sent is truthy when this
    is asked, the configured secret is a string or undefined. *)
Definition secret_matches (given : option json) (expected : option string) : bool :=
  match given, expected with
  | Some (JStr s), Some s' => String.eqb s s'
  | _, _ => false
  end.

(** The key for the value [v] of an [auth] frame: an array or object is
    a new object. *)
Definition key_of (v : json) (w : world) : slave_key * world :=
  match v with
  | JArr _ | JObj _ =>
      (key_ref (next_object w) v,
       {| tm := tm w; conns := conns w; socks := socks w; timers := timers w;
          next_timer := next_timer w; draining := draining w; listeners := listeners w;
          next_object := S (next_object w) |})
  | _ => (key_val v, w)
  end.

(** The body of the async function runs without suspension, so the promise
    it returns is settled when the call returns: [inl] is the rejection
    (nothing was changed before a throw), [inr] the returned slave id with
    the state after and the effects. *)
Definition handleAuth (c : sock) (message : json) (authTimer : nat) (now : Z)
    (w : world) : string + (slave_key * world * list effect) :=
  let slaveId := prop "slaveId" message in
  let slaveName := prop "slaveName" message in
  let secret' := prop "secret" message in
  if negb (truthy slaveId) || negb (truthy secret') then
    inl "Missing slaveId or secret"
  else if negb (secret_matches secret' (secret (tm w))) then
    inl "Invalid secret"
  else
    let '(id, w) := key_of (default JNull slaveId) w in
    (* Check if slave already connected *)
    let '(w, replaced) :=
      match JsMap.get id (slaves (tm w)) with
      | Some existing =>
          if sock_open w (ws existing) then
            (js_close (ws existing) w,
             [console ("[TunnelManager] Replacing existing connection for slave: "
                       +:+ js_String (key_json id));
              close (ws existing) (Some (4004, "Replaced by new connection"))])
          else (w, [])
      | None => (w, [])
      end in
    let w := clearTimeout authTimer w in
    (* Register the slave *)
    let name := if truthy slaveName then default (key_json id) slaveName
                else key_json id in
    let w := with_slaves (JsMap.set id
               {| ws := c;
                  name := name;
                  connectedAt := now;
                  lastPing := now;
                  authenticated := true |}) w in
    inr (id, w,
         replaced ++
         [console ("[TunnelManager] Slave authenticated: " +:+ js_String (key_json id)
                   +:+ " (" +:+ js_String name +:+ ")");
          send c (auth_success (key_json id))]).

(** *** Messages of an authenticated slave *)

Definition show (v : option json) : string :=
  match v with Some j => js_String j | None => "undefined" end.

Definition handleHttpResponse (message : json) (w : world) : world * list effect :=
  let requestId := prop "requestId" message in
  let error := prop "error" message in
  match as_id requestId ≫= λ r, (λ p, (r, p)) <$> pendingRequests (tm w) !! r with
  | None =>
      (w, [console ("[TunnelManager] No pending request for " +:+ show requestId)])
  | Some (r, pending) =>
      let w := clearTimeout (timeout pending) w in
      let w := with_pending (delete r) w in
      if truthy error then (w, [reject r (show error)])
      else (w, [resolve r {| status := prop "status" message;
                             res_headers := prop "headers" message;
                             res_body := prop "body" message |}])
  end.

Definition handleWsTunnelData (message : json) (w : world) : world * list effect :=
  let tunnelId := prop "tunnelId" message in
  match as_id tunnelId ≫= λ t, JsMap.get t (tunnels (tm w)) with
  | None => (w, [console ("[TunnelManager] No tunnel found for " +:+ show tunnelId)])
  | Some tunnel =>
      if sock_open w (localWs tunnel)
      then (w, [send_local (localWs tunnel) (prop "data" message)])
      else (w, [])
  end.

Definition handleWsTunnelClosed (message : json) (w : world) : world * list effect :=
  match as_id (prop "tunnelId" message) with
  | Some t =>
      match JsMap.get t (tunnels (tm w)) with
      | Some tunnel =>
          let '(w, e) :=
            if sock_open w (localWs tunnel)
            then (js_close (localWs tunnel) w, [close (localWs tunnel) None])
            else (w, []) in
          (with_tunnels (JsMap.delete t) w, e)
      | None => (w, [])
      end
  | None => (w, [])
  end.

Definition handlePing (id : slave_key) (message : json) (now : Z) (w : world)
    : world * list effect :=
  match JsMap.get id (slaves (tm w)) with
  | Some s =>
      (with_slaves (JsMap.set id
         {| ws := ws s; name := name s; connectedAt := connectedAt s;
            lastPing := now; authenticated := authenticated s |}) w,
       [send (ws s) (pong (prop "timestamp" message))])
  | None => (w, [])
  end.

Definition handleSlaveError (id : slave_key) (message : json) (w : world)
    : world * list effect :=
  let error := prop "error" message in
  let logged := console ("[TunnelManager] Error from slave " +:+ js_String (key_json id)
                         +:+ ": " +:+ show error) in
  if truthy (prop "requestId" message) then
    match as_id (prop "requestId" message) ≫= λ r,
          (λ p, (r, p)) <$> pendingRequests (tm w) !! r with
    | Some (r, pending) =>
        let w := clearTimeout (timeout pending) w in
        let w := with_pending (delete r) w in
        (w, [logged; reject r (if truthy error then show error else "Slave error")])
    | None => (w, [logged])
    end
  else (w, [logged]).

Definition handleSlaveMessage (id : slave_key) (message : json) (now : Z) (w : world)
    : world * list effect :=
  let type := prop "type" message in
  if is_str type "response" then handleHttpResponse message w
  else if is_str type "ws_data" then handleWsTunnelData message w
  else if is_str type "ws_tunnel_closed" then handleWsTunnelClosed message w
  else if is_str type "ping" then handlePing id message now w
  else if is_str type "error" then handleSlaveError id message w
  else (w, [console ("[TunnelManager] Unknown message type from "
                      +:+ js_String (key_json id) +:+ ": " +:+ show type)]).

(** *** forwardHttpRequest *)

(** Lines 259-263: the registered slave, if its socket is open.  The
    callers name the slave by a string (a header value). *)
Definition connected_slave (id : string) (w : world) : option slave :=
  match JsMap.get (str_key id) (slaves (tm w)) with
  | Some s => if sock_open w (ws s) then Some s else None
  | None => None
  end.

(** Lines 277-294, the promise executor: arm the timer, record the pending
    request, write the frame on [slave.ws] (the handle captured at the
    connectivity check). *)
Definition forward_send (slave_ws : sock) (requestId : string) (rq : request)
    (body : option string) (w : world) : world * list effect :=
  let '(timeout, w) := setTimeout (request_deadline requestId) w in
  let w := with_pending (<[requestId := {| timeout := timeout |}]>) w in
  (w, [send slave_ws
         (http_request requestId (method rq) (url rq)
                       (sanitizeHeaders (headers rq)) body)]).

(** The call up to its first suspension.  [requestId] is the value
    [randomUUID()] returns in this call.  A GET or HEAD request has no body
    to collect and goes out at once; any other request waits in [draining]
    until its body has been read. *)
Definition forwardHttpRequest (id : string) (rq : request) (requestId : string)
    (w : world) : world * list effect :=
  match connected_slave id w with
  | None => (w, [reject requestId ("Slave " +:+ id +:+ " not connected")])
  | Some s =>
      if negb (String.eqb (method rq) "GET") && negb (String.eqb (method rq) "HEAD")
      then (with_draining (<[requestId := (ws s, rq)]>) w, [])
      else forward_send (ws s) requestId rq None w
  end.

(** The body stream ended: [Buffer.concat(chunks).toString('utf-8')]. *)
Definition body_end (requestId : string) (body : string) (w : world)
    : world * list effect :=
  match draining w !! requestId with
  | Some (slave_ws, rq) =>
      forward_send slave_ws requestId rq (Some body)
                   (with_draining (delete requestId) w)
  | None => (w, [])
  end.

(** The body stream failed: the async function rejects. *)
Definition body_error (requestId : string) (err : string) (w : world)
    : world * list effect :=
  match draining w !! requestId with
  | Some _ => (with_draining (delete requestId) w, [reject requestId err])
  | None => (w, [])
  end.

(** The timer callback of line 278. *)
Definition request_timeout (requestId : string) (w : world) : world * list effect :=
  (with_pending (delete requestId) w, [reject requestId "Request timeout"]).

(** *** createWsTunnel *)

Definition createWsTunnel (id : string) (l : sock) (chan : string)
    (token : option string) (tunnelId : string) (w : world) : world * list effect :=
  match connected_slave id w with
  | None => (w, [throw ("Slave " +:+ id +:+ " not connected")])
  | Some s =>
      let w := with_tunnels (JsMap.set tunnelId
                 {| slaveId := id; localWs := l; channel := chan |}) w in
      let w := with_listeners (λ ls, ls ++ [(l, (ws s, tunnelId))]) w in
      (w, [send (ws s) (ws_tunnel_open tunnelId chan token)])
  end.

(** [localWs.on('message', ...)] of one tunnel. *)
Definition local_message_1 (data : string) (reg : sock * string) (w : world)
    : list effect :=
  if sock_open w reg.1 then [send reg.1 (ws_message reg.2 data)] else [].

(** [localWs.on('close', ...)] of one tunnel. *)
Definition local_close_1 (reg : sock * string) (w : world) : world * list effect :=
  (with_tunnels (JsMap.delete reg.2) w,
   if sock_open w reg.1 then [send reg.1 (ws_tunnel_close reg.2)] else []).

Definition registered (l : sock) (w : world) : list (sock * string) :=
  (filter (λ r, r.1 = l) (listeners w)).*2.

Definition local_message (l : sock) (data : string) (w : world) : world * list effect :=
  (w, concat (map (λ reg, local_message_1 data reg w) (registered l w))).

Definition local_close (l : sock) (w : world) : world * list effect :=
  foldl (λ '(w, es) reg, let '(w, e) := local_close_1 reg w in (w, es ++ e))
        (w, []) (registered l w).

(** *** Queries *)

Definition status_text (w : world) (s : slave) : string :=
  if sock_open w (ws s) then "connected" else "disconnected".

(** The objects [getSlaves] and [getSlave] build. *)
Record slave_info := {
  id : slave_key;
  info_name : json;
  info_connectedAt : Z;
  info_lastPing : Z;
  info_status : string }.

Definition info (w : world) (i : slave_key) (s : slave) : slave_info :=
  {| id := i; info_name := name s; info_connectedAt := connectedAt s;
     info_lastPing := lastPing s; info_status := status_text w s |}.

Definition getSlaves (w : world) : list slave_info :=
  map (λ e, info w e.1 e.2) (slaves (tm w)).

Definition getSlave (i : string) (w : world) : option slave_info :=
  info w (str_key i) <$> JsMap.get (str_key i) (slaves (tm w)).

Definition isSlaveConnected (i : string) (w : world) : bool :=
  match JsMap.get (str_key i) (slaves (tm w)) with
  | Some s => sock_open w (ws s)
  | None => false
  end.

(** *** handleConnection and the handlers it installs *)

Definition handleConnection (c : sock) (w : world) : world * list effect :=
  let '(authTimer, w) := setTimeout (auth_deadline c) w in
  (with_conns (<[c := {| conn_authenticated := false; conn_slaveId := None;
                         authTimer := authTimer |}]>) w,
   [console "[TunnelManager] New connection attempt"]).

(** The callback of the authentication timer. *)
Definition auth_timeout (c : sock) (w : world) : world * list effect :=
  match conns w !! c with
  | Some k =>
      if conn_authenticated k then (w, [])
      else (js_close c w,
            [console "[TunnelManager] Authentication timeout, closing connection";
             close c (Some (4001, "Authentication timeout"))])
  | None => (w, [])
  end.

(** The loop of lines 83-90 over [this.tunnels.entries()], in insertion
    order; deleting the entry just visited does not disturb the iteration. *)
Definition close_tunnel_of (i : slave_key) (acc : world * list effect)
    (entry : string * tunnel) : world * list effect :=
  let '(w, es) := acc in
  let '(tunnelId, tunnel) := entry in
  if decide (str_key (slaveId tunnel) = i) then
    let '(w, e) :=
      if sock_open w (localWs tunnel)
      then (js_close (localWs tunnel) w, [close (localWs tunnel) None])
      else (w, []) in
    (with_tunnels (JsMap.delete tunnelId) w, es ++ e)
  else (w, es).

(** [ws.on('close', ...)] *)
Definition close_handler (c : sock) (w : world) : world * list effect :=
  match conns w !! c with
  | None => (w, [])
  | Some k =>
      let w := clearTimeout (authTimer k) w in
      match conn_slaveId k with
      | Some i =>
          if truthy (Some (key_json i)) && JsMap.has i (slaves (tm w)) then
            let w := with_slaves (JsMap.delete i) w in
            (* Clean up any tunnels for this slave *)
            foldl (close_tunnel_of i)
                  (w, [console ("[TunnelManager] Slave disconnected: "
                                +:+ js_String (key_json i))])
                  (tunnels (tm w))
          else (w, [])
      | None => (w, [])
      end
  end.

Definition error_handler (c : sock) (w : world) : world * list effect :=
  match conns w !! c with
  | Some _ => (w, [console "[TunnelManager] WebSocket error:"])
  | None => (w, [])
  end.

(** How the promise of a [handleAuth] call has settled.  The callbacks
    of [.then] and [.catch] (lines 56-63) run as microtasks: after the
    handler has returned, and after the handlers of the frames that
    arrived in the same chunk, which the socket delivers in one go. *)
Inductive settled_auth :=
| auth_fulfilled (id : slave_key)
| auth_rejected (err : string).

(** The callback of [.then]: the two variables of the connection. *)
Definition then_reaction (c : sock) (id : slave_key) (w : world) : world :=
  match conns w !! c with
  | Some k =>
      with_conns (<[c := {| conn_authenticated := true;
                            conn_slaveId := Some id;
                            authTimer := authTimer k |}]>) w
  | None => w
  end.

(** The callback of [.catch]. *)
Definition catch_reaction (c : sock) (err : string) (w : world) : world * list effect :=
  (js_close c w,
   [console ("[TunnelManager] Auth failed: " +:+ err);
    close c (Some (4002, "Authentication failed"))]).

(** The microtasks of one task, in the order the queue runs them: the
    reaction of a fulfilled promise is one hop away, that of a rejected
    promise two (the rejection passes through [.then] first), so every
    [then] callback runs before the first [catch] callback. *)
Definition settle (c : sock) (rs : list settled_auth) (w : world) : world * list effect :=
  let w := foldl (λ w r, match r with
                         | auth_fulfilled id => then_reaction c id w
                         | auth_rejected _ => w
                         end) w rs in
  foldl (λ '(w, es) r, match r with
                       | auth_rejected err =>
                           let '(w, e) := catch_reaction c err w in (w, es ++ e)
                       | auth_fulfilled _ => (w, es)
                       end) (w, []) rs.

(** What happens to the master, one JavaScript task each. *)
Inductive event :=
| ev_ready (s : sock) (st : readyState)   (* a socket changes state, no handler runs *)
| ev_connection (c : sock)                (* a slave dials in: handleConnection(ws) *)
| ev_message (c : sock) (data : string) (now : Z)  (* one frame, alone in its chunk *)
| ev_messages (c : sock) (frames : list (string * Z)) (* the frames of one chunk *)
| ev_close (c : sock)
| ev_error (c : sock)
| ev_timer (t : nat)
| ev_forwardHttpRequest (i : string) (rq : request) (requestId : string)
| ev_body_end (requestId : string) (body : string)
| ev_body_error (requestId : string) (err : string)
| ev_createWsTunnel (i : string) (l : sock) (chan : string) (token : option string)
                    (tunnelId : string)
| ev_local_message (l : sock) (data : string)
| ev_local_close (l : sock).

Section machine.
(** [JSON.parse] on the text of a frame; [None] is a SyntaxError. *)
Variable JSON_parse : string → option json.

(** [ws.on('message', ...)], up to its return: the state, the effects
    and the promise of [handleAuth], if it was called.  Property access
    on [null] throws inside the [try], so a frame that reads [null] ends
    in the same [catch] as one that does not parse. *)
Definition message_handler (c : sock) (data : string) (now : Z) (w : world)
    : world * list effect * list settled_auth :=
  match conns w !! c with
  | None => (w, [], [])
  | Some k =>
      match JSON_parse data with
      | None | Some JNull => (w, [console "[TunnelManager] Error parsing message:"], [])
      | Some message =>
          if negb (conn_authenticated k) then
            (* Expect auth message first *)
            if is_str (prop "type" message) "auth" then
              match handleAuth c message (authTimer k) now w with
              | inr (i, w, es) => (w, es, [auth_fulfilled i])
              | inl err => (w, [], [auth_rejected err])
              end
            else (js_close c w, [close c (Some (4003, "Expected auth message"))], [])
          else
            match conn_slaveId k with
            | Some i =>
                let '(w, es) := handleSlaveMessage i message now w in (w, es, [])
            | None => (w, [], []) (* the two variables are assigned together *)
            end
      end
  end.

(** One task of the socket: the handler runs on every frame of the
    chunk, then the microtasks run. *)
Definition deliver (c : sock) (frames : list (string * Z)) (w : world)
    : world * list effect :=
  let '(w, es, rs) :=
    foldl (λ '(w, es, rs) '(data, now),
             let '(w, e, r) := message_handler c data now w in
             (w, es ++ e, rs ++ r))
          (w, [], []) frames in
  let '(w, es') := settle c rs w in
  (w, es ++ es').

Definition step (e : event) (w : world) : world * list effect :=
  match e with
  | ev_ready s st => (with_socks (<[s := st]>) w, [])
  | ev_connection c => handleConnection c (with_socks (<[c := OPEN]>) w)
  | ev_message c data now => deliver c [(data, now)] w
  | ev_messages c frames => deliver c frames w
  | ev_close c => close_handler c (with_socks (<[c := CLOSED]>) w)
  | ev_error c => error_handler c w
  | ev_timer t =>
      match timers w !! t with
      | Some cb =>
          let w := with_timers (delete t) w in
          match cb with
          | auth_deadline c => auth_timeout c w
          | request_deadline r => request_timeout r w
          end
      | None => (w, [])
      end
  | ev_forwardHttpRequest i rq requestId => forwardHttpRequest i rq requestId w
  | ev_body_end requestId body => body_end requestId body w
  | ev_body_error requestId err => body_error requestId err w
  | ev_createWsTunnel i l chan token tunnelId => createWsTunnel i l chan token tunnelId w
  | ev_local_message l data => local_message l data w
  | ev_local_close l => local_close l (with_socks (<[l := CLOSED]>) w)
  end.

Fixpoint run (es : list event) (w : world) : world * list effect :=
  match es with
  | [] => (w, [])
  | e :: rest =>
      let '(w1, out1) := step e w in
      let '(w2, out2) := run rest w1 in
      (w2, out1 ++ out2)
  end.
End machine.

End Master.

(** ** The routing middleware: createRequestRouter (request-router.js) *)

(** [hay.includes(needle)] *)
Fixpoint includes (needle hay : string) : bool :=
  String.prefix needle hay ||
  match hay with
  | EmptyString => false
  | String _ rest => includes needle rest
  end.

Module Router.
Import Master.

(** How one run of the middleware leaves the request: handed on by
    [next()], answered by [res.status(code).json(body)], or suspended at
    the [await] on the promise of [requestId]. *)
Inductive outcome :=
| next
| json_reply (code : Z) (body : json)
| awaiting (targetSlave requestId : string).

Definition not_connected_body (targetSlave : string) : json :=
  JObj [("error", JStr "Slave not connected");
        ("slaveId", JStr targetSlave);
        ("message", JStr ("The target client '" +:+ targetSlave
                          +:+ "' is not currently connected"))].

Definition tunnel_error_body (targetSlave message : string) : json :=
  JObj [("error", JStr "Tunnel error");
        ("slaveId", JStr targetSlave);
        ("message", JStr message)].

(** Lines 10-34.  [w] is the tunnel manager the router was created with,
    [requestId] the id its [forwardHttpRequest] draws for this call. *)
Definition createRequestRouter (rq : request) (requestId : string) (w : world)
    : world * list effect * outcome :=
  let targetSlave := headers rq !! "x-target-slave" in
  (* Log onboarding requests for debugging *)
  let logged :=
    if includes "onboarding" (originalUrl rq)
    then [console ("[RequestRouter] Onboarding request: " +:+ method rq +:+ " "
                   +:+ originalUrl rq +:+ " target: "
                   +:+ match targetSlave with
                       | Some t => if String.eqb t "" then "local" else t
                       | None => "local"
                       end)]
    else [] in
  match targetSlave with
  | None => (w, logged, next)
  | Some t =>
      (* If no target or 'local', handle locally *)
      if String.eqb t "" || String.eqb t "local" then (w, logged, next)
      (* Check if slave is connected *)
      else if negb (isSlaveConnected t w) then
        (w, logged, json_reply 503 (not_connected_body t))
      else
        (* Forward request through tunnel *)
        let '(w, es) := forwardHttpRequest t rq requestId w in
        (w, logged ++ es, awaiting t requestId)
  end.

(** How the awaited promise settles. *)
Inductive settled :=
| fulfilled (r : response)
| rejected (message : string).

(** How the resumed middleware finishes: lines 36-53 write the slave's
    response out (kept as one outcome), or the [catch] of lines 55-63
    answers 502. *)
Inductive final :=
| relay (r : response)
| error_reply (code : Z) (body : json).

Definition resume (targetSlave : string) (s : settled) : list effect * final :=
  match s with
  | fulfilled r =>
      match res_headers r with
      | None | Some JNull =>
          (* Object.entries(undefined) throws inside the try *)
          let message := "Cannot convert undefined or null to object" in
          ([console ("[RequestRouter] Error forwarding to " +:+ targetSlave +:+ ": "
                     +:+ message)],
           error_reply 502 (tunnel_error_body targetSlave message))
      | Some _ => ([], relay r)
      end
  | rejected message =>
      ([console ("[RequestRouter] Error forwarding to " +:+ targetSlave +:+ ": "
                 +:+ message)],
       error_reply 502 (tunnel_error_body targetSlave message))
  end.

(** The headers of the slave's response that are copied to the user
    (lines 37-42), for a response whose headers are an object. *)
Definition copied_headers (fields : list (string * json)) : list (string * json) :=
  filter (λ kv, toLowerCase kv.1 ∉ ["transfer-encoding"; "connection"]) fields.

(** The first settlement of the promise of [requestId] among the effects
    of the tunnel manager. *)
Fixpoint settlement (requestId : string) (es : list effect) : option settled :=
  match es with
  | [] => None
  | resolve r resp :: rest =>
      if decide (r = requestId) then Some (fulfilled resp) else settlement requestId rest
  | reject r message :: rest =>
      if decide (r = requestId) then Some (rejected message) else settlement requestId rest
  | _ :: rest => settlement requestId rest
  end.
End Router.

(** ** The browser side: authenticatedFetch of the API helper, headers only *)

Module Api.
(** Lines 36-53 and the [headers] spread of the [fetch] call.
    [selected] is what [getSelectedClientId()] returns, [token] the stored
    auth token, [options_headers] the caller's own headers, which win. *)
Definition is_master_only (url : string) : bool :=
  String.prefix "/api/cluster/" url || String.prefix "/api/user/" url
  || String.prefix "/api/auth/" url.

Definition defaultHeaders (url : string) (is_form_data isPlatform : bool)
    (token : option string) (selected : string) : gmap string string :=
  let h : gmap string string := ∅ in
  let h := if is_form_data then h else <["Content-Type" := "application/json"]> h in
  let h := match token with
           | Some t =>
               if negb isPlatform && negb (String.eqb t "")
               then <["Authorization" := "Bearer " +:+ t]> h else h
           | None => h
           end in
  (* Skip for cluster and user management endpoints *)
  if negb (is_master_only url) then
    if negb (String.eqb selected "") && negb (String.eqb selected "local")
    then <["X-Target-Slave" := selected]> h else h
  else h.

Definition authenticatedFetch_headers (url : string) (is_form_data isPlatform : bool)
    (token : option string) (selected : string) (options_headers : gmap string string)
    : gmap string string :=
  options_headers ∪ defaultHeaders url is_form_data isPlatform token selected.

(** The header map as the master's HTTP parser hands it to the
    middleware: names in lower case. *)
Definition received (sent : gmap string string) : gmap string string :=
  list_to_map (map (λ kv, (toLowerCase kv.1, kv.2)) (map_to_list sent)).
End Api.

(** ** The cluster status API: createClusterRoutes (routes/cluster.js) *)

Module ClusterRoutes.
Import Master.

(** [res.status(code).json(body)]; [res.json(body)] alone answers 200. *)
Record reply := { code : Z; body : json }.

Definition local_client_full : json :=
  JObj [("id", JStr "local"); ("name", JStr "Local Server");
        ("status", JStr "connected"); ("isLocal", JBool true);
        ("connectedAt", JNull); ("lastPing", JNull)].

Definition local_client : json :=
  JObj [("id", JStr "local"); ("name", JStr "Local Server");
        ("status", JStr "connected"); ("isLocal", JBool true)].

(** [{ ...s, isLocal: false }]; the two dates are given as their
    millisecond values. *)
Definition client_json (s : slave_info) : json :=
  JObj [("id", key_json (id s)); ("name", info_name s);
        ("connectedAt", JNum (info_connectedAt s));
        ("lastPing", JNum (info_lastPing s));
        ("status", JStr (info_status s)); ("isLocal", JBool false)].

(** [process.env.DEPLOYMENT_MODE || 'standalone'] *)
Definition deploymentMode (env_DEPLOYMENT_MODE : option string) : string :=
  match env_DEPLOYMENT_MODE with
  | Some m => if String.eqb m "" then "standalone" else m
  | None => "standalone"
  end.

(** GET /status *)
Definition get_status (env_DEPLOYMENT_MODE : option string)
    (tunnelManager : option world) : reply :=
  let deploymentMode := deploymentMode env_DEPLOYMENT_MODE in
  let slaves := match tunnelManager with Some w => getSlaves w | None => [] end in
  {| code := 200;
     body := JObj [("mode", JStr deploymentMode);
                   ("isMaster", JBool (String.eqb deploymentMode "master"));
                   ("connectedSlaves", JNum (Z.of_nat (length slaves)));
                   ("slaves", JArr (map (λ s, JObj [("id", key_json (id s));
                                                    ("name", info_name s);
                                                    ("status", JStr (info_status s))])
                                        slaves))] |}.

(** GET /slaves *)
Definition get_slaves (tunnelManager : option world) : reply :=
  match tunnelManager with
  | None =>
      {| code := 400;
         body := JObj [("error", JStr "Not in master mode");
                       ("message", JStr "Cluster slave management is only available in master mode")] |}
  | Some w =>
      {| code := 200;
         body := JObj [("success", JBool true);
                       ("clients", JArr (local_client_full :: map client_json (getSlaves w)))] |}
  end.

(** GET /slaves/:id *)
Definition get_slave (i : string) (tunnelManager : option world) : reply :=
  match tunnelManager with
  | None => {| code := 400; body := JObj [("error", JStr "Not in master mode")] |}
  | Some w =>
      if String.eqb i "local" then
        {| code := 200; body := JObj [("success", JBool true); ("client", local_client)] |}
      else
        match getSlave i w with
        | None => {| code := 404;
                     body := JObj [("error", JStr "Slave not found"); ("slaveId", JStr i)] |}
        | Some slave =>
            {| code := 200;
               body := JObj [("success", JBool true); ("client", client_json slave)] |}
        end
  end.

(** GET /slaves/:id/health *)
Definition get_health (i : string) (tunnelManager : option world) : reply :=
  match tunnelManager with
  | None => {| code := 400; body := JObj [("error", JStr "Not in master mode")] |}
  | Some w =>
      if String.eqb i "local" then
        {| code := 200;
           body := JObj [("success", JBool true); ("healthy", JBool true);
                         ("slaveId", JStr "local");
                         ("message", JStr "Local server is healthy")] |}
      else
        match getSlave i w with
        | None => {| code := 404;
                     body := JObj [("error", JStr "Slave not found"); ("slaveId", JStr i);
                                   ("healthy", JBool false)] |}
        | Some slave =>
            let isConnected := isSlaveConnected i w in
            {| code := 200;
               body := JObj [("success", JBool true); ("healthy", JBool isConnected);
                             ("slaveId", JStr i); ("name", info_name slave);
                             ("status", JStr (info_status slave));
                             ("lastPing", JNum (info_lastPing slave));
                             ("message", JStr (if isConnected then "Slave is healthy"
                                               else "Slave is disconnected"))] |}
        end
  end.

(** The four GET routes, matched on the path below the mount point,
    split at its slashes. *)
Inductive endpoint :=
| ep_status
| ep_slaves
| ep_slave (i : string)
| ep_health (i : string).

Definition route (segments : list string) : option endpoint :=
  match segments with
  | ["status"] => Some ep_status
  | ["slaves"] => Some ep_slaves
  | ["slaves"; i] => if String.eqb i "" then None else Some (ep_slave i)
  | ["slaves"; i; "health"] => if String.eqb i "" then None else Some (ep_health i)
  | _ => None
  end.

Definition handle (env_DEPLOYMENT_MODE : option string) (tunnelManager : option world)
    (e : endpoint) : reply :=
  match e with
  | ep_status => get_status env_DEPLOYMENT_MODE tunnelManager
  | ep_slaves => get_slaves tunnelManager
  | ep_slave i => get_slave i tunnelManager
  | ep_health i => get_health i tunnelManager
  end.
End ClusterRoutes.

(** ** JavaScript numbers

    A JavaScript number is an IEEE-754 binary64 value.  The finite ones are
    rationals, and are kept as such; every arithmetic operation rounds its
    exact result to the nearest double, ties to the even significand, and
    overflows to an infinity from 2^1024 on.  The sign of zero is not
    kept: nothing below tells [-0] from [0]. *)
Module Double.
Inductive number :=
| finite (q : Q)
| plus_infinity
| minus_infinity
| NaN.

(** The smallest positive double is 2^-1074: every finite double is a
    whole number of these units. *)
Definition scale : Z := 2 ^ 1074.

(** The nearest integer, a tie going to the even one. *)
Definition rne (x : Q) : Z :=
  let f := Qfloor x in
  match (x - inject_Z f ?= 1 # 2)%Q with
  | Lt => f
  | Gt => f + 1
  | Eq => if Z.even f then f else f + 1
  end.

(** A non-negative number of units keeps 53 significant bits: from 2^53
    units on the grid is 2^g units wide, [g] the binary exponent less 52. *)
Definition grid (X : Q) : Z := Z.max 0 (Z.log2 (Qfloor X) - 52).

Definition round_units (X : Q) : Z :=
  rne (X / inject_Z (2 ^ grid X)) * 2 ^ grid X.

(** Rounding to the grid of the doubles, the exponent unbounded above. *)
Definition fl (x : Q) : Q :=
  if Qle_bool 0 x
  then (inject_Z (round_units (x * inject_Z scale)) / inject_Z scale)%Q
  else (- (inject_Z (round_units (- x * inject_Z scale)) / inject_Z scale))%Q.

Definition huge : Q := inject_Z (2 ^ 1024).


(** The double an exact result becomes. *)
Definition round (x : Q) : number :=
  let y := fl x in
  if Qle_bool huge y then plus_infinity
  else if Qle_bool y (- huge) then minus_infinity
  else finite y.

(** [a * b] *)
Definition mul (a b : number) : number :=
  match a, b with
  | NaN, _ => NaN
  | _, NaN => NaN
  | finite x, finite y => round (x * y)
  | finite x, plus_infinity | plus_infinity, finite x =>
      match (x ?= 0)%Q with
      | Gt => plus_infinity
      | Lt => minus_infinity
      | Eq => NaN
      end
  | finite x, minus_infinity | minus_infinity, finite x =>
      match (x ?= 0)%Q with
      | Gt => minus_infinity
      | Lt => plus_infinity
      | Eq => NaN
      end
  | plus_infinity, plus_infinity | minus_infinity, minus_infinity => plus_infinity
  | plus_infinity, minus_infinity | minus_infinity, plus_infinity => minus_infinity
  end.

(** [a + b] *)
Definition add (a b : number) : number :=
  match a, b with
  | NaN, _ => NaN
  | _, NaN => NaN
  | finite x, finite y => round (x + y)
  | plus_infinity, minus_infinity | minus_infinity, plus_infinity => NaN
  | plus_infinity, _ | _, plus_infinity => plus_infinity
  | minus_infinity, _ | _, minus_infinity => minus_infinity
  end.

(** [Math.min(a, b)] *)
Definition Math_min (a b : number) : number :=
  match a, b with
  | NaN, _ => NaN
  | _, NaN => NaN
  | minus_infinity, _ | _, minus_infinity => minus_infinity
  | plus_infinity, c | c, plus_infinity => c
  | finite x, finite y => finite (Qmin x y)
  end.

(** [Math.pow(2, n)] for a counter [n]: the power itself while it is a
    double, which it is up to 2^1023 ([pow] of two integers is exact when
    the result is representable), and [Infinity] from there on. *)
Definition Math_pow2 (n : nat) : number :=
  if (n <=? 1023)%nat then finite (inject_Z (2 ^ Z.of_nat n)) else plus_infinity.

Global Arguments rne : simpl never.
Global Arguments round_units : simpl never.
Global Arguments fl : simpl never.
Global Arguments round : simpl never.
End Double.

(** ** The slave: class TunnelClient (tunnel-client.js) *)

Module Client.

(** Frames the slave writes on its control connection.  Identifiers read
    off a frame of the master are strings or undefined ([None]). *)
Inductive frame :=
| auth (slaveId slaveName secret : option string)
| response (requestId : option string) (status : Z)
           (headers : list (string * string)) (body : string)
| response_error (requestId : option string) (error : string)
| ws_data (tunnelId : option string) (data : string)
| ws_tunnel_closed (tunnelId : option string)
| ping (timestamp : Z)
| error (tunnelId : option string) (error : string).

(** What [new WebSocket(url)] is asked to reach. *)
Inductive target :=
| master_tunnel (tunnelUrl : string)
| local_channel (localPort wsPath : string) (token : option json).

Inductive effect :=
| console (line : string)
| ws_send (c : sock) (f : frame)
| new_WebSocket (s : sock) (to : target)
| local_request (requestId : option string)
                (method path headers body : option json)
| local_send (l : sock) (data : option json)
| ws_close (s : sock)
| emitWarning (name : string).

Record TunnelClient := {
  masterUrl : option string;
  slaveId : option string;
  slaveName : option string;
  secret : option string;
  localPort : string;
  baseDelay : Q;
  maxDelay : Q;
  reconnectAttempts : nat;
  ws : option sock;
  authenticated : bool;
  reconnectTimer : option nat;
  pingInterval : option nat;
  localTunnels : list (option string * sock) }.

(** [a || b] on optional text and on numbers. *)
Definition or_else (a b : option string) : option string :=
  match a with
  | Some s => if String.eqb s "" then b else Some s
  | None => b
  end.

(** Truthiness of a configuration value: set and not empty. *)
Definition configured (a : option string) : bool :=
  match a with
  | Some s => negb (String.eqb s "")
  | None => false
  end.

Definition or_number (a : option Q) (d : Q) : Q :=
  match a with
  | Some q => if Qeq_bool q 0 then d else q
  | None => d
  end.

Definition new_TunnelClient
    (opt_masterUrl opt_slaveId opt_slaveName opt_secret opt_localPort : option string)
    (env_MASTER_URL env_SLAVE_ID env_SLAVE_NAME env_CLUSTER_SECRET env_PORT : option string)
    (opt_baseDelay opt_maxDelay : option Q) : TunnelClient :=
  let slaveId := or_else opt_slaveId env_SLAVE_ID in
  {| masterUrl := or_else opt_masterUrl env_MASTER_URL;
     slaveId := slaveId;
     slaveName := or_else (or_else opt_slaveName env_SLAVE_NAME) slaveId;
     secret := or_else opt_secret env_CLUSTER_SECRET;
     localPort := default "3001" (or_else opt_localPort env_PORT);
     baseDelay := or_number opt_baseDelay 5000; (* 5 seconds *)
     maxDelay := or_number opt_maxDelay 60000;  (* 60 seconds *)
     reconnectAttempts := 0;
     ws := None;
     authenticated := false;
     reconnectTimer := None;
     pingInterval := None;
     localTunnels := [] |}.

Inductive callback := reconnect | ping_tick.

(** An armed [setTimeout] or [setInterval] handle. *)
Record timer := { cb : callback; delay : Q; repeats : bool }.

Record world := {
  this : TunnelClient;
  socks : gmap sock readyState;
  next_sock : sock;
  timers : gmap nat timer;
  next_timer : nat;
  control : gset sock;                (* sockets carrying the handlers of connect() *)
  locals : gmap sock (option string); (* local sockets of handleWsTunnelOpen, with their tunnelId *)
  inflight : list (option string)     (* handleHttpRequest calls awaiting forwardToLocal *) }.

Definition init (c : TunnelClient) : world :=
  {| this := c; socks := ∅; next_sock := 0; timers := ∅; next_timer := 0;
     control := ∅; locals := ∅; inflight := [] |}.

Definition with_this (f : TunnelClient → TunnelClient) (w : world) : world :=
  {| this := f (this w); socks := socks w; next_sock := next_sock w;
     timers := timers w; next_timer := next_timer w; control := control w;
     locals := locals w; inflight := inflight w |}.

Definition with_socks (f : gmap sock readyState → gmap sock readyState) (w : world) : world :=
  {| this := this w; socks := f (socks w); next_sock := next_sock w;
     timers := timers w; next_timer := next_timer w; control := control w;
     locals := locals w; inflight := inflight w |}.

Definition with_timers (f : gmap nat timer → gmap nat timer) (w : world) : world :=
  {| this := this w; socks := socks w; next_sock := next_sock w;
     timers := f (timers w); next_timer := next_timer w; control := control w;
     locals := locals w; inflight := inflight w |}.

Definition with_control (f : gset sock → gset sock) (w : world) : world :=
  {| this := this w; socks := socks w; next_sock := next_sock w;
     timers := timers w; next_timer := next_timer w; control := f (control w);
     locals := locals w; inflight := inflight w |}.

Definition with_locals (f : gmap sock (option string) → gmap sock (option string))
    (w : world) : world :=
  {| this := this w; socks := socks w; next_sock := next_sock w;
     timers := timers w; next_timer := next_timer w; control := control w;
     locals := f (locals w); inflight := inflight w |}.

Definition with_inflight (f : list (option string) → list (option string))
    (w : world) : world :=
  {| this := this w; socks := socks w; next_sock := next_sock w;
     timers := timers w; next_timer := next_timer w; control := control w;
     locals := locals w; inflight := f (inflight w) |}.

(** Assignments to the mutable fields of [this]. *)
Definition assign (c : TunnelClient) (reconnectAttempts' : nat) (ws' : option sock)
    (authenticated' : bool) (reconnectTimer' pingInterval' : option nat)
    (localTunnels' : list (option string * sock)) : TunnelClient :=
  {| masterUrl := masterUrl c; slaveId := slaveId c; slaveName := slaveName c;
     secret := secret c; localPort := localPort c; baseDelay := baseDelay c;
     maxDelay := maxDelay c; reconnectAttempts := reconnectAttempts';
     ws := ws'; authenticated := authenticated'; reconnectTimer := reconnectTimer';
     pingInterval := pingInterval'; localTunnels := localTunnels' |}.

Definition set_reconnectAttempts (n : nat) : world → world :=
  with_this (λ c, assign c n (ws c) (authenticated c) (reconnectTimer c)
                           (pingInterval c) (localTunnels c)).
Definition set_ws (s : option sock) : world → world :=
  with_this (λ c, assign c (reconnectAttempts c) s (authenticated c) (reconnectTimer c)
                           (pingInterval c) (localTunnels c)).
Definition set_authenticated (b : bool) : world → world :=
  with_this (λ c, assign c (reconnectAttempts c) (ws c) b (reconnectTimer c)
                           (pingInterval c) (localTunnels c)).
Definition set_reconnectTimer (t : option nat) : world → world :=
  with_this (λ c, assign c (reconnectAttempts c) (ws c) (authenticated c) t
                           (pingInterval c) (localTunnels c)).
Definition set_pingInterval (t : option nat) : world → world :=
  with_this (λ c, assign c (reconnectAttempts c) (ws c) (authenticated c)
                           (reconnectTimer c) t (localTunnels c)).
Definition set_localTunnels (l : list (option string * sock)) : world → world :=
  with_this (λ c, assign c (reconnectAttempts c) (ws c) (authenticated c)
                           (reconnectTimer c) (pingInterval c) l).

(** *** The runtime *)

Definition arm (cb : callback) (delay : Q) (repeats : bool) (w : world) : nat * world :=
  let t := next_timer w in
  (t, {| this := this w; socks := socks w; next_sock := next_sock w;
         timers := <[t := {| cb := cb; delay := delay; repeats := repeats |}]> (timers w);
         next_timer := S t; control := control w; locals := locals w;
         inflight := inflight w |}).

(** The duration a timer of Node keeps for the number it is given:
    [if (!(after >= 1 && after <= TIMEOUT_MAX)) after = 1], so that a
    duration below one millisecond, above 2^31 - 1 milliseconds, infinite
    or [NaN] becomes one millisecond. *)
Definition TIMEOUT_MAX : Q := 2147483647. (* 2 ** 31 - 1 *)

Definition timer_delay (after : Double.number) : Q :=
  match after with
  | Double.finite q => if Qle_bool 1 q && Qle_bool q TIMEOUT_MAX then q else 1
  | _ => 1
  end.

(** Above [TIMEOUT_MAX] Node also warns, on the standard error stream. *)
Definition timer_warning (after : Double.number) : list effect :=
  match after with
  | Double.finite q =>
      if Qle_bool q TIMEOUT_MAX then [] else [emitWarning "TimeoutOverflowWarning"]
  | Double.plus_infinity => [emitWarning "TimeoutOverflowWarning"]
  | _ => []
  end.

Definition setTimeout (cb : callback) (after : Double.number) (w : world) : nat * world :=
  arm cb (timer_delay after) false w.

(** [clearTimeout] and [clearInterval] *)
Definition clear (t : nat) : world → world := with_timers (delete t).

Definition fresh_sock (w : world) : sock * world :=
  let s := next_sock w in
  (s, {| this := this w; socks := <[s := CONNECTING]> (socks w); next_sock := S s;
         timers := timers w; next_timer := next_timer w; control := control w;
         locals := locals w; inflight := inflight w |}).

Definition js_close (s : sock) (w : world) : world :=
  match ready (socks w) s with
  | OPEN | CONNECTING => with_socks (<[s := CLOSING]>) w
  | _ => w
  end.

Definition sock_open (w : world) (s : sock) : bool := is_open (socks w) s.

(** *** send *)

(** Send message to master *)
Definition send (message : frame) (w : world) : world * list effect :=
  match ws (this w) with
  | Some c => if sock_open w c then (w, [ws_send c message]) else (w, [])
  | None => (w, [])
  end.

(** *** Reconnection *)

(** [Math.min(this.baseDelay * Math.pow(2, this.reconnectAttempts), this.maxDelay)] *)
Definition backoff (baseDelay maxDelay : Q) (reconnectAttempts : nat) : Double.number :=
  Double.Math_min
    (Double.mul (Double.finite baseDelay) (Double.Math_pow2 reconnectAttempts))
    (Double.finite maxDelay).

(** [random] is the value [Math.random()] returns in this call.  The line
    logged also shows the delay in whole seconds, which its text here
    leaves out. *)
Definition scheduleReconnect (random : Q) (w : world) : world * list effect :=
  let w := match reconnectTimer (this w) with
           | Some t => clear t w
           | None => w
           end in
  (* Calculate delay with exponential backoff and jitter *)
  let delay := backoff (baseDelay (this w)) (maxDelay (this w))
                       (reconnectAttempts (this w)) in
  let jitter := Double.mul (Double.finite random) (Double.finite 1000) in (* 0-1 second jitter *)
  let totalDelay := Double.add delay jitter in
  let w := set_reconnectAttempts (S (reconnectAttempts (this w))) w in
  let '(t, w) := setTimeout reconnect totalDelay w in
  (set_reconnectTimer (Some t) w,
   [console ("[TunnelClient] Reconnecting (attempt "
             +:+ pretty (reconnectAttempts (this w)) +:+ ")")]
   ++ timer_warning totalDelay).

Definition stopPing (w : world) : world :=
  match pingInterval (this w) with
  | Some t => set_pingInterval None (clear t w)
  | None => w
  end.

Definition startPing (w : world) : world :=
  let w := stopPing w in
  let '(t, w) := arm ping_tick 30000 true w in (* Ping every 30 seconds *)
  set_pingInterval (Some t) w.

Definition ping_callback (now : Z) (w : world) : world * list effect :=
  match ws (this w) with
  | Some c => if sock_open w c then send (ping now) w else (w, [])
  | None => (w, [])
  end.

Definition close_local (acc : world * list effect) (entry : option string * sock)
    : world * list effect :=
  let '(w, es) := acc in
  if sock_open w entry.2 then (js_close entry.2 w, es ++ [ws_close entry.2])
  else (w, es).

Definition cleanupTunnels (w : world) : world * list effect :=
  let '(w, es) := foldl close_local (w, []) (localTunnels (this w)) in
  (set_localTunnels [] w, es).

(** *** Frames from the master *)

Definition handleAuthSuccess (message : json) (w : world) : world * list effect :=
  let w := set_authenticated true w in
  let w := set_reconnectAttempts 0 w in
  (startPing w,
   [console ("[TunnelClient] Authentication successful: " +:+
             match prop "slaveId" message with Some j => js_String j | None => "undefined" end)]).

(** Up to the [await]: the local HTTP call is issued. *)
Definition handleHttpRequest (message : json) (w : world) : world * list effect :=
  let requestId := as_id (prop "requestId" message) in
  (with_inflight (λ l, l ++ [requestId]) w,
   [local_request requestId (prop "method" message) (prop "path" message)
                  (prop "headers" message) (prop "body" message)]).

(** How [forwardToLocal] settles. *)
Inductive local_result :=
| local_ok (status : Z) (headers : list (string * string)) (body : string)
| local_failed (message : string).

Fixpoint remove_first (x : option string) (l : list (option string)) : list (option string) :=
  match l with
  | [] => []
  | y :: rest => if decide (x = y) then rest else y :: remove_first x rest
  end.

(** After the [await]. *)
Definition local_done (requestId : option string) (r : local_result) (w : world)
    : world * list effect :=
  if decide (requestId ∈ inflight w) then
    let w := with_inflight (remove_first requestId) w in
    match r with
    | local_ok status headers body => send (response requestId status headers body) w
    | local_failed message =>
        let '(w, es) := send (response_error requestId message) w in
        (w, console ("[TunnelClient] Error forwarding request: " +:+ message) :: es)
    end
  else (w, []).

Definition handleWsMessage (message : json) (w : world) : world * list effect :=
  let tunnelId := as_id (prop "tunnelId" message) in
  match JsMap.get tunnelId (localTunnels (this w)) with
  | Some localWs =>
      if sock_open w localWs then (w, [local_send localWs (prop "data" message)])
      else (w, [])
  | None => (w, [])
  end.

Definition handleWsTunnelClose (message : json) (w : world) : world * list effect :=
  let tunnelId := as_id (prop "tunnelId" message) in
  match JsMap.get tunnelId (localTunnels (this w)) with
  | Some localWs =>
      let w := js_close localWs w in
      (set_localTunnels (JsMap.delete tunnelId (localTunnels (this w))) w,
       [ws_close localWs])
  | None => (w, [])
  end.

(** Handlers of a local tunnel socket, installed by [handleWsTunnelOpen]. *)
Definition local_open (l : sock) (w : world) : world * list effect :=
  match locals w !! l with
  | Some tunnelId =>
      (set_localTunnels (JsMap.set tunnelId l (localTunnels (this w))) w,
       [console "[TunnelClient] Local WebSocket tunnel opened"])
  | None => (w, [])
  end.

Definition local_message (l : sock) (data : string) (w : world) : world * list effect :=
  match locals w !! l with
  | Some tunnelId => send (ws_data tunnelId data) w
  | None => (w, [])
  end.

Definition local_close (l : sock) (w : world) : world * list effect :=
  match locals w !! l with
  | Some tunnelId =>
      let w := set_localTunnels (JsMap.delete tunnelId (localTunnels (this w))) w in
      let '(w, es) := send (ws_tunnel_closed tunnelId) w in
      (w, console "[TunnelClient] Local WebSocket tunnel closed" :: es)
  | None => (w, [])
  end.

(** [this.masterUrl.replace(/\/?$/, '/cluster/tunnel')]: one trailing
    slash, if there is one, gives way to the path. *)
Fixpoint drop_last_slash (url : string) : string :=
  match url with
  | EmptyString => EmptyString
  | String c rest =>
      match rest with
      | EmptyString => if Ascii.eqb c "/" then EmptyString else url
      | _ => String c (drop_last_slash rest)
      end
  end.

Definition tunnelUrl (masterUrl : string) : string :=
  drop_last_slash masterUrl +:+ "/cluster/tunnel".

Section machine.
(** [JSON.parse] on the text of a frame; [None] is a SyntaxError. *)
Variable JSON_parse : string → option json.
(** Whether [new WebSocket(url)] returns a socket rather than throwing. *)
Variable WebSocket_accepts : target → bool.

Definition handleWsTunnelOpen (message : json) (w : world) : world * list effect :=
  let tunnelId := as_id (prop "tunnelId" message) in
  (* Determine local WebSocket path based on channel *)
  let wsPath := if is_str (prop "channel" message) "shell" then "/shell" else "/ws" in
  let token := prop "token" message in
  let localWsUrl := local_channel (localPort (this w)) wsPath
                                  (if truthy token then token else None) in
  if WebSocket_accepts localWsUrl then
    let '(localWs, w) := fresh_sock w in
    (with_locals (<[localWs := tunnelId]>) w, [new_WebSocket localWs localWsUrl])
  else
    let '(w, es) := send (error tunnelId "Invalid URL") w in
    (w, console "[TunnelClient] Error opening tunnel" :: es).

Definition handleMessage (message : json) (w : world) : world * list effect :=
  let type := prop "type" message in
  if is_str type "auth_success" then handleAuthSuccess message w
  else if is_str type "http_request" then handleHttpRequest message w
  else if is_str type "ws_tunnel_open" then handleWsTunnelOpen message w
  else if is_str type "ws_message" then handleWsMessage message w
  else if is_str type "ws_tunnel_close" then handleWsTunnelClose message w
  else if is_str type "pong" then (w, []) (* Pong received, connection is alive *)
  else (w, [console "[TunnelClient] Unknown message type"]).

Definition authenticate (w : world) : world * list effect :=
  send (auth (slaveId (this w)) (slaveName (this w)) (secret (this w))) w.

(** [connect()] *)
Definition connect (random : Q) (w : world) : world * list effect :=
  match masterUrl (this w) with
  | Some url =>
      let to := master_tunnel (tunnelUrl url) in
      if WebSocket_accepts to then
        let '(c, w) := fresh_sock w in
        (with_control (λ s, {[c]} ∪ s) (set_ws (Some c) w), [new_WebSocket c to])
      else
        let '(w, es) := scheduleReconnect random w in
        (w, console "[TunnelClient] Connection error:" :: es)
  | None =>
      (* this.masterUrl.replace throws a TypeError *)
      let '(w, es) := scheduleReconnect random w in
      (w, console "[TunnelClient] Connection error:" :: es)
  end.

Definition start (random : Q) (w : world) : world * list effect :=
  if configured (masterUrl (this w)) && configured (slaveId (this w))
     && configured (secret (this w))
  then
    let '(w, es) := connect random w in
    (w, console "[TunnelClient] Starting tunnel client" :: es)
  else
    (w, [console "[TunnelClient] Missing required configuration: MASTER_URL, SLAVE_ID, CLUSTER_SECRET"]).

Definition open_handler (w : world) : world * list effect :=
  let '(w, es) := authenticate w in
  (w, console "[TunnelClient] Connected to master, authenticating..." :: es).

(** [this.ws.on('message', ...)]; a frame that reads [null] throws at
    [message.type] inside the same [try]. *)
Definition message_handler (data : string) (w : world) : world * list effect :=
  match JSON_parse data with
  | None | Some JNull => (w, [console "[TunnelClient] Error parsing message:"])
  | Some message => handleMessage message w
  end.

Definition close_handler (random : Q) (w : world) : world * list effect :=
  let w := set_authenticated false w in
  let w := stopPing w in
  let '(w, es1) := cleanupTunnels w in
  let '(w, es2) := scheduleReconnect random w in
  (w, console "[TunnelClient] Disconnected from master" :: es1 ++ es2).

Definition stop (w : world) : world * list effect :=
  let w := match reconnectTimer (this w) with
           | Some t => set_reconnectTimer None (clear t w)
           | None => w
           end in
  let w := stopPing w in
  let '(w, es) := cleanupTunnels w in
  let '(w, es') := match ws (this w) with
                   | Some c => (set_ws None (js_close c w), [ws_close c])
                   | None => (w, [])
                   end in
  (set_authenticated false w, console "[TunnelClient] Stopping tunnel client" :: es ++ es').

Definition isConnected (w : world) : bool :=
  match ws (this w) with
  | Some c => sock_open w c && authenticated (this w)
  | None => false
  end.

(** What happens to the slave, one JavaScript task each.  [random] is
    the value [Math.random()] returns should the task schedule a
    reconnect, [now] the value of [Date.now()]. *)
Inductive event :=
| ev_start (random : Q)
| ev_stop
| ev_open (c : sock)
| ev_message (c : sock) (data : string)
| ev_close (c : sock) (random : Q)
| ev_error (c : sock)
| ev_timer (t : nat) (random : Q) (now : Z)
| ev_local_done (requestId : option string) (r : local_result)
| ev_local_open (l : sock)
| ev_local_message (l : sock) (data : string)
| ev_local_close (l : sock)
| ev_local_error (l : sock).

Definition step (e : event) (w : world) : world * list effect :=
  match e with
  | ev_start random => start random w
  | ev_stop => stop w
  | ev_open c =>
      if decide (c ∈ control w) then open_handler (with_socks (<[c := OPEN]>) w)
      else (w, [])
  | ev_message c data =>
      if decide (c ∈ control w) then message_handler data w else (w, [])
  | ev_close c random =>
      if decide (c ∈ control w) then close_handler random (with_socks (<[c := CLOSED]>) w)
      else (w, [])
  | ev_error c =>
      if decide (c ∈ control w) then (w, [console "[TunnelClient] WebSocket error:"])
      else (w, [])
  | ev_timer t random now =>
      match timers w !! t with
      | Some tm =>
          let w := if repeats tm then w else with_timers (delete t) w in
          match cb tm with
          | reconnect => connect random w
          | ping_tick => ping_callback now w
          end
      | None => (w, [])
      end
  | ev_local_done requestId r => local_done requestId r w
  | ev_local_open l => local_open l (with_socks (<[l := OPEN]>) w)
  | ev_local_message l data => local_message l data w
  | ev_local_close l => local_close l (with_socks (<[l := CLOSED]>) w)
  | ev_local_error l =>
      match locals w !! l with
      | Some _ => (w, [console "[TunnelClient] Local WebSocket error"])
      | None => (w, [])
      end
  end.

Fixpoint run (es : list event) (w : world) : world * list effect :=
  match es with
  | [] => (w, [])
  | e :: rest =>
      let '(w1, out1) := step e w in
      let '(w2, out2) := run rest w1 in
      (w2, out1 ++ out2)
  end.
End machine.
End Client.

(** ** A reader and a writer for JSON text

    The handlers above take [JSON.parse] as a parameter.  To run them on
    concrete frames this is a reader for the part of JSON the protocol
    uses (integers, strings without escapes), with the matching writer. *)

Module Json.
Definition dquote : ascii := ascii_of_nat 34.

Definition is_space (c : ascii) : bool :=
  let n := nat_of_ascii c in
  Nat.eqb n 32 || Nat.eqb n 9 || Nat.eqb n 10 || Nat.eqb n 13.

Fixpoint skip_space (s : string) : string :=
  match s with
  | String c rest => if is_space c then skip_space rest else s
  | EmptyString => s
  end.

(** The rest of [s] after the prefix [p]. *)
Fixpoint strip (p s : string) : option string :=
  match p, s with
  | EmptyString, _ => Some s
  | String a p', String b s' => if Ascii.eqb a b then strip p' s' else None
  | _, _ => None
  end.

(** After the opening quote: the text up to the closing quote. *)
Fixpoint text (s : string) : option (string * string) :=
  match s with
  | EmptyString => None
  | String c rest =>
      if Ascii.eqb c dquote then Some (EmptyString, rest)
      else if Ascii.eqb c "\" then None
      else if Nat.ltb (nat_of_ascii c) 32 then None
      else match text rest with
           | Some (t, rest') => Some (String c t, rest')
           | None => None
           end
  end.

Definition digit (c : ascii) : option Z :=
  let n := nat_of_ascii c in
  if Nat.leb 48 n && Nat.leb n 57 then Some (Z.of_nat (n - 48)) else None.

Fixpoint digits (acc : Z) (s : string) : Z * string :=
  match s with
  | String c rest =>
      match digit c with
      | Some d => digits (10 * acc + d) rest
      | None => (acc, s)
      end
  | EmptyString => (acc, s)
  end.

Definition number (s : string) : option (Z * string) :=
  match s with
  | String c rest =>
      match digit c with
      | Some d =>
          if Z.eqb d 0 then Some (0, rest) else Some (digits d rest)
      | None => None
      end
  | EmptyString => None
  end.

Fixpoint value (fuel : nat) (s : string) : option (json * string) :=
  match fuel with
  | O => None
  | S fuel =>
      match skip_space s with
      | String c rest =>
          if Ascii.eqb c "n" then (λ r, (JNull, r)) <$> strip "ull" rest
          else if Ascii.eqb c "t" then (λ r, (JBool true, r)) <$> strip "rue" rest
          else if Ascii.eqb c "f" then (λ r, (JBool false, r)) <$> strip "alse" rest
          else if Ascii.eqb c dquote then
            (λ '(t, r), (JStr t, r)) <$> text rest
          else if Ascii.eqb c "-" then
            (λ '(n, r), (JNum (- n), r)) <$> number rest
          else if Ascii.eqb c "[" then
            match skip_space rest with
            | String "]" r => Some (JArr [], r)
            | _ => (λ '(l, r), (JArr l, r)) <$> items fuel rest
            end
          else if Ascii.eqb c "{" then
            match skip_space rest with
            | String "}" r => Some (JObj [], r)
            | _ => (λ '(l, r), (JObj l, r)) <$> members fuel rest
            end
          else (λ '(n, r), (JNum n, r)) <$> number (String c rest)
      | EmptyString => None
      end
  end
with items (fuel : nat) (s : string) : option (list json * string) :=
  match fuel with
  | O => None
  | S fuel =>
      match value fuel s with
      | Some (v, rest) =>
          match skip_space rest with
          | String "," r => (λ '(l, r'), (v :: l, r')) <$> items fuel r
          | String "]" r => Some ([v], r)
          | _ => None
          end
      | None => None
      end
  end
with members (fuel : nat) (s : string) : option (list (string * json) * string) :=
  match fuel with
  | O => None
  | S fuel =>
      match skip_space s with
      | String c rest =>
          if Ascii.eqb c dquote then
            match text rest with
            | Some (k, rest) =>
                match skip_space rest with
                | String ":" rest =>
                    match value fuel rest with
                    | Some (v, rest) =>
                        match skip_space rest with
                        | String "," r => (λ '(l, r'), ((k, v) :: l, r')) <$> members fuel r
                        | String "}" r => Some ([(k, v)], r)
                        | _ => None
                        end
                    | None => None
                    end
                | _ => None
                end
            | None => None
            end
          else None
      | EmptyString => None
      end
  end.

Definition parse (s : string) : option json :=
  match value (S (String.length s)) s with
  | Some (j, rest) =>
      match skip_space rest with
      | EmptyString => Some j
      | _ => None
      end
  | None => None
  end.

Definition quoted (s : string) : string :=
  String dquote s +:+ String dquote EmptyString.

Fixpoint stringify (j : json) : string :=
  match j with
  | JNull => "null"
  | JBool true => "true"
  | JBool false => "false"
  | JNum n => pretty n
  | JStr s => quoted s
  | JArr l =>
      "[" +:+
      (fix go (l : list json) : string :=
         match l with
         | [] => ""
         | [x] => stringify x
         | x :: rest => stringify x +:+ "," +:+ go rest
         end) l +:+ "]"
  | JObj l =>
      "{" +:+
      (fix go (l : list (string * json)) : string :=
         match l with
         | [] => ""
         | [(k, v)] => quoted k +:+ ":" +:+ stringify v
         | (k, v) :: rest => quoted k +:+ ":" +:+ stringify v +:+ "," +:+ go rest
         end) l +:+ "}"
  end.
End Json.

(** ** Vocabulary of the properties *)

(** The names [sanitizeHeaders] deletes. *)
Definition stripped : list string :=
  ["connection"; "keep-alive"; "proxy-authenticate"; "proxy-authorization";
   "te"; "trailers"; "transfer-encoding"; "upgrade"; "x-target-slave"].

(** HTTP header names do not distinguish letter case: the header [name]
    (given in lower case) is in [h] when a key of [h] lower-cases to it. *)
Definition has_header (name : string) (h : gmap string string) : bool :=
  bool_decide (map_Exists (λ k _, toLowerCase k = name) h).

(** Header maps as Node's HTTP parser builds them: all names in lower case. *)
Definition lower_case_names (h : gmap string string) : Prop :=
  ∀ k, is_Some (h !! k) → toLowerCase k = k.

(** ** Concrete runs for the examples *)

Module Demo.
Import Master.

Definition manager : TunnelManager :=
  new_TunnelManager (Some "k3y") None None None.

(** The text of an [auth] frame. *)
Definition auth_text (i secret : string) : string :=
  Json.stringify (JObj [("type", JStr "auth"); ("slaveId", JStr i);
                        ("slaveName", JStr "Slave one"); ("secret", JStr secret)]).

(** Slave s1 has dialled in on socket 1 and authenticated. *)
Definition s1_connected : world :=
  (run Json.parse [ev_connection 1; ev_message 1 (auth_text "s1" "k3y") 1000]
       (init manager)).1.

Definition get (target : string) (h : gmap string string) : request :=
  {| method := "GET"; url := target; originalUrl := target; headers := h |}.
End Demo.

(** The tunnels of slave [i] among the entries [l] of the tunnel map, and
    their keys. *)
Definition owned_tunnels_of (i : Master.slave_key) (l : list (string * Master.tunnel))
    : list Master.tunnel :=
  (filter (λ e, Master.str_key (Master.slaveId e.2) = i) l).*2.

Definition owned_tunnels (i : Master.slave_key) (l : list (string * Master.tunnel))
    : list string :=
  (filter (λ e, Master.str_key (Master.slaveId e.2) = i) l).*1.

(** An effect that completes the promise of request [r]. *)
Definition settles (r : string) (e : Master.effect) : bool :=
  match e with
  | Master.resolve r' _ | Master.reject r' _ => bool_decide (r' = r)
  | _ => false
  end.

Module Demo2.
Import Master.

(** Slaves s1 (socket 1) and s2 (socket 2) are connected; user sockets 7
    and 8 are tunnelled to s1 and s2; request r1 to s1 is pending. *)
Definition busy : world :=
  (run Json.parse
       [ev_connection 1; ev_message 1 (Demo.auth_text "s1" "k3y") 1000;
        ev_connection 2; ev_message 2 (Demo.auth_text "s2" "k3y") 1001;
        ev_ready 7 OPEN; ev_createWsTunnel "s1" 7 "ws" (Some "T") "t1";
        ev_ready 8 OPEN; ev_createWsTunnel "s2" 8 "shell" None "t2";
        ev_forwardHttpRequest "s1" (Demo.get "/api/projects" ∅) "r1"]
       (init Demo.manager)).1.
End Demo2.

Module Demo3.
Import Master.

(** Slave s1 authenticates on socket 1, then again on socket 2. *)
Definition first_auth : list event :=
  [ev_connection 1; ev_message 1 (Demo.auth_text "s1" "k3y") 1000].

Definition second_auth : list event :=
  [ev_connection 2; ev_message 2 (Demo.auth_text "s1" "k3y") 2000].

Definition replaced : world * list effect :=
  run Json.parse second_auth (run Json.parse first_auth (init Demo.manager)).1.
End Demo3.

(** The request ids drawn by the calls of [forwardHttpRequest] in a trace. *)
Definition issued (events : list Master.event) : list string :=
  omap (λ e, match e with
             | Master.ev_forwardHttpRequest _ _ r => Some r
             | _ => None
             end) events.

(** How often the promise of request [r] is completed by a list of effects. *)
Definition completions (r : string) (out : list Master.effect) : nat :=
  length (filter (λ e, settles r e = true) out).

(** A request is live while its call collects the body or it is pending. *)
Definition live (w : Master.world) (r : string) : Prop :=
  is_Some (Master.pendingRequests (Master.tm w) !! r) ∨ is_Some (Master.draining w !! r).

(** Every armed request timer belongs to the pending entry of its request,
    and no request is both collecting its body and pending. *)
Definition requests_consistent (w : Master.world) : Prop :=
  (∀ t r, Master.timers w !! t = Some (Master.request_deadline r) →
          Master.pendingRequests (Master.tm w) !! r = Some {| Master.timeout := t |}) ∧
  (∀ r, is_Some (Master.pendingRequests (Master.tm w) !! r) →
        Master.draining w !! r = None).

(** A step that leaves the requests alone: it may disarm timers and arm
    authentication timers, and completes no promise. *)
Definition quiet (w w1 : Master.world) (out : list Master.effect) : Prop :=
  Master.pendingRequests (Master.tm w1) = Master.pendingRequests (Master.tm w) ∧
  Master.draining w1 = Master.draining w ∧
  (∀ t r, Master.timers w1 !! t = Some (Master.request_deadline r) →
          Master.timers w !! t = Some (Master.request_deadline r)) ∧
  (∀ r e, e ∈ out → settles r e = false).

(** A step that completes the promise of request [r], once, and forgets the
    request. *)
Definition completing (r : string) (w w1 : Master.world) (out : list Master.effect) : Prop :=
  live w r ∧
  Master.pendingRequests (Master.tm w1) = delete r (Master.pendingRequests (Master.tm w)) ∧
  Master.draining w1 = delete r (Master.draining w) ∧
  (∀ t r', Master.timers w1 !! t = Some (Master.request_deadline r') →
           Master.timers w !! t = Some (Master.request_deadline r') ∧ r' ≠ r) ∧
  completions r out = 1%nat ∧
  (∀ r', r' ≠ r → completions r' out = 0%nat).

(** A step that starts request [r]: it completes nothing, and [r] becomes
    or stays live. *)
Definition starting (r : string) (w w1 : Master.world) (out : list Master.effect) : Prop :=
  requests_consistent w1 ∧
  (∀ r', live w1 r' → live w r' ∨ r' = r) ∧
  (∀ r', completions r' out = 0%nat).

Module Demo4.
Import Master.

(** The text of a [response] frame. *)
Definition response_text (r : string) (code : Z) (body : string) : string :=
  Json.stringify (JObj [("type", JStr "response"); ("requestId", JStr r);
                        ("status", JNum code); ("headers", JObj []);
                        ("body", JStr body)]).

(** Request r1 goes to slave s1, is answered, is answered once more, and
    then the handle of its timer comes up. *)
Definition answered_twice : list event :=
  [ev_connection 1; ev_message 1 (Demo.auth_text "s1" "k3y") 1000;
   ev_forwardHttpRequest "s1" (Demo.get "/api/projects" ∅) "r1";
   ev_message 1 (response_text "r1" 200 "first") 1500;
   ev_message 1 (response_text "r1" 500 "second") 1600;
   ev_timer 1].
End Demo4.

Module Demo5.
Import Client.

(** A slave configured from the environment, with the default delays. *)
Definition slave : TunnelClient :=
  new_TunnelClient None None None None None
                   (Some "https://master.example/") (Some "s1") None (Some "k3y") None
                   None None.


(** Every URL is acceptable to the WebSocket constructor. *)
Definition any_url (to : target) : bool := true.
End Demo5.

Module Demo6.
Import Master.

(** A request for the cluster status that carries the routing header. *)
Definition status_via_s1 : request :=
  Demo.get "/api/cluster/status" {["x-target-slave" := "s1"]}.

(** A request whose routing header is there but empty. *)
Definition empty_target : request :=
  Demo.get "/api/projects" {["x-target-slave" := ""]}.

(** A request for a slave that is not connected. *)
Definition to_s9 : request :=
  Demo.get "/api/projects" {["x-target-slave" := "s9"]}.
End Demo6.

Module Demo7.
(** A slave that has dialled the master on socket 0 and lost the
    connection again: its socket is closed. *)
Definition disconnected : Client.world :=
  (Client.run Json.parse Demo5.any_url
              [Client.ev_start 0; Client.ev_open 0; Client.ev_close 0 (1 # 4)]
              (Client.init Demo5.slave)).1.

(** The same slave while its connection is open. *)
Definition online : Client.world :=
  (Client.run Json.parse Demo5.any_url
              [Client.ev_start 0; Client.ev_open 0]
              (Client.init Demo5.slave)).1.
End Demo7.

(** What one step of the master may do to the requests: keep them
    consistent, make live only the request it issues, and complete a promise
    at most once, of a request that was live or is issued by this very step
    and is not live afterwards. *)
Definition step_ok (e : Master.event) (w w1 : Master.world) (out : list Master.effect)
    : Prop :=
  requests_consistent w1 ∧
  (∀ r, live w1 r → live w r ∨ r ∈ issued [e]) ∧
  ∀ r, completions r out = 0%nat ∨
       (completions r out = 1%nat ∧ (live w r ∨ r ∈ issued [e]) ∧ ¬ live w1 r).

(** How a step may change the registry: not at all, by one [set], or by
    one [delete]. *)
Definition registry_change (m m' : list (Master.slave_key * Master.slave)) : Prop :=
  m' = m ∨ (∃ k v, m' = JsMap.set k v m) ∨ (∃ k, m' = JsMap.delete k m).

(** ** The frames as the other side reads them

    What [JSON.parse] gives back for the text [JSON.stringify] makes of the
    object literals of the two classes: a property whose value is
    [undefined] is left out, [null] stays. *)

Module Wire.
Definition opt_field (k : string) (v : option json) : list (string * json) :=
  match v with
  | Some j => [(k, j)]
  | None => []
  end.

Definition headers_json (h : gmap string string) : json :=
  JObj (map (λ kv, (kv.1, JStr kv.2)) (map_to_list h)).

(** The object literals of tunnel-manager.js. *)
Definition of_master (f : Master.frame) : json :=
  match f with
  | Master.auth_success i =>
      JObj [("type", JStr "auth_success"); ("slaveId", i)]
  | Master.http_request requestId method path headers body =>
      JObj [("type", JStr "http_request"); ("requestId", JStr requestId);
            ("method", JStr method); ("path", JStr path);
            ("headers", headers_json headers);
            ("body", match body with Some b => JStr b | None => JNull end)]
  | Master.ws_tunnel_open tunnelId channel token =>
      JObj ([("type", JStr "ws_tunnel_open"); ("tunnelId", JStr tunnelId);
             ("channel", JStr channel)] ++ opt_field "token" (JStr <$> token))
  | Master.ws_message tunnelId data =>
      JObj [("type", JStr "ws_message"); ("tunnelId", JStr tunnelId);
            ("data", JStr data)]
  | Master.ws_tunnel_close tunnelId =>
      JObj [("type", JStr "ws_tunnel_close"); ("tunnelId", JStr tunnelId)]
  | Master.pong timestamp =>
      JObj (("type", JStr "pong") :: opt_field "timestamp" timestamp)
  end.

(** The object literals of tunnel-client.js. *)
Definition of_slave (f : Client.frame) : json :=
  match f with
  | Client.auth slaveId slaveName secret =>
      JObj ([("type", JStr "auth")] ++ opt_field "slaveId" (JStr <$> slaveId)
            ++ opt_field "slaveName" (JStr <$> slaveName)
            ++ opt_field "secret" (JStr <$> secret))
  | Client.response requestId status headers body =>
      JObj ([("type", JStr "response")] ++ opt_field "requestId" (JStr <$> requestId)
            ++ [("status", JNum status);
                ("headers", JObj (map (λ kv, (kv.1, JStr kv.2)) headers));
                ("body", JStr body)])
  | Client.response_error requestId error =>
      JObj ([("type", JStr "response")] ++ opt_field "requestId" (JStr <$> requestId)
            ++ [("error", JStr error)])
  | Client.ws_data tunnelId data =>
      JObj ([("type", JStr "ws_data")] ++ opt_field "tunnelId" (JStr <$> tunnelId)
            ++ [("data", JStr data)])
  | Client.ws_tunnel_closed tunnelId =>
      JObj ([("type", JStr "ws_tunnel_closed")]
            ++ opt_field "tunnelId" (JStr <$> tunnelId))
  | Client.ping timestamp =>
      JObj [("type", JStr "ping"); ("timestamp", JNum timestamp)]
  | Client.error tunnelId error =>
      JObj ([("type", JStr "error")] ++ opt_field "tunnelId" (JStr <$> tunnelId)
            ++ [("error", JStr error)])
  end.
End Wire.

(** An effect that only logs, or closes socket [c] with one of the two
    codes of a refused handshake. *)
Definition log_or_refusal (c : sock) (e : Master.effect) : Prop :=
  (∃ line, e = Master.console line) ∨
  e = Master.close c (Some (4002, "Authentication failed")) ∨
  e = Master.close c (Some (4003, "Expected auth message")).

(** Every tunnel belongs to a slave that has a record in the registry. *)
Definition tunnels_owned (w : Master.world) : Prop :=
  ∀ t tn, (t, tn) ∈ Master.tunnels (Master.tm w) →
          JsMap.has (Master.str_key (Master.slaveId tn)) (Master.slaves (Master.tm w)) = true.

Module DemoX.
Import Master.

(** A connection on socket 3 next to the connected slave s1, not yet
    authenticated. *)
Definition newcomer : world :=
  (run Json.parse [ev_connection 3] Demo.s1_connected).1.

(** User socket 7 is open and slave s1 is connected. *)
Definition user_waiting : world :=
  (run Json.parse [ev_ready 7 OPEN] Demo.s1_connected).1.
End DemoX.

(** The body of the [try] of the master's message handler (lines 50-70)
    for a frame that parsed to [message], in the connection state [k]:
    the state and the effects when the handler returns, and the promise of
    [handleAuth] if it was called. *)
Definition dispatch (c : sock) (message : json) (k : Master.connection) (now : Z)
    (w : Master.world) : Master.world * list Master.effect * list Master.settled_auth :=
  if negb (Master.conn_authenticated k) then
    if is_str (prop "type" message) "auth" then
      match Master.handleAuth c message (Master.authTimer k) now w with
      | inr (i, w, es) => (w, es, [Master.auth_fulfilled i])
      | inl err => (w, [], [Master.auth_rejected err])
      end
    else (Master.js_close c w, [Master.close c (Some (4003, "Expected auth message"))], [])
  else
    match Master.conn_slaveId k with
    | Some i => let '(w, es) := Master.handleSlaveMessage i message now w in (w, es, [])
    | None => (w, [], [])
    end.

(** The small steps a task of a control connection is made of: the
    handler on one frame, and the two kinds of microtask. *)
Inductive micro :=
| m_frame (data : string) (now : Z)
| m_then (id : Master.slave_key)
| m_catch (err : string).

Definition micro_step (JSON_parse : string → option json) (c : sock) (m : micro)
    (w : Master.world) : Master.world * list Master.effect :=
  match m with
  | m_frame data now => (Master.message_handler JSON_parse c data now w).1
  | m_then id => (Master.then_reaction c id w, [])
  | m_catch err => Master.catch_reaction c err w
  end.

(** The [then] callback of a task is passed what a call of [handleAuth]
    on this connection returned. *)
Definition accepted (c : sock) (m : micro) : Prop :=
  match m with
  | m_then id => ∃ message t now w w' es,
                   Master.handleAuth c message t now w = inr (id, w', es)
  | _ => True
  end.

(** A promise fulfilled with what [handleAuth] returned. *)
Definition fulfilled_by (c : sock) (r : Master.settled_auth) : Prop :=
  match r with
  | Master.auth_fulfilled id => accepted c (m_then id)
  | Master.auth_rejected _ => True
  end.

Fixpoint micro_run (JSON_parse : string → option json) (c : sock) (ms : list micro)
    (w : Master.world) : Master.world * list Master.effect :=
  match ms with
  | [] => (w, [])
  | m :: rest =>
      let '(w1, out1) := micro_step JSON_parse c m w in
      let '(w2, out2) := micro_run JSON_parse c rest w1 in
      (w2, out1 ++ out2)
  end.

(** A step that removes no record from the registry, and either deletes
    some tunnels or adds one for a registered slave. *)
Definition gentle (w w1 : Master.world) : Prop :=
  (∀ k : Master.slave_key, JsMap.has k (Master.slaves (Master.tm w)) = true →
        JsMap.has k (Master.slaves (Master.tm w1)) = true) ∧
  ((∃ ks, Master.tunnels (Master.tm w1)
          = foldl (λ m k, JsMap.delete k m) (Master.tunnels (Master.tm w)) ks) ∨
   (∃ t tn, Master.tunnels (Master.tm w1) = JsMap.set t tn (Master.tunnels (Master.tm w)) ∧
            JsMap.has (Master.str_key (Master.slaveId tn)) (Master.slaves (Master.tm w)) = true)).

(** A step that removes slave [i] from the registry together with its
    tunnels. *)
Definition evicting (i : Master.slave_key) (w w1 : Master.world) : Prop :=
  Master.slaves (Master.tm w1) = JsMap.delete i (Master.slaves (Master.tm w)) ∧
  Master.tunnels (Master.tm w1)
  = foldl (λ m k, JsMap.delete k m) (Master.tunnels (Master.tm w))
          (owned_tunnels i (Master.tunnels (Master.tm w))).

(** Among the header names sent, exactly one lower-cases to [name], and it
    carries [v]. *)
Definition received_unique (sent : gmap string string) (name v : string) : Prop :=
  ∃ k0, toLowerCase k0 = name ∧ sent !! k0 = Some v ∧
        ∀ k, is_Some (sent !! k) → toLowerCase k = name → k = k0.

(** Every armed timer of the slave is held by the client object: a
    reconnect timer in [reconnectTimer], a ping interval in [pingInterval]. *)
Definition timers_owned (w : Client.world) : Prop :=
  ∀ t tmr, Client.timers w !! t = Some tmr →
    (Client.cb tmr = Client.reconnect ∧ Client.reconnectTimer (Client.this w) = Some t) ∨
    (Client.cb tmr = Client.ping_tick ∧ Client.pingInterval (Client.this w) = Some t).

(** A step that touches neither the timers nor the two handles. *)
Definition same_timers (w w' : Client.world) : Prop :=
  Client.timers w' = Client.timers w ∧
  Client.reconnectTimer (Client.this w') = Client.reconnectTimer (Client.this w) ∧
  Client.pingInterval (Client.this w') = Client.pingInterval (Client.this w).

(** An effect other than an [http_request] frame. *)
Definition no_request (e : Master.effect) : Prop :=
  match e with
  | Master.send _ (Master.http_request _ _ _ _ _) => False
  | _ => True
  end.

(** An [http_request] frame that belongs to a call of [forwardHttpRequest]
    among [events]: it has the id drawn in that call, the method and the
    path of the request, and the headers of the request as
    [sanitizeHeaders] leaves them. *)
Definition traced (events : list Master.event) (e : Master.effect) : Prop :=
  match e with
  | Master.send _ (Master.http_request r method path h _) =>
      ∃ i rq, Master.ev_forwardHttpRequest i rq r ∈ events ∧
              method = Master.method rq ∧ path = Master.url rq ∧
              h = Master.sanitizeHeaders (Master.headers rq)
  | _ => True
  end.

(** Every call that is reading a body was made by one of [events]. *)
Definition draining_traced (events : list Master.event) (w : Master.world) : Prop :=
  ∀ r c rq, Master.draining w !! r = Some (c, rq) →
            ∃ i, Master.ev_forwardHttpRequest i rq r ∈ events.

(** The requests the middleware hands over have the header maps of Node's
    HTTP parser ([req.headers]): every name in lower case. *)
Definition parsed_headers (e : Master.event) : Prop :=
  match e with
  | Master.ev_forwardHttpRequest _ rq _ => lower_case_names (Master.headers rq)
  | _ => True
  end.

(** The slave id a connection holds once it is authenticated is a truthy
    value: [handleAuth] throws on any other. *)
Definition conn_ids_truthy (w : Master.world) : Prop :=
  ∀ c k i, Master.conns w !! c = Some k → Master.conn_slaveId k = Some i →
           truthy (Some (Master.key_json i)) = true.

(** A task that issues no request: it keeps the requests consistent, makes
    none live, and completes a promise at most once, of a request that was
    live before and is not afterwards. *)
Definition calm (w w1 : Master.world) (out : list Master.effect) : Prop :=
  requests_consistent w1 ∧
  (∀ r, live w1 r → live w r) ∧
  ∀ r, completions r out = 0%nat ∨
       (completions r out = 1%nat ∧ live w r ∧ ¬ live w1 r).

(** The timers and what holds them: the timer of every pending request is
    armed; the authentication timer of a connection is not a request timer;
    every handle in use was drawn before the next one. *)
Definition timers_sound (w : Master.world) : Prop :=
  (∀ r p, Master.pendingRequests (Master.tm w) !! r = Some p →
          Master.timers w !! Master.timeout p = Some (Master.request_deadline r)) ∧
  (∀ c k r, Master.conns w !! c = Some k →
            Master.timers w !! Master.authTimer k ≠ Some (Master.request_deadline r)) ∧
  (∀ c k, Master.conns w !! c = Some k → (Master.authTimer k < Master.next_timer w)%nat) ∧
  (∀ t, is_Some (Master.timers w !! t) → (t < Master.next_timer w)%nat).

(** What a handler may do to the timers, the pending requests and the
    connections. *)
Inductive timer_shape (w w1 : Master.world) : Prop :=
| shape_same :
    Master.pendingRequests (Master.tm w1) = Master.pendingRequests (Master.tm w) →
    Master.timers w1 = Master.timers w → Master.conns w1 = Master.conns w →
    Master.next_timer w1 = Master.next_timer w → timer_shape w w1
| shape_clear t :
    (∀ r, Master.timers w !! t ≠ Some (Master.request_deadline r)) →
    Master.pendingRequests (Master.tm w1) = Master.pendingRequests (Master.tm w) →
    Master.timers w1 = delete t (Master.timers w) → Master.conns w1 = Master.conns w →
    Master.next_timer w1 = Master.next_timer w → timer_shape w w1
| shape_done t r :
    Master.timers w !! t = Some (Master.request_deadline r) →
    Master.pendingRequests (Master.tm w1) = delete r (Master.pendingRequests (Master.tm w)) →
    Master.timers w1 = delete t (Master.timers w) → Master.conns w1 = Master.conns w →
    Master.next_timer w1 = Master.next_timer w → timer_shape w w1
| shape_connection c :
    Master.pendingRequests (Master.tm w1) = Master.pendingRequests (Master.tm w) →
    Master.timers w1 = <[Master.next_timer w := Master.auth_deadline c]> (Master.timers w) →
    Master.conns w1
    = <[c := {| Master.conn_authenticated := false; Master.conn_slaveId := None;
                Master.authTimer := Master.next_timer w |}]> (Master.conns w) →
    Master.next_timer w1 = S (Master.next_timer w) → timer_shape w w1
| shape_request r :
    Master.pendingRequests (Master.tm w1)
    = <[r := {| Master.timeout := Master.next_timer w |}]>
        (Master.pendingRequests (Master.tm w)) →
    Master.timers w1 = <[Master.next_timer w := Master.request_deadline r]> (Master.timers w) →
    Master.conns w1 = Master.conns w →
    Master.next_timer w1 = S (Master.next_timer w) → timer_shape w w1
| shape_then c k id :
    Master.conns w !! c = Some k →
    Master.pendingRequests (Master.tm w1) = Master.pendingRequests (Master.tm w) →
    Master.timers w1 = Master.timers w →
    Master.conns w1
    = <[c := {| Master.conn_authenticated := true; Master.conn_slaveId := Some id;
                Master.authTimer := Master.authTimer k |}]> (Master.conns w) →
    Master.next_timer w1 = Master.next_timer w → timer_shape w w1.
(** * Properties *)

(** ** Facts about insertion-ordered maps *)

Section JsMap_facts.
Context {K : Type} `{EqDecision K} {V : Type}.
Implicit Types (k : K) (v : V) (m : list (K * V)).

Lemma JsMap_get_set_eq k v m : JsMap.get k (JsMap.set k v m) = Some v.
Proof.
  induction m as [|[k' v'] m IH]; simpl.
  - by rewrite decide_True.
  - destruct (decide (k = k')) as [->|Hne]; simpl.
    + by rewrite decide_True.
    + by rewrite decide_False.
Qed.

Lemma JsMap_get_set_ne k k' v m :
  k ≠ k' → JsMap.get k' (JsMap.set k v m) = JsMap.get k' m.
Proof.
  intros Hne. induction m as [|[k0 v0] m IH]; simpl.
  - by rewrite decide_False.
  - destruct (decide (k = k0)) as [->|Hk]; simpl.
    + by rewrite !decide_False.
    + destruct (decide (k' = k0)); done.
Qed.

Lemma JsMap_get_delete_eq k m : JsMap.get k (JsMap.delete k m) = None.
Proof.
  induction m as [|[k' v'] m IH]; simpl; [done|].
  destruct (decide (k = k')) as [->|Hne]; simpl; [done|].
  by rewrite decide_False.
Qed.

Lemma JsMap_get_delete_ne k k' m :
  k ≠ k' → JsMap.get k' (JsMap.delete k m) = JsMap.get k' m.
Proof.
  intros Hne. induction m as [|[k0 v0] m IH]; simpl; [done|].
  destruct (decide (k = k0)) as [->|Hk]; simpl.
  - by rewrite decide_False.
  - destruct (decide (k' = k0)); done.
Qed.

Lemma JsMap_has_delete_eq k m : JsMap.has k (JsMap.delete k m) = false.
Proof. unfold JsMap.has. by rewrite JsMap_get_delete_eq. Qed.

Lemma JsMap_get_Some_elem k v m : JsMap.get k m = Some v → (k, v) ∈ m.
Proof.
  induction m as [|[k' v'] m IH]; simpl; [done|].
  destruct (decide (k = k')) as [->|Hne].
  - intros [= ->]. left.
  - intros H. right. by apply IH.
Qed.

(** What survives a [delete] was there before, under the same key. *)
Lemma JsMap_get_delete_Some k k' v m :
  JsMap.get k' (JsMap.delete k m) = Some v → k ≠ k' ∧ JsMap.get k' m = Some v.
Proof.
  intros H. destruct (decide (k = k')) as [->|Hne].
  - by rewrite JsMap_get_delete_eq in H.
  - by rewrite JsMap_get_delete_ne in H.
Qed.

Lemma JsMap_keys_set k v m :
  JsMap.keys (JsMap.set k v m)
  = if bool_decide (k ∈ JsMap.keys m) then JsMap.keys m else JsMap.keys m ++ [k].
Proof.
  unfold JsMap.keys. induction m as [|[k' v'] m IH]; [done|].
  cbn [JsMap.set]. destruct (decide (k = k')) as [->|Hne].
  - rewrite !fmap_cons. cbn [fst]. rewrite bool_decide_eq_true_2; [done | left].
  - rewrite !fmap_cons, IH. cbn [fst].
    rewrite (bool_decide_ext (k ∈ k' :: m.*1) (k ∈ m.*1)).
    + by case_bool_decide.
    + rewrite elem_of_cons. naive_solver.
Qed.

Lemma JsMap_NoDup_set k v m :
  NoDup (JsMap.keys m) → NoDup (JsMap.keys (JsMap.set k v m)).
Proof.
  intros Hnd. rewrite JsMap_keys_set. case_bool_decide as Hk; [done|].
  apply NoDup_app. split_and!; [done | | apply NoDup_singleton].
  intros x Hx ->%list_elem_of_singleton. done.
Qed.

Lemma elem_of_JsMap_set k v m (e : K * V) :
  e ∈ JsMap.set k v m → e = (k, v) ∨ e ∈ m.
Proof.
  induction m as [|[k' v'] m IH]; simpl.
  - intros ->%list_elem_of_singleton. by left.
  - destruct (decide (k = k')) as [->|Hne].
    + intros [->|?]%elem_of_cons; [by left | right; by right].
    + intros [->|?]%elem_of_cons; [right; left|].
      destruct IH as [?|?]; [done | by left | right; by right].
Qed.

Lemma elem_of_JsMap_delete k m (e : K * V) :
  e ∈ JsMap.delete k m → e ∈ m ∧ e.1 ≠ k.
Proof.
  induction m as [|[k' v'] m IH]; simpl; [by intros ?%elem_of_nil|].
  destruct (decide (k = k')) as [->|Hne].
  - intros [? ?]%IH. split; [by right | done].
  - intros [->|[? ?]%IH]%elem_of_cons; [split; [left | by simpl] | split; [by right | done]].
Qed.

Lemma elem_of_JsMap_delete_2 k m (e : K * V) :
  e ∈ m → e.1 ≠ k → e ∈ JsMap.delete k m.
Proof.
  induction m as [|[k' v'] m IH]; simpl; [done|].
  intros [->|Hin]%elem_of_cons Hne.
  - simpl in Hne. rewrite decide_False by done. left.
  - destruct (decide (k = k')); [by apply IH | right; by apply IH].
Qed.

Lemma JsMap_NoDup_delete k m :
  NoDup (JsMap.keys m) → NoDup (JsMap.keys (JsMap.delete k m)).
Proof.
  unfold JsMap.keys. induction m as [|[k' v'] m IH]; simpl; [done|].
  intros [Hk' Hnd]%NoDup_cons. destruct (decide (k = k')); [by apply IH|].
  simpl. apply NoDup_cons. split; [|by apply IH].
  intros ([k0 v0] & -> & [Hin _]%elem_of_JsMap_delete)%list_elem_of_fmap. apply Hk'.
  apply list_elem_of_fmap. by exists (k0, v0).
Qed.

Lemma JsMap_NoDup_get m k v v' :
  NoDup (JsMap.keys m) → (k, v') ∈ m → JsMap.get k m = Some v → v' = v.
Proof.
  unfold JsMap.keys. induction m as [|[k0 v0] m IH]; simpl; [by intros _ ?%elem_of_nil|].
  intros [Hk0 Hnd]%NoDup_cons [[= -> ->]|Hin]%elem_of_cons.
  - rewrite decide_True; [congruence | done].
  - destruct (decide (k = k0)) as [->|Hne]; [|by apply IH].
    exfalso. apply Hk0. apply list_elem_of_fmap. by exists (k0, v').
Qed.

Lemma JsMap_has_set_mono k k' v m :
  JsMap.has k' m = true → JsMap.has k' (JsMap.set k v m) = true.
Proof.
  unfold JsMap.has. destruct (decide (k = k')) as [->|Hne].
  - by rewrite JsMap_get_set_eq.
  - by rewrite JsMap_get_set_ne.
Qed.

(** Deleting a list of keys. *)
Lemma get_deletes (ks : list K) m k :
  JsMap.get k (foldl (λ m k, JsMap.delete k m) m ks)
  = if bool_decide (k ∈ ks) then None else JsMap.get k m.
Proof.
  revert m. induction ks as [|k0 ks IH]; intros m; simpl; [done|].
  rewrite IH. destruct (decide (k = k0)) as [->|Hne].
  - rewrite (bool_decide_eq_true_2 (k0 ∈ k0 :: ks)); [|left].
    case_bool_decide; [done | apply JsMap_get_delete_eq].
  - rewrite JsMap_get_delete_ne; [|done].
    rewrite (bool_decide_ext (k ∈ k0 :: ks) (k ∈ ks)); [done|].
    rewrite elem_of_cons. naive_solver.
Qed.

Lemma elem_of_deletes (ks : list K) m (e : K * V) :
  e ∈ foldl (λ m k, JsMap.delete k m) m ks → e ∈ m ∧ e.1 ∉ ks.
Proof.
  revert m. induction ks as [|k ks IH]; intros m; simpl.
  - intros ?. split; [done | apply not_elem_of_nil].
  - intros [[? ?]%elem_of_JsMap_delete ?]%IH. split; [done|].
    apply not_elem_of_cons. by split.
Qed.

Lemma NoDup_deletes (ks : list K) m :
  NoDup (JsMap.keys m) → NoDup (JsMap.keys (foldl (λ m k, JsMap.delete k m) m ks)).
Proof.
  revert m. induction ks as [|k ks IH]; intros m Hnd; simpl; [done|].
  by apply IH, JsMap_NoDup_delete.
Qed.
End JsMap_facts.

(** ** Header sanitising (tunnel-manager.js, sanitizeHeaders) *)


Lemma sanitizeHeaders_lookup (h : gmap string string) (k : string) :
  Master.sanitizeHeaders h !! k = if bool_decide (k ∈ stripped) then None else h !! k.
Proof.
  unfold Master.sanitizeHeaders, stripped.
  case_bool_decide as Hk.
  - repeat (apply elem_of_cons in Hk as [->|Hk];
            [by rewrite ?lookup_delete_eq; repeat (rewrite lookup_delete_ne; [|done]);
                rewrite ?lookup_delete_eq|]).
    by apply elem_of_nil in Hk.
  - rewrite !lookup_delete_ne; [done|..]; intros <-; apply Hk; set_solver.
Qed.

Lemma sanitizeHeaders_stripped (h : gmap string string) (name : string) :
  name ∈ stripped → Master.sanitizeHeaders h !! name = None.
Proof. intros H. rewrite sanitizeHeaders_lookup. by rewrite bool_decide_eq_true_2. Qed.

Lemma sanitizeHeaders_kept (h : gmap string string) (k : string) :
  k ∉ stripped → Master.sanitizeHeaders h !! k = h !! k.
Proof. intros H. rewrite sanitizeHeaders_lookup. by rewrite bool_decide_eq_false_2. Qed.

Lemma sanitizeHeaders_lower_case (h : gmap string string) (name : string) :
  name ∈ stripped → lower_case_names h →
  has_header name (Master.sanitizeHeaders h) = false.
Proof.
  intros Hname Hlow. apply bool_decide_eq_false_2.
  intros (k & v & Hk & Hlk).
  assert (Hin : is_Some (h !! k)).
  { rewrite sanitizeHeaders_lookup in Hk. case_bool_decide; [done | by eexists]. }
  rewrite (Hlow k Hin) in Hlk. subst k.
  by rewrite sanitizeHeaders_stripped in Hk.
Qed.


(** Case analysis on every [match] and [if] of the goal, innermost first. *)
Ltac split_cases :=
  repeat (simpl;
          match goal with
          | |- context [match ?x with _ => _ end] =>
              lazymatch x with
              | context [match _ with _ => _ end] => fail
              | _ => destruct x eqn:?
              end
          end).

Ltac split_hyp H :=
  repeat (simpl in H;
          match type of H with
          | context [match ?x with _ => _ end] =>
              lazymatch x with
              | context [match _ with _ => _ end] => fail
              | _ => destruct x eqn:?
              end
          end).

Ltac effects_ok := split_cases; simpl; repeat constructor; simpl; eauto.

(** ** Tasks of a control connection, one small step at a time *)

Section micro_steps.
Import Master.
Variable JSON_parse : string → option json.

Lemma message_handler_dispatch c data now w :
  message_handler JSON_parse c data now w
  = match conns w !! c with
    | None => (w, [], [])
    | Some k =>
        match JSON_parse data with
        | None | Some JNull => (w, [console "[TunnelManager] Error parsing message:"], [])
        | Some message => dispatch c message k now w
        end
    end.
Proof. reflexivity. Qed.

Lemma micro_run_app c ms1 ms2 w :
  micro_run JSON_parse c (ms1 ++ ms2) w
  = let '(w1, out1) := micro_run JSON_parse c ms1 w in
    let '(w2, out2) := micro_run JSON_parse c ms2 w1 in
    (w2, out1 ++ out2).
Proof.
  revert w. induction ms1 as [|m ms1 IH]; intros w; simpl.
  - by destruct (micro_run JSON_parse c ms2 w).
  - destruct (micro_step JSON_parse c m w) as [w1 out1]. rewrite IH.
    destruct (micro_run JSON_parse c ms1 w1) as [w2 out2].
    destruct (micro_run JSON_parse c ms2 w2) as [w3 out3].
    by rewrite app_assoc.
Qed.

Lemma message_handler_fulfilled c data now w :
  Forall (fulfilled_by c) (message_handler JSON_parse c data now w).2.
Proof.
  rewrite message_handler_dispatch.
  destruct (conns w !! c) as [k|]; [|constructor].
  destruct (JSON_parse data) as [message|]; [|constructor].
  assert (Forall (fulfilled_by c) (dispatch c message k now w).2) as Hd.
  { unfold dispatch. destruct (negb _).
    - destruct (is_str _ _); [|constructor].
      destruct (handleAuth _ _ _ _ _) as [err|[[i' w'] es]] eqn:Hauth;
        repeat constructor. by do 6 eexists.
    - destruct (conn_slaveId k); [|constructor].
      destruct (handleSlaveMessage _ _ _ _). constructor. }
  destruct message; first [constructor | exact Hd].
Qed.

Lemma handlers_micro c frames w es rs :
  ∃ rs',
    Forall (fulfilled_by c) rs' ∧
    foldl (λ '(w, es, rs) '(data, now),
             let '(w, e, r) := message_handler JSON_parse c data now w in
             (w, es ++ e, rs ++ r))
          (w, es, rs) frames
    = ((micro_run JSON_parse c (map (λ f, m_frame f.1 f.2) frames) w).1,
       es ++ (micro_run JSON_parse c (map (λ f, m_frame f.1 f.2) frames) w).2,
       rs ++ rs').
Proof.
  revert w es rs. induction frames as [|[data now] frames IH]; intros w es rs.
  - exists []. split; [constructor|]. simpl. by rewrite !app_nil_r.
  - cbn [foldl map micro_run micro_step fst snd].
    pose proof (message_handler_fulfilled c data now w) as Hf.
    destruct (message_handler JSON_parse c data now w) as [[w1 e1] r1].
    destruct (IH w1 (es ++ e1) (rs ++ r1)) as (rs' & Hrs' & ->).
    exists (r1 ++ rs'). split; [by apply Forall_app|]. cbn [fst snd].
    destruct (micro_run JSON_parse c _ w1) as [w2 out2]. cbn [fst snd].
    by rewrite !app_assoc.
Qed.

Lemma thens_micro c rs w :
  Forall (fulfilled_by c) rs →
  ∃ ms, Forall (accepted c) ms ∧
        micro_run JSON_parse c ms w
        = (foldl (λ w r, match r with
                         | auth_fulfilled id => then_reaction c id w
                         | auth_rejected _ => w
                         end) w rs, []).
Proof.
  revert w. induction rs as [|[id|err] rs IH]; intros w Hrs.
  - by exists [].
  - apply Forall_cons in Hrs as [Hid Hrs].
    destruct (IH (then_reaction c id w) Hrs) as (ms & Hacc & Hms).
    exists (m_then id :: ms). split; [by constructor|]. simpl. by rewrite Hms.
  - apply Forall_cons in Hrs as [_ Hrs]. by apply IH.
Qed.

Lemma catches_micro c rs w es :
  ∃ ms, Forall (accepted c) ms ∧
        foldl (λ '(w, es) r, match r with
                             | auth_rejected err =>
                                 let '(w, e) := catch_reaction c err w in (w, es ++ e)
                             | auth_fulfilled _ => (w, es)
                             end) (w, es) rs
        = ((micro_run JSON_parse c ms w).1, es ++ (micro_run JSON_parse c ms w).2).
Proof.
  revert w es. induction rs as [|[id|err] rs IH]; intros w es.
  - exists []. split; [constructor|]. simpl. by rewrite app_nil_r.
  - apply IH.
  - cbn [foldl]. unfold catch_reaction at 1.
    destruct (IH (js_close c w)
                 (es ++ [console ("[TunnelManager] Auth failed: " +:+ err);
                         close c (Some (4002, "Authentication failed"))]))
      as (ms & Hacc & Hms).
    exists (m_catch err :: ms). split; [by constructor|]. etrans; [exact Hms|].
    cbn [micro_run micro_step]. unfold catch_reaction.
    destruct (micro_run JSON_parse c ms (js_close c w)) as [w2 out2]. cbn [fst snd].
    by rewrite <- app_assoc.
Qed.

Lemma settle_micro c rs w :
  Forall (fulfilled_by c) rs →
  ∃ ms, Forall (accepted c) ms ∧ settle c rs w = micro_run JSON_parse c ms w.
Proof.
  intros Hrs. unfold settle.
  destruct (thens_micro c rs w Hrs) as (ms1 & Ha1 & H1).
  destruct (catches_micro c rs
              (foldl (λ w r, match r with
                             | auth_fulfilled id => then_reaction c id w
                             | auth_rejected _ => w
                             end) w rs) []) as (ms2 & Ha2 & H2).
  exists (ms1 ++ ms2). split; [by apply Forall_app|]. rewrite micro_run_app, H1, H2.
  by destruct (micro_run JSON_parse c ms2 _).
Qed.

(** A task of a control connection is a run of small steps. *)
Lemma deliver_micro c frames w :
  ∃ ms, Forall (accepted c) ms ∧
        deliver JSON_parse c frames w = micro_run JSON_parse c ms w.
Proof.
  unfold deliver.
  destruct (handlers_micro c frames w [] []) as (rs & Hrs & ->).
  set (hs := map (λ f, m_frame f.1 f.2) frames).
  assert (Forall (accepted c) hs) as Hhs.
  { unfold hs. apply Forall_fmap, Forall_true. done. }
  destruct (settle_micro c ([] ++ rs) (micro_run JSON_parse c hs w).1 Hrs)
    as (ms & Hacc & Hms).
  exists (hs ++ ms). split; [by apply Forall_app|]. rewrite micro_run_app.
  destruct (micro_run JSON_parse c hs w) as [w1 out1]. cbn [fst snd] in *.
  rewrite Hms. by destruct (micro_run JSON_parse c ms w1).
Qed.

(** What every small step keeps, a task keeps. *)
Lemma micro_run_keeps (I : world → Prop) (Q : effect → Prop) c :
  (∀ m w, accepted c m → I w →
          I (micro_step JSON_parse c m w).1 ∧
          Forall Q (micro_step JSON_parse c m w).2) →
  ∀ ms w, Forall (accepted c) ms → I w →
          I (micro_run JSON_parse c ms w).1 ∧
          Forall Q (micro_run JSON_parse c ms w).2.
Proof.
  intros Hstep ms. induction ms as [|m ms IH]; intros w Hms Hw; simpl; [by split|].
  apply Forall_cons in Hms as [Hm Hms].
  destruct (Hstep m w Hm Hw) as [H1 H2].
  destruct (micro_step JSON_parse c m w) as [w1 out1]. simpl in *.
  destruct (IH w1 Hms H1) as [H3 H4].
  destruct (micro_run JSON_parse c ms w1) as [w2 out2]. simpl in *.
  split; [done | by apply Forall_app].
Qed.

Lemma deliver_keeps (I : world → Prop) (Q : effect → Prop) c :
  (∀ m w, accepted c m → I w →
          I (micro_step JSON_parse c m w).1 ∧
          Forall Q (micro_step JSON_parse c m w).2) →
  ∀ frames w, I w → I (deliver JSON_parse c frames w).1 ∧
                    Forall Q (deliver JSON_parse c frames w).2.
Proof.
  intros Hstep frames w Hw. destruct (deliver_micro c frames w) as (ms & Hms & ->).
  by apply micro_run_keeps.
Qed.

(** A chunk of one frame: the handler, then its microtask. *)
Lemma deliver_one c data now w :
  deliver JSON_parse c [(data, now)] w
  = let '(w1, es, rs) := message_handler JSON_parse c data now w in
    let '(w2, es') := settle c rs w1 in
    (w2, es ++ es').
Proof.
  unfold deliver. cbn [foldl].
  by destruct (message_handler JSON_parse c data now w) as [[w1 e1] r1].
Qed.
End micro_steps.

(** ** The frames of forwarded requests (forwardHttpRequest) *)

Section traced_frames.
Import Master.
Variable JSON_parse : string → option json.

Lemma js_close_draining s w : draining (js_close s w) = draining w.
Proof. unfold js_close. by destruct (ready _ _). Qed.

Lemma no_request_traced events es :
  Forall no_request es → Forall (traced events) es.
Proof.
  intros H. eapply Forall_impl; [exact H|]. intros [| c [] | | | | |]; simpl; done.
Qed.

Lemma traced_mono events more e : traced events e → traced (events ++ more) e.
Proof.
  destruct e as [| c [] | | | | |]; simpl; try done.
  intros (i & rq & Hin & H). exists i, rq. split; [|done].
  apply elem_of_app. by left.
Qed.

Lemma draining_traced_mono events more w :
  draining_traced events w → draining_traced (events ++ more) w.
Proof.
  intros H r c rq Hr. destruct (H r c rq Hr) as [i Hi]. exists i.
  apply elem_of_app. by left.
Qed.

Lemma close_tunnels_no_request i l w es :
  Forall no_request es →
  draining (foldl (close_tunnel_of i) (w, es) l).1 = draining w ∧
  Forall no_request (foldl (close_tunnel_of i) (w, es) l).2.
Proof.
  revert w es. induction l as [|[t tn] l IH]; intros w es Hes; simpl; [done|].
  destruct (decide (str_key (slaveId tn) = i)); [|by apply IH].
  destruct (sock_open w (localWs tn)).
  - destruct (IH (with_tunnels (JsMap.delete t) (js_close (localWs tn) w))
                 (es ++ [close (localWs tn) None])) as [H1 H2].
    { apply Forall_app. split; [done | by repeat constructor]. }
    split; [|done]. rewrite H1. simpl. apply js_close_draining.
  - destruct (IH (with_tunnels (JsMap.delete t) w) (es ++ [])) as [H1 H2].
    { by rewrite app_nil_r. }
    split; [|done]. by rewrite H1.
Qed.

Lemma local_close_fold_no_request regs w es :
  Forall no_request es →
  draining (foldl (λ '(w, es) reg, let '(w, e) := local_close_1 reg w in (w, es ++ e))
                  (w, es) regs).1 = draining w ∧
  Forall no_request
    (foldl (λ '(w, es) reg, let '(w, e) := local_close_1 reg w in (w, es ++ e))
           (w, es) regs).2.
Proof.
  revert w es. induction regs as [|reg regs IH]; intros w es Hes; [done|].
  cbn [foldl]. unfold local_close_1 at 2 4. cbv beta iota.
  destruct (IH (with_tunnels (JsMap.delete reg.2) w)
               (es ++ (if sock_open w reg.1 then [send reg.1 (ws_tunnel_close reg.2)]
                       else []))) as [H1 H2]; [|done].
  apply Forall_app; split; [done|].
  destruct (sock_open w reg.1); by repeat constructor.
Qed.

Lemma local_close_no_request l w :
  draining (local_close l w).1 = draining w ∧
  Forall no_request (local_close l w).2.
Proof. apply local_close_fold_no_request. constructor. Qed.

Lemma local_message_no_request l data w :
  Forall no_request (local_message l data w).2.
Proof.
  unfold local_message. simpl.
  induction (registered l w) as [|reg regs IH]; simpl; [constructor|].
  apply Forall_app; split; [|done].
  unfold local_message_1. destruct (sock_open w reg.1); by repeat constructor.
Qed.

Lemma handleAuth_no_request c message t now w i w' es :
  handleAuth c message t now w = inr (i, w', es) →
  draining w' = draining w ∧ Forall no_request es.
Proof.
  unfold handleAuth, key_of. intros H.
  destruct (_ || _); [done|]. destruct (negb (secret_matches _ _)); [done|].
  split_hyp H; simplify_eq/=; rewrite ?js_close_draining;
    (split; [done | by repeat constructor]).
Qed.

Lemma handleSlaveMessage_no_request i message now w :
  draining (handleSlaveMessage i message now w).1 = draining w ∧
  Forall no_request (handleSlaveMessage i message now w).2.
Proof.
  unfold handleSlaveMessage, handleHttpResponse, handleWsTunnelData,
    handleWsTunnelClosed, handlePing, handleSlaveError.
  split_cases; simplify_eq/=; rewrite ?js_close_draining;
    (split; [done | by repeat constructor]).
Qed.

Lemma micro_step_no_request c m w :
  draining (micro_step JSON_parse c m w).1 = draining w ∧
  Forall no_request (micro_step JSON_parse c m w).2.
Proof.
  destruct m as [data now|id|err]; simpl.
  - rewrite message_handler_dispatch.
    destruct (conns w !! c) as [k|]; [|by split].
    destruct (JSON_parse data) as [message|]; [|by split; repeat constructor].
    assert (draining (dispatch c message k now w).1.1 = draining w ∧
            Forall no_request (dispatch c message k now w).1.2) as Hd.
    { unfold dispatch. destruct (negb _).
      - destruct (is_str _ _); [|by split; [apply js_close_draining | repeat constructor]].
        destruct (handleAuth _ _ _ _ _) as [err|[[i' w'] es]] eqn:Hauth; [by split|].
        by apply handleAuth_no_request in Hauth.
      - destruct (conn_slaveId k) as [i|]; [|by split].
        pose proof (handleSlaveMessage_no_request i message now w) as H.
        by destruct (handleSlaveMessage i message now w). }
    destruct message; first [by split; repeat constructor | exact Hd].
  - unfold then_reaction. by destruct (conns w !! c).
  - split; [apply js_close_draining | by repeat constructor].
Qed.

Lemma deliver_no_request c frames w :
  draining (deliver JSON_parse c frames w).1 = draining w ∧
  Forall no_request (deliver JSON_parse c frames w).2.
Proof.
  apply (deliver_keeps JSON_parse (λ w', draining w' = draining w) no_request c); [|done].
  intros m w0 _ H0. destruct (micro_step_no_request c m w0) as [H1 H2].
  split; [congruence | done].
Qed.

Lemma forward_send_traced seen i c r rq b w :
  draining (forward_send c r rq b w).1 = draining w ∧
  Forall (traced (seen ++ [ev_forwardHttpRequest i rq r])) (forward_send c r rq b w).2.
Proof.
  unfold forward_send. simpl. split; [done|].
  repeat constructor. exists i, rq. split; [|done].
  apply elem_of_app. right. by left.
Qed.

(** A step keeps the calls that read a body among the calls made, and
    writes no [http_request] frame but that of a call made. *)
Lemma step_traced seen e w :
  draining_traced seen w →
  draining_traced (seen ++ [e]) (step JSON_parse e w).1 ∧
  Forall (traced (seen ++ [e])) (step JSON_parse e w).2.
Proof.
  intros Hw.
  assert (Hsame : ∀ w1 out, draining w1 = draining w → Forall no_request out →
                            draining_traced (seen ++ [e]) w1 ∧
                            Forall (traced (seen ++ [e])) out).
  { intros w1 out Hd Hout. split; [|by apply no_request_traced].
    intros r c rq Hr. rewrite Hd in Hr. exact (draining_traced_mono seen _ w Hw _ _ _ Hr). }
  destruct e; simpl.
  - by apply Hsame.
  - unfold handleConnection. simpl. apply Hsame; [done | by repeat constructor].
  - destruct (deliver_no_request c [(data, now)] w). by apply Hsame.
  - destruct (deliver_no_request c frames w). by apply Hsame.
  - unfold close_handler. simpl.
    destruct (conns w !! c) as [k|]; [|by apply Hsame].
    destruct (conn_slaveId k) as [i|]; [|by apply Hsame].
    destruct (_ && _); [|by apply Hsame].
    match goal with
    | |- context [foldl (close_tunnel_of i) (?w0, ?es0) ?l] =>
        destruct (close_tunnels_no_request i l w0 es0) as [H1 H2];
          [by repeat constructor|]
    end.
    apply Hsame; [|done]. by rewrite H1.
  - unfold error_handler. destruct (conns w !! c); apply Hsame; by repeat constructor.
  - destruct (timers w !! t) as [[c|r]|]; [| |by apply Hsame].
    + unfold auth_timeout. simpl. destruct (conns w !! c) as [k|]; [|by apply Hsame].
      destruct (conn_authenticated k); [by apply Hsame|].
      apply Hsame; [|by repeat constructor].
      unfold js_close. simpl. by destruct (ready _ _).
    + unfold request_timeout. apply Hsame; [done | by repeat constructor].
  - unfold forwardHttpRequest.
    destruct (connected_slave i w) as [s|]; [|apply Hsame; by repeat constructor].
    destruct (_ && _).
    + split; [|constructor]. intros r c rq0 Hr. simpl in Hr.
      destruct (decide (r = requestId)) as [->|Hne].
      * rewrite lookup_insert_eq in Hr. simplify_eq. exists i.
        apply elem_of_app. right. by left.
      * rewrite lookup_insert_ne in Hr by done.
        exact (draining_traced_mono seen _ w Hw _ _ _ Hr).
    + destruct (forward_send_traced seen i (ws s) requestId rq None w) as [H1 H2].
      split; [|done]. intros r c rq0 Hr. rewrite H1 in Hr.
      exact (draining_traced_mono seen _ w Hw _ _ _ Hr).
  - unfold body_end. destruct (draining w !! requestId) as [[c rq]|] eqn:Hd;
      [|by apply Hsame].
    destruct (Hw _ _ _ Hd) as [i Hi]. unfold forward_send. simpl. split.
    + intros r c0 rq0 Hr. simpl in Hr.
      destruct (decide (r = requestId)) as [->|Hne].
      * by rewrite lookup_delete_eq in Hr.
      * rewrite lookup_delete_ne in Hr by done.
        exact (draining_traced_mono seen _ w Hw _ _ _ Hr).
    + repeat constructor. exists i, rq. split; [|done]. apply elem_of_app. by left.
  - unfold body_error. destruct (draining w !! requestId) as [[c rq]|] eqn:Hd;
      [|by apply Hsame].
    split; [|by repeat constructor]. intros r c0 rq0 Hr. simpl in Hr.
    destruct (decide (r = requestId)) as [->|Hne].
    + by rewrite lookup_delete_eq in Hr.
    + rewrite lookup_delete_ne in Hr by done.
      exact (draining_traced_mono seen _ w Hw _ _ _ Hr).
  - unfold createWsTunnel. destruct (connected_slave i w);
      apply Hsame; by repeat constructor.
  - apply Hsame; [done | apply local_message_no_request].
  - destruct (local_close_no_request l (with_socks (<[l := CLOSED]>) w)) as [H1 H2].
    by apply Hsame.
Qed.

Lemma run_traced events : ∀ seen w,
  draining_traced seen w →
  Forall (traced (seen ++ events)) (run JSON_parse events w).2.
Proof.
  induction events as [|e events IH]; intros seen w Hw; simpl; [constructor|].
  destruct (step_traced seen e w Hw) as [H1 H2].
  destruct (step JSON_parse e w) as [w1 out1]. simpl in *.
  specialize (IH (seen ++ [e]) w1 H1). rewrite <- app_assoc in IH. simpl in IH.
  destruct (run JSON_parse events w1) as [w2 out2]. simpl in *.
  apply Forall_app. split; [|done].
  eapply Forall_impl; [exact H2|]. intros x Hx.
  replace (seen ++ e :: events) with ((seen ++ [e]) ++ events)
    by (by rewrite <- app_assoc).
  by apply traced_mono.
Qed.

Lemma lower_case_names_check (h : gmap string string) :
  bool_decide (map_Forall (λ k _, toLowerCase k = k) h) = true → lower_case_names h.
Proof.
  intros H%bool_decide_eq_true_1 k [v Hk]. exact (H k v Hk).
Qed.
End traced_frames.

(** C1.  Every [http_request] frame the master writes, from the state in
    which no call is reading a body (as at start), belongs to a call
    [forwardHttpRequest(slaveId, req)] of the run: it carries the id drawn
    in that call, the method and the URL of [req], and for its headers
    [sanitizeHeaders(req.headers)].  The header map of a request is the one
    Node's HTTP parser builds, whatever the letter case on the wire: its
    names are in lower case.  The frame then contains none of connection,
    keep-alive, proxy-authenticate, proxy-authorization, te, trailers,
    transfer-encoding, upgrade and x-target-slave in any spelling, and
    every other header of the request is in it with its value. *)
Theorem http_request_frames_sanitized
    (JSON_parse : string → option json) (events : list Master.event) (w : Master.world)
    (c : sock) (requestId method path : string) (h : gmap string string)
    (body : option string) :
  Master.draining w = ∅ →
  Forall parsed_headers events →
  Master.send c (Master.http_request requestId method path h body)
    ∈ (Master.run JSON_parse events w).2 →
  ∃ i rq, Master.ev_forwardHttpRequest i rq requestId ∈ events ∧
          method = Master.method rq ∧
          path = Master.url rq ∧
          h = Master.sanitizeHeaders (Master.headers rq) ∧
          (∀ name, name ∈ stripped → has_header name h = false) ∧
          (∀ name, name ∈ stripped → h !! name = None) ∧
          (∀ k, k ∉ stripped → h !! k = Master.headers rq !! k).
Proof.
  intros Hd Hparsed Hin.
  assert (Hw : draining_traced [] w).
  { intros r c0 rq Hr. by rewrite Hd in Hr. }
  pose proof (run_traced JSON_parse events [] w Hw) as Hall.
  rewrite Forall_forall in Hall. specialize (Hall _ Hin) as (i & rq & Hev & -> & -> & ->).
  simpl in Hev. exists i, rq. split_and!; try done.
  - intros name Hname. apply sanitizeHeaders_lower_case; [done|].
    rewrite Forall_forall in Hparsed. exact (Hparsed _ Hev).
  - intros name Hname. by apply sanitizeHeaders_stripped.
  - intros k Hk. by apply sanitizeHeaders_kept.
Qed.

Lemma http_request_frames_sanitized_witness :
  let rq := Demo.get "/api/projects"
              {["connection" := "close"; "x-target-slave" := "s1"; "accept" := "text/html"]} in
  let events := [Master.ev_connection 1;
                 Master.ev_message 1 (Demo.auth_text "s1" "k3y") 1000;
                 Master.ev_forwardHttpRequest "s1" rq "r1"] in
  let h : gmap string string := {["accept" := "text/html"]} in
  let frame := Master.send 1 (Master.http_request "r1" "GET" "/api/projects" h None) in
  Master.draining (Master.init Demo.manager) = ∅ ∧
  Forall parsed_headers events ∧
  frame ∈ (Master.run Json.parse events (Master.init Demo.manager)).2 ∧
  ∃ i rq', Master.ev_forwardHttpRequest i rq' "r1" ∈ events ∧
           h = Master.sanitizeHeaders (Master.headers rq') ∧
           has_header "connection" h = false.
Proof.
  intros rq events h frame.
  assert (H1 : Master.draining (Master.init Demo.manager) = ∅) by reflexivity.
  assert (H2 : Forall parsed_headers events).
  { repeat constructor. apply lower_case_names_check. by vm_compute. }
  assert (H3 : frame ∈ (Master.run Json.parse events (Master.init Demo.manager)).2).
  { vm_compute. do 3 right. left. }
  destruct (http_request_frames_sanitized Json.parse events _ _ _ _ _ _ _ H1 H2 H3)
    as (i & rq' & G1 & _ & _ & G4 & G5 & _).
  split; [exact H1|]. split; [exact H2|]. split; [exact H3|].
  exists i, rq'. split; [exact G1|]. split; [exact G4|].
  apply G5. unfold stripped. set_solver.
Defined.
(** ** The close handler of a control connection (tunnel-manager.js, lines 76-92) *)

Section close_handler_facts.
Import Master.

Lemma sock_open_js_close s s' w :
  sock_open (js_close s w) s' = sock_open w s' && bool_decide (s' ≠ s).
Proof.
  unfold js_close, sock_open, is_open, ready.
  destruct (decide (s' = s)) as [->|Hne].
  - rewrite (bool_decide_eq_false_2 (s ≠ s)); [|naive_solver].
    rewrite andb_false_r.
    destruct (socks w !! s) as [[]|] eqn:Hs; simpl; rewrite ?lookup_insert_eq, ?Hs; done.
  - rewrite (bool_decide_eq_true_2 (s' ≠ s)); [|done]. rewrite andb_true_r.
    destruct (socks w !! s) as [[]|]; simpl; rewrite ?lookup_insert_ne; done.
Qed.

Lemma js_close_tm s w : tm (js_close s w) = tm w.
Proof. unfold js_close. by destruct (ready _ _). Qed.

Lemma js_close_conns s w : conns (js_close s w) = conns w.
Proof. unfold js_close. by destruct (ready _ _). Qed.

Lemma js_close_timers s w : timers (js_close s w) = timers w.
Proof. unfold js_close. by destruct (ready _ _). Qed.

(** What the loop over the tunnels does, from any point of the iteration. *)
Lemma close_tunnels_spec i l w es :
  let r := foldl (close_tunnel_of i) (w, es) l in
  slaves (tm r.1) = slaves (tm w) ∧
  pendingRequests (tm r.1) = pendingRequests (tm w) ∧
  conns r.1 = conns w ∧
  timers r.1 = timers w ∧
  tunnels (tm r.1)
    = foldl (λ m k, JsMap.delete k m) (tunnels (tm w)) (owned_tunnels i l) ∧
  (∀ s, sock_open r.1 s
        = sock_open w s && bool_decide (s ∉ map localWs (owned_tunnels_of i l))) ∧
  ∃ closed, r.2 = es ++ map (λ s, close s None) closed ∧
            ∀ s, s ∈ closed ↔ sock_open w s = true ∧ s ∈ map localWs (owned_tunnels_of i l).
Proof.
  revert w es. induction l as [|[t tn] l IH]; intros w es; simpl.
  - split_and!; try done.
    + intros s. by rewrite andb_true_r.
    + exists []. split; [by rewrite app_nil_r | set_solver].
  - unfold owned_tunnels, owned_tunnels_of in *. simpl.
    destruct (decide (str_key (slaveId tn) = i)) as [Hi|Hi].
    + rewrite filter_cons_True; [|done]. simpl.
      destruct (sock_open w (localWs tn)) eqn:Hopen.
      * specialize (IH (with_tunnels (JsMap.delete t) (js_close (localWs tn) w))
                       (es ++ [close (localWs tn) None])).
        simpl in IH. destruct IH as (H1 & H2 & H3 & H4 & H5 & H6 & closed & H7 & H8).
        rewrite js_close_tm in H1, H2, H5.
        rewrite js_close_conns in H3. rewrite js_close_timers in H4.
        split_and!; try done.
        -- intros s. rewrite H6.
           change (sock_open (with_tunnels (JsMap.delete t) (js_close (localWs tn) w)) s)
             with (sock_open (js_close (localWs tn) w) s).
           rewrite sock_open_js_close. rewrite <- andb_assoc. f_equal.
           apply eq_true_iff_eq. rewrite andb_true_iff, !bool_decide_eq_true.
           set_solver.
        -- exists (localWs tn :: closed). split.
           ++ rewrite H7. by rewrite <- app_assoc.
           ++ intros s. rewrite elem_of_cons, H8.
              change (sock_open (with_tunnels (JsMap.delete t) (js_close (localWs tn) w)) s)
                with (sock_open (js_close (localWs tn) w) s).
              rewrite sock_open_js_close, andb_true_iff, bool_decide_eq_true.
              split.
              ** intros [->|[[? ?] ?]]; set_solver.
              ** intros [Hs Hin]. destruct (decide (s = localWs tn)); set_solver.
      * specialize (IH (with_tunnels (JsMap.delete t) w) (es ++ [])).
        simpl in IH. destruct IH as (H1 & H2 & H3 & H4 & H5 & H6 & closed & H7 & H8).
        split_and!; try done.
        -- intros s. rewrite H6.
           change (sock_open (with_tunnels (JsMap.delete t) w) s) with (sock_open w s).
           destruct (decide (s = localWs tn)) as [->|Hne].
           ++ rewrite Hopen. done.
           ++ f_equal. apply bool_decide_ext. set_solver.
        -- exists closed. split; [by rewrite H7, app_nil_r|].
           intros s. rewrite H8.
           change (sock_open (with_tunnels (JsMap.delete t) w) s) with (sock_open w s).
           split; [set_solver|]. intros [Hs Hin]. split; [done|].
           apply elem_of_cons in Hin as [->|Hin]; [congruence | done].
    + rewrite filter_cons_False; [|done]. apply IH.
Qed.
End close_handler_facts.

Section close_handler_theorem.
Import Master.

Lemma close_handler_spec (JSON_parse : string → option json)
    (w : world) (c : sock) (k : connection) (i : slave_key) :
  conns w !! c = Some k → conn_slaveId k = Some i → truthy (Some (key_json i)) = true →
  JsMap.has i (slaves (tm w)) = true →
  let r := step JSON_parse (ev_close c) w in
  let w1 := with_socks (<[c := CLOSED]>) w in
  slaves (tm r.1) = JsMap.delete i (slaves (tm w)) ∧
  pendingRequests (tm r.1) = pendingRequests (tm w) ∧
  conns r.1 = conns w ∧
  timers r.1 = delete (authTimer k) (timers w) ∧
  tunnels (tm r.1)
    = foldl (λ m t, JsMap.delete t m) (tunnels (tm w))
            (owned_tunnels i (tunnels (tm w))) ∧
  (∀ s, sock_open r.1 s
        = sock_open w1 s
          && bool_decide (s ∉ map localWs (owned_tunnels_of i (tunnels (tm w))))) ∧
  ∃ closed,
    r.2 = console ("[TunnelManager] Slave disconnected: " +:+ js_String (key_json i))
          :: map (λ s, close s None) closed ∧
    ∀ s, s ∈ closed ↔
         sock_open w1 s = true ∧ s ∈ map localWs (owned_tunnels_of i (tunnels (tm w))).
Proof.
  intros Hc Hk Hi Hhas. simpl. unfold close_handler. simpl.
  rewrite Hc, Hk. cbn [truthy] in Hi. rewrite Hi, Hhas. simpl.
  pose proof (close_tunnels_spec i (tunnels (tm w))
                (with_slaves (JsMap.delete i)
                   (clearTimeout (authTimer k) (with_socks (<[c := CLOSED]>) w)))
                [console ("[TunnelManager] Slave disconnected: "
                          +:+ js_String (key_json i))]) as Hspec.
  simpl in Hspec. exact Hspec.
Qed.
End close_handler_theorem.

(** ** Eviction of a control connection (handleAuth and the close handler) *)

Section eviction.
Import Master.

(** A successful [handleAuth] leaves the registry pointing at the new
    socket and closes an open predecessor with code 4004. *)
Lemma handleAuth_replaces c message t now w i w' es :
  handleAuth c message t now w = inr (i, w', es) →
  (ws <$> JsMap.get i (slaves (tm w'))) = Some c ∧
  send c (auth_success (key_json i)) ∈ es ∧
  ∀ existing, JsMap.get i (slaves (tm w)) = Some existing →
              sock_open w (ws existing) = true →
              close (ws existing) (Some (4004, "Replaced by new connection")) ∈ es.
Proof.
  unfold handleAuth. intros H.
  destruct (_ || _); [done|]. destruct (negb (secret_matches _ _)); [done|].
  destruct (key_of _ w) as [i0 w0] eqn:Hkey.
  assert (tm w0 = tm w ∧ socks w0 = socks w) as [Htm Hsocks].
  { unfold key_of in Hkey. by destruct (default JNull _); simplify_eq/=. }
  unfold sock_open in *. rewrite Htm, Hsocks in H.
  destruct (JsMap.get i0 _) as [existing|] eqn:Hex;
    [destruct (is_open _ _) eqn:Hopen|]; simplify_eq/=;
    rewrite ?js_close_tm, ?Htm, JsMap_get_set_eq; (split; [done|]).
  - split; [do 3 right; left|].
    intros ex Hex' _. rewrite Hex in Hex'. injection Hex' as <-. right. left.
  - split; [right; left|].
    intros ex Hex' ?. rewrite Hex in Hex'. injection Hex' as <-. congruence.
  - split; [right; left|]. intros ex Hex'. by rewrite Hex in Hex'.
Qed.
End eviction.

Section registry.
Import Master.
Variable JSON_parse : string → option json.

Lemma registry_change_NoDup m m' :
  registry_change m m' → NoDup (JsMap.keys m) → NoDup (JsMap.keys m').
Proof.
  intros [->|[(k & v & ->)|(k & ->)]] Hnd;
    [done | by apply JsMap_NoDup_set | by apply JsMap_NoDup_delete].
Qed.

Lemma key_of_tm v w : tm (key_of v w).2 = tm w.
Proof. unfold key_of. by destruct v. Qed.

Lemma key_of_socks v w : socks (key_of v w).2 = socks w.
Proof. unfold key_of. by destruct v. Qed.

Lemma key_of_json v w : key_json (key_of v w).1 = v.
Proof. unfold key_of. by destruct v. Qed.

Lemma handleAuth_registry c message t now w i w' es :
  handleAuth c message t now w = inr (i, w', es) →
  ∃ v, slaves (tm w') = JsMap.set i v (slaves (tm w)).
Proof.
  unfold handleAuth. intros H.
  destruct (_ || _); [done|]. destruct (negb (secret_matches _ _)); [done|].
  pose proof (key_of_tm (default JNull (prop "slaveId" message)) w) as Htm.
  destruct (key_of _ w) as [i0 w0]. simpl in Htm.
  destruct (JsMap.get i0 _) as [existing|]; [destruct (sock_open _ _)|];
    simplify_eq/=; rewrite ?js_close_tm, Htm; by eexists.
Qed.

Lemma handleSlaveMessage_registry i message now w :
  registry_change (slaves (tm w)) (slaves (tm (handleSlaveMessage i message now w).1)).
Proof.
  unfold handleSlaveMessage, handleHttpResponse, handleWsTunnelData,
    handleWsTunnelClosed, handlePing, handleSlaveError.
  split_cases; simpl; rewrite ?js_close_tm;
    first [by left | right; left; by do 2 eexists].
Qed.

Lemma dispatch_registry c message k now w :
  registry_change (slaves (tm w)) (slaves (tm (dispatch c message k now w).1.1)).
Proof.
  unfold dispatch. destruct (negb _).
  - destruct (is_str _ _); [|left; simpl; by rewrite js_close_tm].
    destruct (handleAuth _ _ _ _ _) as [err|[[i' w'] es]] eqn:Hauth; [by left|].
    apply handleAuth_registry in Hauth as [v Hv]. right. left. by exists i', v.
  - destruct (conn_slaveId k) as [i|]; [|by left].
    pose proof (handleSlaveMessage_registry i message now w) as H.
    by destruct (handleSlaveMessage i message now w).
Qed.

Lemma micro_step_registry c m w :
  registry_change (slaves (tm w)) (slaves (tm (micro_step JSON_parse c m w).1)).
Proof.
  destruct m as [data now|id|err]; simpl.
  - rewrite message_handler_dispatch.
    destruct (conns w !! c) as [k|]; [|by left].
    destruct (JSON_parse data) as [message|]; [|by left].
    destruct message; first [by left | apply dispatch_registry].
  - left. unfold then_reaction. by destruct (conns w !! c).
  - left. by rewrite js_close_tm.
Qed.

Lemma local_close_tm_slaves l w : slaves (tm (local_close l w).1) = slaves (tm w).
Proof.
  unfold local_close. generalize (@nil effect). generalize (registered l w).
  intros regs. revert w. induction regs as [|reg regs IH]; intros w es; simpl; [done|].
  by rewrite IH.
Qed.

(** A step other than the arrival of frames changes the registry at most
    once. *)
Lemma step_registry e w :
  (∀ c frames, e ≠ ev_messages c frames) → (∀ c data now, e ≠ ev_message c data now) →
  registry_change (slaves (tm w)) (slaves (tm (step JSON_parse e w).1)).
Proof.
  intros Hm1 Hm2. destruct e; simpl; try by left.
  - by destruct (Hm2 c data now).
  - by destruct (Hm1 c frames).
  - unfold close_handler. simpl.
    destruct (conns w !! c) as [k|]; [|by left].
    destruct (conn_slaveId k) as [i|]; [|by left].
    destruct (_ && _); [|by left].
    destruct (close_tunnels_spec i (tunnels (tm w))
                (with_slaves (JsMap.delete i)
                   (clearTimeout (authTimer k) (with_socks (<[c := CLOSED]>) w)))
                [console ("[TunnelManager] Slave disconnected: "
                          +:+ js_String (key_json i))]) as [Hs _].
    simpl in Hs. right. right. exists i. exact Hs.
  - unfold error_handler. left. by split_cases.
  - left. unfold auth_timeout, request_timeout. split_cases; simpl;
      by rewrite ?js_close_tm.
  - left. unfold forwardHttpRequest, forward_send. by split_cases.
  - left. unfold body_end, forward_send. by split_cases.
  - left. unfold body_error. by split_cases.
  - left. unfold createWsTunnel. by split_cases.
  - left. apply (local_close_tm_slaves l (with_socks (<[l := CLOSED]>) w)).
Qed.

Lemma deliver_registry_NoDup c frames w :
  NoDup (JsMap.keys (slaves (tm w))) →
  NoDup (JsMap.keys (slaves (tm (deliver JSON_parse c frames w).1))).
Proof.
  intros Hnd.
  apply (deliver_keeps JSON_parse (λ w, NoDup (JsMap.keys (slaves (tm w))))
                       (λ _, True) c); [|done].
  intros m w0 _ H0. split; [|by apply Forall_true].
  by apply (registry_change_NoDup _ _ (micro_step_registry c m w0)).
Qed.

Lemma step_registry_NoDup e w :
  NoDup (JsMap.keys (slaves (tm w))) →
  NoDup (JsMap.keys (slaves (tm (step JSON_parse e w).1))).
Proof.
  intros Hnd.
  assert (Hd : ∀ c frames, NoDup (JsMap.keys (slaves (tm (deliver JSON_parse c frames w).1))))
    by (intros; by apply deliver_registry_NoDup).
  destruct e;
    first [ apply Hd
          | apply (registry_change_NoDup (slaves (tm w)));
            [apply step_registry; intros; discriminate | done] ].
Qed.

(** At most one record per slave id, at any instant. *)
Lemma run_registry_NoDup events w :
  NoDup (JsMap.keys (slaves (tm w))) →
  NoDup (JsMap.keys (slaves (tm (run JSON_parse events w).1))).
Proof.
  revert w. induction events as [|e events IH]; intros w Hnd; simpl; [done|].
  pose proof (step_registry_NoDup e w Hnd) as H1.
  destruct (step JSON_parse e w) as [w1 out1].
  specialize (IH w1 H1). by destruct (run JSON_parse events w1).
Qed.
End registry.

(** C3.  What holds: in every run of a freshly constructed manager the
    registry has at most one record per slave id.  What fails, at the
    failing input: slave s1 is connected on socket 1; a second connection,
    socket 2, authenticates as s1 with the right secret.  The registry then
    holds one record for s1, on socket 2, and socket 1 has been closed with
    code 4004.  When the ['close'] event of socket 1 then arrives, its
    handler finds a record under s1 and deletes it: the registry has no
    entry for s1 any more although socket 2 is open and its connection
    authenticated, and the master reports s1 as not connected. *)
Theorem evicted_close_unregisters_successor
    (JSON_parse : string → option json) (opt_secret env_secret : option string)
    (opt_authTimeout opt_requestTimeout : option Z) (events : list Master.event) :
  let m := Master.new_TunnelManager opt_secret env_secret opt_authTimeout opt_requestTimeout in
  let w2 := Demo3.replaced.1 in
  let w3 := (Master.step Json.parse (Master.ev_close 1) w2).1 in
  NoDup (JsMap.keys (Master.slaves (Master.tm (Master.run JSON_parse events (Master.init m)).1))) ∧
  Master.close 1 (Some (4004, "Replaced by new connection")) ∈ Demo3.replaced.2 ∧
  JsMap.keys (Master.slaves (Master.tm w2)) = [Master.str_key "s1"] ∧
  (Master.ws <$> JsMap.get (Master.str_key "s1") (Master.slaves (Master.tm w2))) = Some 2%nat ∧
  Master.isSlaveConnected "s1" w2 = true ∧
  JsMap.get (Master.str_key "s1") (Master.slaves (Master.tm w3)) = None ∧
  Master.sock_open w3 2 = true ∧
  (Master.conn_authenticated <$> Master.conns w3 !! 2%nat) = Some true ∧
  Master.isSlaveConnected "s1" w3 = false.
Proof.
  split_and!; try by vm_compute.
  - apply run_registry_NoDup. simpl. apply NoDup_nil_2.
  - assert (Demo3.replaced.2
            = [Master.console "[TunnelManager] New connection attempt";
               Master.console "[TunnelManager] Replacing existing connection for slave: s1";
               Master.close 1 (Some (4004, "Replaced by new connection"));
               Master.console "[TunnelManager] Slave authenticated: s1 (Slave one)";
               Master.send 2 (Master.auth_success (JStr "s1"))]) as -> by (by vm_compute).
    set_solver.
Qed.

(** ** Tunnels and registry stay consistent *)

Section tunnel_invariant.
Import Master.

Lemma gentle_refl w : gentle w w.
Proof. split; [done|]. left. by exists []. Qed.

Lemma gentle_invariant w w1 :
  gentle w w1 →
  tunnels_owned w ∧ NoDup (JsMap.keys (tunnels (tm w))) →
  tunnels_owned w1 ∧ NoDup (JsMap.keys (tunnels (tm w1))).
Proof.
  unfold tunnels_owned.
  intros [Hs [[ks Ht]|(t & tn & Ht & Hhas)]] [Ho Hnd]; rewrite Ht; split.
  - intros t' tn' [Hin _]%elem_of_deletes. apply Hs, (Ho t' tn' Hin).
  - by apply NoDup_deletes.
  - intros t' tn' [[= -> ->]|Hin]%elem_of_JsMap_set; apply Hs; [done|].
    apply (Ho t' tn' Hin).
  - by apply JsMap_NoDup_set.
Qed.

Lemma evicting_invariant i w w1 :
  evicting i w w1 →
  tunnels_owned w ∧ NoDup (JsMap.keys (tunnels (tm w))) →
  tunnels_owned w1 ∧ NoDup (JsMap.keys (tunnels (tm w1))).
Proof.
  unfold tunnels_owned.
  intros [Hs Ht] [Ho Hnd]. rewrite Ht. split; [|by apply NoDup_deletes].
  intros t tn [Hin Hnot]%elem_of_deletes. rewrite Hs.
  assert (str_key (slaveId tn) ≠ i) as Hne.
  { intros Hi. apply Hnot. unfold owned_tunnels. apply list_elem_of_fmap.
    exists (t, tn). split; [done|]. by apply list_elem_of_filter. }
  pose proof (Ho t tn Hin) as Hhas. unfold JsMap.has in *.
  by rewrite JsMap_get_delete_ne.
Qed.
End tunnel_invariant.

Section tunnel_steps.
Import Master.
Variable JSON_parse : string → option json.

Local Ltac gentle_tac :=
  split;
  [ intros ?; simpl; rewrite ?js_close_tm; simpl;
    first [done | apply JsMap_has_set_mono]
  | left;
    first [ by (exists []; simpl; rewrite ?js_close_tm)
          | eexists [_]; simpl; rewrite ?js_close_tm; reflexivity ] ].

Lemma handleSlaveMessage_gentle i message now w :
  gentle w (handleSlaveMessage i message now w).1.
Proof.
  unfold handleSlaveMessage, handleHttpResponse, handleWsTunnelData,
    handleWsTunnelClosed, handlePing, handleSlaveError.
  split_cases; gentle_tac.
Qed.

Lemma handleAuth_gentle c message t now w i w' es :
  handleAuth c message t now w = inr (i, w', es) → gentle w w'.
Proof.
  unfold handleAuth. intros H.
  destruct (_ || _); [done|]. destruct (negb (secret_matches _ _)); [done|].
  pose proof (key_of_tm (default JNull (prop "slaveId" message)) w) as Htm.
  destruct (key_of _ w) as [i0 w0]. simpl in Htm.
  destruct (JsMap.get i0 _) as [existing|]; [destruct (sock_open _ _)|];
    simplify_eq/=;
    (split; [intros ?; simpl; rewrite ?js_close_tm, Htm; apply JsMap_has_set_mono
            | left; exists []; simpl; by rewrite ?js_close_tm, Htm]).
Qed.

Lemma dispatch_gentle c message k now w : gentle w (dispatch c message k now w).1.1.
Proof.
  unfold dispatch.
  destruct (negb (conn_authenticated k)).
  - destruct (is_str _ "auth"); [|gentle_tac].
    destruct (handleAuth c message (authTimer k) now w) as [err|[[i w'] es]] eqn:H;
      [apply gentle_refl|].
    by apply handleAuth_gentle in H.
  - destruct (conn_slaveId k) as [i|]; [|apply gentle_refl].
    pose proof (handleSlaveMessage_gentle i message now w) as H.
    by destruct (handleSlaveMessage i message now w).
Qed.

Lemma micro_step_gentle c m w : gentle w (micro_step JSON_parse c m w).1.
Proof.
  destruct m as [data now|id|err]; simpl.
  - rewrite message_handler_dispatch.
    destruct (conns w !! c) as [k|]; [|apply gentle_refl].
    destruct (JSON_parse data) as [message|]; [|apply gentle_refl].
    destruct message; first [apply gentle_refl | apply dispatch_gentle].
  - unfold then_reaction. destruct (conns w !! c); [gentle_tac | apply gentle_refl].
  - gentle_tac.
Qed.

Lemma local_close_gentle l w : gentle w (local_close l w).1.
Proof.
  split; [intros k; by rewrite local_close_tm_slaves|]. left.
  unfold local_close. exists (registered l w).*2.
  generalize (@nil effect). generalize (registered l w).
  intros regs. revert w. induction regs as [|reg regs IH]; intros w es; simpl; [done|].
  by rewrite IH.
Qed.

Lemma step_tunnels e w :
  (∀ c frames, e ≠ ev_messages c frames) → (∀ c data now, e ≠ ev_message c data now) →
  gentle w (step JSON_parse e w).1 ∨ ∃ i, evicting i w (step JSON_parse e w).1.
Proof.
  intros Hm1 Hm2. destruct e; simpl.
  - left. gentle_tac.
  - left. gentle_tac.
  - by destruct (Hm2 c data now).
  - by destruct (Hm1 c frames).
  - unfold close_handler. simpl.
    destruct (conns w !! c) as [k|]; [|left; gentle_tac].
    destruct (conn_slaveId k) as [i|]; [|left; gentle_tac].
    destruct (_ && _); [|left; gentle_tac].
    destruct (close_tunnels_spec i (tunnels (tm w))
                (with_slaves (JsMap.delete i)
                   (clearTimeout (authTimer k) (with_socks (<[c := CLOSED]>) w)))
                [console ("[TunnelManager] Slave disconnected: "
                          +:+ js_String (key_json i))])
      as (Hs & _ & _ & _ & Ht & _).
    simpl in Hs, Ht. right. exists i. by split.
  - left. unfold error_handler. split_cases; gentle_tac.
  - left. unfold auth_timeout, request_timeout. split_cases; gentle_tac.
  - left. unfold forwardHttpRequest, forward_send. split_cases; gentle_tac.
  - left. unfold body_end, forward_send. split_cases; gentle_tac.
  - left. unfold body_error. split_cases; gentle_tac.
  - left. unfold createWsTunnel.
    destruct (connected_slave i w) as [s|] eqn:Hs; [|apply gentle_refl].
    split; [done|]. right. simpl. do 2 eexists. split; [done|]. simpl.
    unfold connected_slave in Hs. unfold JsMap.has.
    by destruct (JsMap.get (str_key i) _).
  - left. apply gentle_refl.
  - left. destruct (local_close_gentle l (with_socks (<[l := CLOSED]>) w)) as [H1 H2].
    split; [exact H1 | exact H2].
Qed.

Lemma step_tunnels_kept e w :
  tunnels_owned w ∧ NoDup (JsMap.keys (tunnels (tm w))) →
  tunnels_owned (step JSON_parse e w).1 ∧
  NoDup (JsMap.keys (tunnels (tm (step JSON_parse e w).1))).
Proof.
  intros H.
  assert (Hd : ∀ c frames,
             tunnels_owned (deliver JSON_parse c frames w).1 ∧
             NoDup (JsMap.keys (tunnels (tm (deliver JSON_parse c frames w).1)))).
  { intros c frames.
    apply (deliver_keeps JSON_parse
             (λ w, tunnels_owned w ∧ NoDup (JsMap.keys (tunnels (tm w))))
             (λ _, True) c); [|done].
    intros m w0 _ H0. split; [|by apply Forall_true].
    apply (gentle_invariant w0); [apply micro_step_gentle | done]. }
  destruct e; first [ apply Hd | idtac ];
    match goal with
    | |- context [step JSON_parse ?e ?w'] =>
        destruct (step_tunnels e w') as [Hg|[i0 He]]; [intros; discriminate..| |];
          [by apply (gentle_invariant w') | by apply (evicting_invariant i0 w')]
    end.
Qed.

Lemma run_tunnels es w :
  tunnels_owned w ∧ NoDup (JsMap.keys (tunnels (tm w))) →
  tunnels_owned (run JSON_parse es w).1 ∧
  NoDup (JsMap.keys (tunnels (tm (run JSON_parse es w).1))).
Proof.
  revert w. induction es as [|e es IH]; intros w H; [done|].
  cbn [run]. pose proof (step_tunnels_kept e w H) as H1.
  destruct (step JSON_parse e w) as [w1 out1].
  specialize (IH w1 H1).
  by destruct (run JSON_parse es w1) as [w2 out2].
Qed.

(** *** The slave id of a connection *)

Lemma handleAuth_truthy c message t now w i w' es :
  handleAuth c message t now w = inr (i, w', es) →
  truthy (Some (key_json i)) = true.
Proof.
  unfold handleAuth. intros H.
  destruct (negb (truthy (prop "slaveId" message))) eqn:Ht; [done|].
  apply negb_false_iff in Ht. simpl in H.
  destruct (negb (truthy (prop "secret" message))); [done|]. simpl in H.
  destruct (negb (secret_matches _ _)); [done|].
  pose proof (key_of_json (default JNull (prop "slaveId" message)) w) as Hj.
  destruct (key_of _ w) as [i0 w0]. simpl in Hj.
  assert (i = i0) as ->.
  { destruct (JsMap.get i0 _) as [existing|]; [destruct (sock_open _ _)|];
      by simplify_eq/=. }
  rewrite Hj. by destruct (prop "slaveId" message).
Qed.

Lemma handleAuth_conns c message t now w i w' es :
  handleAuth c message t now w = inr (i, w', es) → conns w' = conns w.
Proof.
  unfold handleAuth, key_of. intros H.
  destruct (_ || _); [done|]. destruct (negb (secret_matches _ _)); [done|].
  split_hyp H; simplify_eq/=; by rewrite ?js_close_conns.
Qed.

Lemma handleSlaveMessage_conns i message now w :
  conns (handleSlaveMessage i message now w).1 = conns w.
Proof.
  unfold handleSlaveMessage, handleHttpResponse, handleWsTunnelData,
    handleWsTunnelClosed, handlePing, handleSlaveError.
  split_cases; simplify_eq/=; by rewrite ?js_close_conns.
Qed.

Lemma message_handler_conns c data now w :
  conns (message_handler JSON_parse c data now w).1.1 = conns w.
Proof.
  rewrite message_handler_dispatch.
  destruct (conns w !! c) as [k|]; [|done].
  destruct (JSON_parse data) as [message|]; [|done].
  assert (conns (dispatch c message k now w).1.1 = conns w) as Hd.
  { unfold dispatch. destruct (negb _).
    - destruct (is_str _ _); [|apply js_close_conns].
      destruct (handleAuth _ _ _ _ _) as [err|[[i' w'] es]] eqn:Hauth; [done|].
      by apply handleAuth_conns in Hauth.
    - destruct (conn_slaveId k) as [i|]; [|done].
      pose proof (handleSlaveMessage_conns i message now w) as H.
      by destruct (handleSlaveMessage i message now w). }
  destruct message; first [done | exact Hd].
Qed.

Lemma local_close_conns l w : conns (local_close l w).1 = conns w.
Proof.
  unfold local_close. generalize (@nil effect). generalize (registered l w).
  intros regs. revert w. induction regs as [|reg regs IH]; intros w es; simpl; [done|].
  by rewrite IH.
Qed.

Lemma micro_step_ids c m w :
  accepted c m → conn_ids_truthy w → conn_ids_truthy (micro_step JSON_parse c m w).1.
Proof.
  intros Hm Hw. destruct m as [data now|id|err]; simpl.
  - intros c0 k i. rewrite message_handler_conns. apply Hw.
  - unfold then_reaction. destruct (conns w !! c) as [k0|]; [|done].
    intros c0 k i. simpl. destruct (decide (c0 = c)) as [->|Hne].
    + rewrite lookup_insert_eq. intros [= <-] [= <-].
      destruct Hm as (message & t & now & w0 & w' & es & Hauth).
      by apply handleAuth_truthy in Hauth.
    + rewrite lookup_insert_ne by done. apply Hw.
  - intros c0 k i. rewrite js_close_conns. apply Hw.
Qed.

Lemma step_ids e w : conn_ids_truthy w → conn_ids_truthy (step JSON_parse e w).1.
Proof.
  intros Hw.
  assert (Hd : ∀ c frames, conn_ids_truthy (deliver JSON_parse c frames w).1).
  { intros c frames.
    apply (deliver_keeps JSON_parse conn_ids_truthy (λ _, True) c); [|done].
    intros m w0 Hm H0. split; [by apply micro_step_ids | by apply Forall_true]. }
  assert (Hsame : ∀ w1, conns w1 = conns w → conn_ids_truthy w1).
  { intros w1 Hc c0 k i. rewrite Hc. apply Hw. }
  destruct e; simpl; try apply Hd; try (by apply Hsame).
  - unfold handleConnection. simpl. intros c0 k i. simpl.
    destruct (decide (c0 = c)) as [->|Hne].
    + rewrite lookup_insert_eq. by intros [= <-].
    + rewrite lookup_insert_ne by done. apply Hw.
  - unfold close_handler. simpl.
    destruct (conns w !! c) as [k|]; [|by apply Hsame].
    destruct (conn_slaveId k) as [i|]; [|by apply Hsame].
    destruct (_ && _); [|by apply Hsame].
    match goal with
    | |- context [foldl (close_tunnel_of i) (?w0, ?es0) ?l] =>
        destruct (close_tunnels_spec i l w0 es0) as (_ & _ & Hc & _)
    end.
    by apply Hsame.
  - unfold error_handler. destruct (conns w !! c); by apply Hsame.
  - destruct (timers w !! t) as [[c|r]|]; [| |by apply Hsame].
    + unfold auth_timeout. simpl. destruct (conns w !! c) as [k|]; [|by apply Hsame].
      destruct (conn_authenticated k); [by apply Hsame|].
      apply Hsame. unfold js_close. simpl. by destruct (ready _ _).
    + by apply Hsame.
  - unfold forwardHttpRequest, forward_send. apply Hsame. by split_cases.
  - unfold body_end, forward_send. apply Hsame. by split_cases.
  - unfold body_error. apply Hsame. by split_cases.
  - unfold createWsTunnel. apply Hsame. by split_cases.
  - apply Hsame. apply (local_close_conns l (with_socks (<[l := CLOSED]>) w)).
Qed.

Lemma run_ids es w : conn_ids_truthy w → conn_ids_truthy (run JSON_parse es w).1.
Proof.
  revert w. induction es as [|e es IH]; intros w H; [done|].
  cbn [run]. pose proof (step_ids e w H) as H1.
  destruct (step JSON_parse e w) as [w1 out1].
  specialize (IH w1 H1).
  by destruct (run JSON_parse es w1) as [w2 out2].
Qed.
End tunnel_steps.

(** ** The timers of the master *)

Section master_timers.
Import Master.
Variable JSON_parse : string → option json.

Lemma shape_sound w w1 : timers_sound w → timer_shape w w1 → timers_sound w1.
Proof.
  intros (HA & HB & HC & HE) [Hp Ht Hc Hn | t Hside Hp Ht Hc Hn | t r Hside Hp Ht Hc Hn
                             | c Hp Ht Hc Hn | r Hp Ht Hc Hn | c k id Hk Hp Ht Hc Hn];
    unfold timers_sound; rewrite Hp, Ht, Hc, Hn.
  - done.
  - split_and!.
    + intros r p Hr. rewrite lookup_delete_ne; [by apply HA|].
      intros ->. apply (Hside r). by apply HA.
    + intros c k r Hk [_ H]%lookup_delete_Some. by apply (HB c k r).
    + done.
    + intros t' [cb [_ H]%lookup_delete_Some]. apply HE. by eexists.
  - split_and!.
    + intros r' p [Hne Hr']%lookup_delete_Some. rewrite lookup_delete_ne; [by apply HA|].
      intros ->. apply HA in Hr'. rewrite Hside in Hr'. by simplify_eq.
    + intros c k r' Hk [_ H]%lookup_delete_Some. by apply (HB c k r').
    + done.
    + intros t' [cb [_ H]%lookup_delete_Some]. apply HE. by eexists.
  - split_and!.
    + intros r p Hr. rewrite lookup_insert_ne; [by apply HA|].
      intros E. apply HA in Hr. assert (timeout p < next_timer w)%nat; [|lia].
      apply HE. by eexists.
    + intros c' k r [[<- <-]|[Hne Hk]]%lookup_insert_Some; simpl.
      * by rewrite lookup_insert_eq.
      * rewrite lookup_insert_ne; [by apply (HB c' k r)|].
        intros E. pose proof (HC c' k Hk). lia.
    + intros c' k [[<- <-]|[Hne Hk]]%lookup_insert_Some; simpl; [lia|].
      pose proof (HC c' k Hk). lia.
    + intros t' [<-|[Hne H]]%lookup_insert_is_Some; [lia|].
      pose proof (HE t' H). lia.
  - split_and!.
    + intros r' p [[<- <-]|[Hne Hr']]%lookup_insert_Some; simpl.
      * by rewrite lookup_insert_eq.
      * rewrite lookup_insert_ne; [by apply HA|].
        intros E. apply HA in Hr'. assert (timeout p < next_timer w)%nat; [|lia].
        apply HE. by eexists.
    + intros c k r' Hk. rewrite lookup_insert_ne; [by apply (HB c k r')|].
      intros E. pose proof (HC c k Hk). lia.
    + intros c k Hk. pose proof (HC c k Hk). lia.
    + intros t' [<-|[Hne H]]%lookup_insert_is_Some; [lia|].
      pose proof (HE t' H). lia.
  - split_and!.
    + done.
    + intros c' k' r [[<- <-]|[Hne Hk']]%lookup_insert_Some; simpl;
        [by apply (HB c k r) | by apply (HB c' k' r)].
    + intros c' k' [[<- <-]|[Hne Hk']]%lookup_insert_Some; simpl;
        [by apply (HC c k) | by apply (HC c' k')].
    + done.
Qed.

Ltac same_shape :=
  apply shape_same; simpl;
  rewrite ?js_close_tm, ?js_close_timers, ?js_close_conns; try done;
  unfold js_close; by destruct (ready _ _).

Lemma js_close_next_timer s w : next_timer (js_close s w) = next_timer w.
Proof. unfold js_close. by destruct (ready _ _). Qed.

Lemma handleAuth_shape c message k now w i w' es :
  timers_sound w → conns w !! c = Some k →
  handleAuth c message (authTimer k) now w = inr (i, w', es) → timer_shape w w'.
Proof.
  intros (HA & HB & HC & HE) Hk. unfold handleAuth, key_of. intros H.
  destruct (_ || _); [done|]. destruct (negb (secret_matches _ _)); [done|].
  split_hyp H; simplify_eq/=;
    (apply (shape_clear _ _ (authTimer k)); simpl;
     rewrite ?js_close_tm, ?js_close_timers, ?js_close_conns, ?js_close_next_timer;
     [intros r; by apply (HB c k r) | done..]).
Qed.

Lemma completed_shape r p w :
  timers_sound w → pendingRequests (tm w) !! r = Some p →
  timer_shape w (with_pending (delete r) (clearTimeout (timeout p) w)).
Proof.
  intros (HA & _) Hp. apply (shape_done _ _ (timeout p) r); [by apply HA | done..].
Qed.

Lemma handleSlaveMessage_shape i message now w :
  timers_sound w → timer_shape w (handleSlaveMessage i message now w).1.
Proof.
  intros Hw. unfold handleSlaveMessage.
  destruct (is_str _ "response").
  { unfold handleHttpResponse.
    destruct (as_id (prop "requestId" message)) as [r|]; simpl; [|same_shape].
    destruct (pendingRequests (tm w) !! r) as [p|] eqn:Hp; simpl; [|same_shape].
    destruct (truthy _); simpl; by apply completed_shape. }
  destruct (is_str _ "ws_data").
  { unfold handleWsTunnelData. split_cases; same_shape. }
  destruct (is_str _ "ws_tunnel_closed").
  { unfold handleWsTunnelClosed. split_cases; same_shape. }
  destruct (is_str _ "ping").
  { unfold handlePing. split_cases; same_shape. }
  destruct (is_str _ "error"); [|same_shape].
  unfold handleSlaveError.
  destruct (truthy (prop "requestId" message)); [|same_shape].
  destruct (as_id (prop "requestId" message)) as [r|]; simpl; [|same_shape].
  destruct (pendingRequests (tm w) !! r) as [p|] eqn:Hp; simpl; [|same_shape].
  by apply completed_shape.
Qed.

Lemma micro_step_shape c m w :
  timers_sound w → timer_shape w (micro_step JSON_parse c m w).1.
Proof.
  intros Hw. destruct m as [data now|id|err]; simpl.
  - rewrite message_handler_dispatch.
    destruct (conns w !! c) as [k|] eqn:Hk; [|same_shape].
    destruct (JSON_parse data) as [message|]; [|same_shape].
    assert (timer_shape w (dispatch c message k now w).1.1) as Hd.
    { unfold dispatch. destruct (negb _).
      - destruct (is_str _ _); [|same_shape].
        destruct (handleAuth _ _ _ _ _) as [err|[[i' w'] es]] eqn:Hauth; [same_shape|].
        by apply (handleAuth_shape c message k now w i' w' es).
      - destruct (conn_slaveId k) as [i|]; [|same_shape].
        pose proof (handleSlaveMessage_shape i message now w Hw) as H.
        by destruct (handleSlaveMessage i message now w). }
    destruct message; first [same_shape | exact Hd].
  - unfold then_reaction. destruct (conns w !! c) as [k|] eqn:Hk; [|same_shape].
    by apply (shape_then _ _ c k id).
  - same_shape.
Qed.

Lemma local_close_fields l w :
  pendingRequests (tm (local_close l w).1) = pendingRequests (tm w) ∧
  timers (local_close l w).1 = timers w ∧
  next_timer (local_close l w).1 = next_timer w.
Proof.
  unfold local_close. generalize (@nil effect). generalize (registered l w).
  intros regs. revert w. induction regs as [|reg regs IH]; intros w es; simpl; [done|].
  apply (IH (with_tunnels (JsMap.delete reg.2) w)).
Qed.

Lemma close_tunnels_next_timer i l w es :
  next_timer (foldl (close_tunnel_of i) (w, es) l).1 = next_timer w.
Proof.
  revert w es. induction l as [|[t tn] l IH]; intros w es; simpl; [done|].
  destruct (decide _); [|apply IH].
  destruct (sock_open w (localWs tn)); rewrite IH; simpl;
    by rewrite ?js_close_next_timer.
Qed.

Lemma step_sound e w : timers_sound w → timers_sound (step JSON_parse e w).1.
Proof.
  intros Hw.
  assert (Hd : ∀ c frames, timers_sound (deliver JSON_parse c frames w).1).
  { intros c frames.
    apply (deliver_keeps JSON_parse timers_sound (λ _, True) c); [|done].
    intros m w0 _ H0. split; [|by apply Forall_true].
    by apply (shape_sound w0), micro_step_shape. }
  destruct e; simpl; try apply Hd; apply (shape_sound w); try done.
  - same_shape.
  - by apply (shape_connection _ _ c).
  - unfold close_handler. simpl.
    destruct (conns w !! c) as [k|] eqn:Hk; [|same_shape].
    assert (Hside : ∀ r, timers w !! authTimer k ≠ Some (request_deadline r)).
    { intros r. destruct Hw as (_ & HB & _). by apply (HB c k r). }
    destruct (conn_slaveId k) as [i|]; [|by apply (shape_clear _ _ (authTimer k))].
    destruct (_ && _); [|by apply (shape_clear _ _ (authTimer k))].
    match goal with
    | |- context [foldl (close_tunnel_of i) (?w0, ?es0) ?l] =>
        destruct (close_tunnels_spec i l w0 es0) as (_ & Hp & Hc & Ht & _);
        pose proof (close_tunnels_next_timer i l w0 es0) as Hn
    end.
    by apply (shape_clear _ _ (authTimer k)).
  - unfold error_handler. destruct (conns w !! c); same_shape.
  - destruct (timers w !! t) as [[c|r]|] eqn:Ht; [| |same_shape].
    + apply (shape_clear _ _ t); [intros r; by rewrite Ht|..];
        unfold auth_timeout; simpl;
        destruct (conns w !! c) as [k|]; try done;
        destruct (conn_authenticated k); try done; simpl;
        rewrite ?js_close_tm, ?js_close_timers, ?js_close_conns, ?js_close_next_timer;
        done.
    + by apply (shape_done _ _ t r).
  - unfold forwardHttpRequest.
    destruct (connected_slave i w) as [s|]; [|same_shape].
    destruct (_ && _); [same_shape|].
    by apply (shape_request _ _ requestId).
  - unfold body_end. destruct (draining w !! requestId) as [[c rq]|]; [|same_shape].
    by apply (shape_request _ _ requestId).
  - unfold body_error. destruct (draining w !! requestId) as [[c rq]|]; same_shape.
  - unfold createWsTunnel. destruct (connected_slave i w); same_shape.
  - same_shape.
  - destruct (local_close_fields l (with_socks (<[l := CLOSED]>) w)) as (H1 & H2 & H3).
    apply shape_same; try done.
    apply (local_close_conns l (with_socks (<[l := CLOSED]>) w)).
Qed.

Lemma run_sound es w : timers_sound w → timers_sound (run JSON_parse es w).1.
Proof.
  revert w. induction es as [|e es IH]; intros w H; [done|].
  cbn [run]. pose proof (step_sound e w H) as H1.
  destruct (step JSON_parse e w) as [w1 out1].
  specialize (IH w1 H1).
  by destruct (run JSON_parse es w1) as [w2 out2].
Qed.

Lemma init_sound s e a t : timers_sound (init (new_TunnelManager s e a t)).
Proof.
  split_and!; simpl.
  - intros r p H. by rewrite lookup_empty in H.
  - intros c k r H. by rewrite lookup_empty in H.
  - intros c k H. by rewrite lookup_empty in H.
  - intros t0 [cb H]. by rewrite lookup_empty in H.
Qed.
End master_timers.

(** C2, as the code has it.  In any state the master reaches from a
    freshly constructed manager, when the control connection of an
    authenticated slave closes, the registry holds no record under its
    slave id afterwards and, in the same step, every tunnel record whose
    slaveId is that id is removed; the user-side socket of each such tunnel
    is closed if it was open, and is not open afterwards; the tunnels of
    other slaves stay.  The pending requests are left exactly as they were
    and no promise is completed by the step: a request addressed to that
    slave stays pending, and when its own timer fires next it is rejected
    with "Request timeout". *)
Theorem slave_close_drops_tunnels_keeps_requests
    (JSON_parse : string → option json) (opt_secret env_secret : option string)
    (opt_authTimeout opt_requestTimeout : option Z) (events : list Master.event)
    (c : sock) (k : Master.connection) (i : Master.slave_key) :
  let m := Master.new_TunnelManager opt_secret env_secret opt_authTimeout opt_requestTimeout in
  let w := (Master.run JSON_parse events (Master.init m)).1 in
  Master.conns w !! c = Some k → Master.conn_slaveId k = Some i →
  let r := Master.step JSON_parse (Master.ev_close c) w in
  JsMap.get i (Master.slaves (Master.tm r.1)) = None ∧
  (∀ t tn, JsMap.get t (Master.tunnels (Master.tm r.1)) = Some tn →
           Master.str_key (Master.slaveId tn) ≠ i) ∧
  (∀ t tn, (t, tn) ∈ Master.tunnels (Master.tm w) → Master.str_key (Master.slaveId tn) = i →
     Master.sock_open r.1 (Master.localWs tn) = false ∧
     (Master.sock_open w (Master.localWs tn) = true → Master.localWs tn ≠ c →
      Master.close (Master.localWs tn) None ∈ r.2)) ∧
  (∀ t tn, JsMap.get t (Master.tunnels (Master.tm w)) = Some tn →
           Master.str_key (Master.slaveId tn) ≠ i →
           JsMap.get t (Master.tunnels (Master.tm r.1)) = Some tn) ∧
  Master.pendingRequests (Master.tm r.1) = Master.pendingRequests (Master.tm w) ∧
  (∀ r0 e, e ∈ r.2 → settles r0 e = false) ∧
  (∀ r0 p, Master.pendingRequests (Master.tm w) !! r0 = Some p →
           Master.pendingRequests (Master.tm r.1) !! r0 = Some p ∧
           let r' := Master.step JSON_parse (Master.ev_timer (Master.timeout p)) r.1 in
           r'.2 = [Master.reject r0 "Request timeout"] ∧
           Master.pendingRequests (Master.tm r'.1) !! r0 = None).
Proof.
  intros m w Hc Hk r.
  assert (Hlater : ∀ r0 p, Master.pendingRequests (Master.tm w) !! r0 = Some p →
             Master.timers w !! Master.timeout p = Some (Master.request_deadline r0) ∧
             Master.timeout p ≠ Master.authTimer k).
  { destruct (run_sound JSON_parse events (Master.init m)
                (init_sound opt_secret env_secret opt_authTimeout opt_requestTimeout))
      as (HA & HB & _).
    fold w in HA, HB. intros r0 p Hp. split; [by apply HA|].
    intros E. apply (HB c k r0 Hc). rewrite <- E. by apply HA. }
  assert (Hinit : tunnels_owned (Master.init m) ∧
                  NoDup (JsMap.keys (Master.tunnels (Master.tm (Master.init m))))).
  { split; [|constructor]. intros t tn Hin. simpl in Hin. by apply elem_of_nil in Hin. }
  destruct (run_tunnels JSON_parse events (Master.init m) Hinit) as [Hown Hnd].
  fold w in Hown, Hnd.
  assert (Hi : truthy (Some (Master.key_json i)) = true).
  { apply (run_ids JSON_parse events (Master.init m)) with c k; [|done..].
    intros c0 k0 i0 H0. simpl in H0. by rewrite lookup_empty in H0. }
  destruct (JsMap.has i (Master.slaves (Master.tm w))) eqn:Hhas.
  - destruct (close_handler_spec JSON_parse w c k i Hc Hk Hi Hhas)
      as (Hsl & Hpend & Hconns & Htimers & Htun & Hopen & closed & Heff & Hclosed).
    fold r in Hsl, Hpend, Hconns, Htimers, Htun, Hopen, Heff.
    assert (Hin : ∀ t tn, (t, tn) ∈ Master.tunnels (Master.tm w) →
                   Master.str_key (Master.slaveId tn) = i →
                   t ∈ owned_tunnels i (Master.tunnels (Master.tm w))
                   ∧ Master.localWs tn
                       ∈ map Master.localWs (owned_tunnels_of i (Master.tunnels (Master.tm w)))).
    { intros t tn Hel Hown'. unfold owned_tunnels, owned_tunnels_of. split.
      - apply list_elem_of_fmap. exists (t, tn). split; [done|].
        by apply list_elem_of_filter.
      - apply list_elem_of_fmap. exists tn. split; [done|].
        apply list_elem_of_fmap. exists (t, tn). split; [done|].
        by apply list_elem_of_filter. }
    split_and!.
    + rewrite Hsl. apply JsMap_get_delete_eq.
    + intros t tn Hget Hown'. rewrite Htun, get_deletes in Hget.
      case_bool_decide as Ht; [done|]. apply Ht.
      apply JsMap_get_Some_elem in Hget. by apply (Hin t tn).
    + intros t tn Hel Hown'. destruct (Hin t tn Hel Hown') as [_ Hl]. split.
      * rewrite Hopen. rewrite (bool_decide_eq_false_2 (_ ∉ _)); [|by intros ?].
        apply andb_false_r.
      * intros Hwas Hne. rewrite Heff. right.
        apply list_elem_of_fmap. exists (Master.localWs tn). split; [done|].
        apply Hclosed. split; [|done].
        unfold Master.sock_open, is_open, ready in *. simpl.
        by rewrite lookup_insert_ne.
    + intros t tn Hget Hother. rewrite Htun, get_deletes.
      rewrite bool_decide_eq_false_2; [done|].
      unfold owned_tunnels.
      intros ([t' tn'] & Heq & [Hown' Hel]%list_elem_of_filter)%list_elem_of_fmap.
      simpl in *. subst t'.
      by rewrite (JsMap_NoDup_get _ _ _ _ Hnd Hel Hget) in Hown'.
    + done.
    + intros r0 e. rewrite Heff.
      intros [->|(s & -> & _)%list_elem_of_fmap]%elem_of_cons; done.
    + intros r0 p Hp. destruct (Hlater r0 p Hp) as [Ht Hne].
      split; [by rewrite Hpend|]. simpl. rewrite Htimers, lookup_delete_ne; [|done].
      rewrite Ht. simpl. split; [done | apply lookup_delete_eq].
  - assert (Hr : r = (Master.clearTimeout (Master.authTimer k)
                        (Master.with_socks (<[c := CLOSED]>) w), [])).
    { unfold r. simpl. unfold Master.close_handler. simpl.
      rewrite Hc, Hk. simpl. rewrite Hhas. by rewrite andb_false_r. }
    assert (Hnone : ∀ t tn, (t, tn) ∈ Master.tunnels (Master.tm w) →
                             Master.str_key (Master.slaveId tn) ≠ i).
    { intros t tn Hel Heq. specialize (Hown t tn Hel). rewrite Heq in Hown. congruence. }
    rewrite Hr. simpl. split_and!.
    + unfold JsMap.has in Hhas. by destruct (JsMap.get i _).
    + intros t tn Hget%JsMap_get_Some_elem. by apply (Hnone t tn).
    + intros t tn Hel Heq. by destruct (Hnone t tn Hel).
    + done.
    + done.
    + intros r0 e Hin. by apply elem_of_nil in Hin.
    + intros r0 p Hp. destruct (Hlater r0 p Hp) as [Ht Hne].
      split; [done|]. rewrite lookup_delete_ne; [|done]. rewrite Ht. simpl.
      split; [done | apply lookup_delete_eq].
Qed.

Lemma slave_close_drops_tunnels_keeps_requests_witness :
  let events :=
    [Master.ev_connection 1; Master.ev_message 1 (Demo.auth_text "s1" "k3y") 1000;
     Master.ev_connection 2; Master.ev_message 2 (Demo.auth_text "s2" "k3y") 1001;
     Master.ev_ready 7 OPEN; Master.ev_createWsTunnel "s1" 7 "ws" (Some "T") "t1";
     Master.ev_ready 8 OPEN; Master.ev_createWsTunnel "s2" 8 "shell" None "t2";
     Master.ev_forwardHttpRequest "s1" (Demo.get "/api/projects" ∅) "r1"] in
  let w := (Master.run Json.parse events
              (Master.init (Master.new_TunnelManager (Some "k3y") None None None))).1 in
  let k := {| Master.conn_authenticated := true;
              Master.conn_slaveId := Some (Master.str_key "s1");
              Master.authTimer := 0 |} in
  let r := Master.step Json.parse (Master.ev_close 1) w in
  Master.conns w !! 1%nat = Some k ∧
  JsMap.get (Master.str_key "s1") (Master.slaves (Master.tm r.1)) = None ∧
  (∀ t tn, JsMap.get t (Master.tunnels (Master.tm r.1)) = Some tn →
           Master.str_key (Master.slaveId tn) ≠ Master.str_key "s1") ∧
  Master.pendingRequests (Master.tm r.1) = Master.pendingRequests (Master.tm w) ∧
  (∀ r0 e, e ∈ r.2 → settles r0 e = false).
Proof.
  intros events w k r.
  assert (H1 : Master.conns w !! 1%nat = Some k) by (by vm_compute).
  assert (H2 : Master.conn_slaveId k = Some (Master.str_key "s1")) by reflexivity.
  destruct (slave_close_drops_tunnels_keeps_requests Json.parse (Some "k3y") None None None
              events 1 k (Master.str_key "s1") H1 H2)
    as (G1 & G2 & _ & _ & G5 & G6 & _).
  by split_and!.
Defined.

(** C2 as worded fails for the pending requests: request r1, addressed to
    slave s1, is still pending after the control connection of s1 has
    closed, and the step completes no promise; "slave disconnected" is not
    an error the manager ever produces. *)
Lemma pending_request_outlives_slave :
  let r := Master.step Json.parse (Master.ev_close 1) Demo2.busy in
  Master.pendingRequests (Master.tm Demo2.busy) !! "r1" = Some {| Master.timeout := 2 |} ∧
  JsMap.get (Master.str_key "s1") (Master.slaves (Master.tm r.1)) = None ∧
  Master.pendingRequests (Master.tm r.1) !! "r1" = Some {| Master.timeout := 2 |} ∧
  r.2 = [Master.console "[TunnelManager] Slave disconnected: s1"; Master.close 7 None] ∧
  Master.reject "r1" "slave disconnected" ∉ r.2.
Proof.
  split_and!; try by vm_compute.
  assert ((Master.step Json.parse (Master.ev_close 1) Demo2.busy).2
          = [Master.console "[TunnelManager] Slave disconnected: s1"; Master.close 7 None])
    as -> by (by vm_compute).
  set_solver.
Qed.
(** ** Completion of pending requests (handleHttpResponse, the request timer) *)

Section completions.
Import Master.
Variable JSON_parse : string → option json.

Lemma completions_app r out1 out2 :
  completions r (out1 ++ out2) = (completions r out1 + completions r out2)%nat.
Proof. unfold completions. by rewrite filter_app, length_app. Qed.

Lemma completions_quiet r out :
  (∀ e, e ∈ out → settles r e = false) → completions r out = 0%nat.
Proof.
  unfold completions. induction out as [|e out IH]; intros H; [done|].
  rewrite filter_cons_False.
  - apply IH. intros e' He'. apply H. by right.
  - rewrite H; [done | by left].
Qed.

Lemma quiet_refl w : quiet w w [].
Proof. split_and!; try done. by intros ?? ?%elem_of_nil. Qed.

Lemma quiet_js_close s w out :
  (∀ r e, e ∈ out → settles r e = false) → quiet w (js_close s w) out.
Proof.
  intros H. split_and!; try done.
  - by rewrite js_close_tm.
  - apply js_close_draining.
  - intros t r. by rewrite js_close_timers.
Qed.

Lemma quiet_trans w w1 w2 out1 out2 :
  quiet w w1 out1 → quiet w1 w2 out2 → quiet w w2 (out1 ++ out2).
Proof.
  intros (A1 & A2 & A3 & A4) (B1 & B2 & B3 & B4). split_and!.
  - congruence.
  - congruence.
  - eauto.
  - intros r e [?|?]%elem_of_app; eauto.
Qed.

Ltac quiet_tac :=
  let Hq := fresh "Hq" in
  split_and!; simpl;
  rewrite ?js_close_tm, ?js_close_draining, ?js_close_timers;
  try done;
  first
    [ by (intros ?? Hq; repeat (apply lookup_delete_Some in Hq as [_ Hq]))
    | intros ? ? Hq; repeat (apply elem_of_cons in Hq as [->|Hq]; [done|]);
      by apply elem_of_nil in Hq ].

Lemma handleAuth_quiet c message t now w i w' es :
  handleAuth c message t now w = inr (i, w', es) → quiet w w' es.
Proof.
  unfold handleAuth, key_of. intros H.
  destruct (_ || _); [done|]. destruct (negb (secret_matches _ _)); [done|].
  split_hyp H; simplify_eq/=; quiet_tac.
Qed.

Lemma handleWsTunnelData_quiet message w :
  quiet w (handleWsTunnelData message w).1 (handleWsTunnelData message w).2.
Proof. unfold handleWsTunnelData. split_cases; quiet_tac. Qed.

Lemma handleWsTunnelClosed_quiet message w :
  quiet w (handleWsTunnelClosed message w).1 (handleWsTunnelClosed message w).2.
Proof. unfold handleWsTunnelClosed. split_cases; quiet_tac. Qed.

Lemma handlePing_quiet i message now w :
  quiet w (handlePing i message now w).1 (handlePing i message now w).2.
Proof. unfold handlePing. split_cases; quiet_tac. Qed.

Lemma auth_timeout_quiet c w : quiet w (auth_timeout c w).1 (auth_timeout c w).2.
Proof. unfold auth_timeout. split_cases; quiet_tac. Qed.

Lemma createWsTunnel_quiet i l chan token t w :
  quiet w (createWsTunnel i l chan token t w).1 (createWsTunnel i l chan token t w).2.
Proof. unfold createWsTunnel. split_cases; quiet_tac. Qed.

Lemma error_handler_quiet c w : quiet w (error_handler c w).1 (error_handler c w).2.
Proof. unfold error_handler. split_cases; quiet_tac. Qed.

Lemma handleConnection_quiet c w :
  quiet w (handleConnection c w).1 (handleConnection c w).2.
Proof.
  unfold handleConnection. simpl. split_and!; simpl; try done.
  - intros t r [[_ ?]|[_ ?]]%lookup_insert_Some; done.
  - intros r e [->|[]%elem_of_nil]%elem_of_cons. done.
Qed.

Lemma local_message_quiet l data w :
  quiet w (local_message l data w).1 (local_message l data w).2.
Proof.
  unfold local_message. simpl. split_and!; try done.
  intros r e. induction (registered l w) as [|reg regs IH]; simpl.
  - by intros ?%elem_of_nil.
  - intros [He|He]%elem_of_app; [|by apply IH].
    unfold local_message_1 in He. destruct (sock_open w reg.1).
    + by apply list_elem_of_singleton in He as ->.
    + by apply elem_of_nil in He.
Qed.

Lemma local_close_quiet l w : quiet w (local_close l w).1 (local_close l w).2.
Proof.
  unfold local_close.
  enough (∀ regs w0 es, quiet w w0 es →
            quiet w (foldl (λ '(w, es) reg, let '(w, e) := local_close_1 reg w in
                                            (w, es ++ e)) (w0, es) regs).1
                    (foldl (λ '(w, es) reg, let '(w, e) := local_close_1 reg w in
                                            (w, es ++ e)) (w0, es) regs).2) as H.
  { apply H. apply quiet_refl. }
  induction regs as [|reg regs IH]; intros w0 es Hq; simpl; [done|].
  apply IH. apply (quiet_trans _ w0); [done|].
  unfold local_close_1. destruct (sock_open w0 reg.1); quiet_tac.
Qed.

Lemma close_handler_quiet c w : quiet w (close_handler c w).1 (close_handler c w).2.
Proof.
  unfold close_handler.
  destruct (conns w !! c) as [k|]; [|apply quiet_refl].
  destruct (conn_slaveId k) as [i|]; [|quiet_tac].
  destruct (_ && _); [|quiet_tac].
  destruct (close_tunnels_spec i
              (tunnels (tm (with_slaves (JsMap.delete i) (clearTimeout (authTimer k) w))))
              (with_slaves (JsMap.delete i) (clearTimeout (authTimer k) w))
              [console ("[TunnelManager] Slave disconnected: "
                        +:+ js_String (key_json i))])
    as (_ & Hp & _ & Ht & _ & _ & closed & He & _).
  enough (Hd : ∀ l w0 es, draining (foldl (close_tunnel_of i) (w0, es) l).1 = draining w0).
  { split_and!.
    - by rewrite Hp.
    - by rewrite Hd.
    - intros t r. rewrite Ht. simpl. by intros [_ ?]%lookup_delete_Some.
    - intros r e. rewrite He. simpl.
      intros [->|(s & -> & _)%list_elem_of_fmap]%elem_of_cons; done. }
  induction l as [|[t tn] l IH]; intros w0 es; simpl; [done|].
  destruct (decide _); [|apply IH].
  destruct (sock_open w0 (localWs tn)); rewrite IH; simpl;
    by rewrite ?js_close_draining.
Qed.

(** What the three kinds of step mean for the requests. *)
Lemma quiet_step w w1 out :
  quiet w w1 out → requests_consistent w →
  requests_consistent w1 ∧ (∀ r, live w1 r → live w r) ∧
  (∀ r, completions r out = 0%nat).
Proof.
  intros (Hp & Hd & Ht & He) [Hc1 Hc2]. unfold requests_consistent, live.
  rewrite Hp, Hd. split_and!; try done.
  - intros t r Hr. apply Hc1. by apply Ht.
  - intros r. apply completions_quiet. intros e. apply He.
Qed.

Lemma completing_step r w w1 out :
  completing r w w1 out → requests_consistent w →
  requests_consistent w1 ∧ (∀ r', live w1 r' → live w r') ∧ ¬ live w1 r.
Proof.
  intros (Hl & Hp & Hd & Ht & _) [Hc1 Hc2]. unfold requests_consistent, live.
  rewrite Hp, Hd. split_and!.
  - intros t r' Hr'. destruct (Ht _ _ Hr') as [Hw Hne].
    rewrite lookup_delete_ne; [|done]. by apply Hc1.
  - intros r' [Hne Hs]%lookup_delete_is_Some.
    rewrite lookup_delete_ne; [|done]. by apply Hc2.
  - intros r' [[_ ?]%lookup_delete_is_Some|[_ ?]%lookup_delete_is_Some]; auto.
  - rewrite !lookup_delete_eq. intros [[? ?]|[? ?]]; done.
Qed.

(** *** The handlers that complete a request *)

Lemma completions_one r e : settles r e = true → completions r [e] = 1%nat.
Proof. intros H. unfold completions. by rewrite filter_cons_True. Qed.

Lemma completions_none r e : settles r e = false → completions r [e] = 0%nat.
Proof.
  intros H. unfold completions. rewrite filter_cons_False; [done|]. by rewrite H.
Qed.

Lemma settle_pending r p w e pre :
  requests_consistent w →
  pendingRequests (tm w) !! r = Some p →
  (∀ r', settles r' e = bool_decide (r = r')) →
  (∀ r' e', e' ∈ pre → settles r' e' = false) →
  completing r w (with_pending (delete r) (clearTimeout (timeout p) w)) (pre ++ [e]).
Proof.
  intros [Hc1 Hc2] Hp He Hpre. split_and!; simpl.
  - left. by eexists.
  - done.
  - symmetry. apply delete_id. apply Hc2. by eexists.
  - intros t r' [Hne Ht]%lookup_delete_Some. split; [done|].
    intros ->. apply Hc1 in Ht. rewrite Hp in Ht. by simplify_eq.
  - rewrite completions_app, completions_quiet; [|by intros; apply Hpre].
    apply completions_one. rewrite He. by apply bool_decide_eq_true_2.
  - intros r' Hne. rewrite completions_app, completions_quiet; [|by intros; apply Hpre].
    apply completions_none. rewrite He. by apply bool_decide_eq_false_2.
Qed.

Lemma handleHttpResponse_calm message w :
  requests_consistent w →
  quiet w (handleHttpResponse message w).1 (handleHttpResponse message w).2 ∨
  ∃ r, completing r w (handleHttpResponse message w).1 (handleHttpResponse message w).2.
Proof.
  intros Hc. unfold handleHttpResponse.
  destruct (as_id (prop "requestId" message)) as [r|]; simpl; [|left; quiet_tac].
  destruct (pendingRequests (tm w) !! r) as [p|] eqn:Hp; simpl; [|left; quiet_tac].
  right. exists r.
  destruct (truthy _); simpl.
  - apply (settle_pending r p w _ []); try done. by intros ?? ?%elem_of_nil.
  - apply (settle_pending r p w _ []); try done. by intros ?? ?%elem_of_nil.
Qed.

Lemma handleSlaveError_calm i message w :
  requests_consistent w →
  quiet w (handleSlaveError i message w).1 (handleSlaveError i message w).2 ∨
  ∃ r, completing r w (handleSlaveError i message w).1 (handleSlaveError i message w).2.
Proof.
  intros Hc. unfold handleSlaveError.
  destruct (truthy (prop "requestId" message)); [|left; quiet_tac].
  destruct (as_id (prop "requestId" message)) as [r|]; simpl; [|left; quiet_tac].
  destruct (pendingRequests (tm w) !! r) as [p|] eqn:Hp; simpl; [|left; quiet_tac].
  right. exists r.
  apply (settle_pending r p w _ [_]); try done.
  intros r' e' [->|[]%elem_of_nil]%elem_of_cons. done.
Qed.

Lemma handleSlaveMessage_calm i message now w :
  requests_consistent w →
  quiet w (handleSlaveMessage i message now w).1 (handleSlaveMessage i message now w).2 ∨
  ∃ r, completing r w (handleSlaveMessage i message now w).1
                      (handleSlaveMessage i message now w).2.
Proof.
  intros Hc. unfold handleSlaveMessage.
  destruct (is_str _ "response"); [by apply handleHttpResponse_calm|].
  destruct (is_str _ "ws_data"); [left; apply handleWsTunnelData_quiet|].
  destruct (is_str _ "ws_tunnel_closed"); [left; apply handleWsTunnelClosed_quiet|].
  destruct (is_str _ "ping"); [left; apply handlePing_quiet|].
  destruct (is_str _ "error"); [by apply handleSlaveError_calm|].
  left. quiet_tac.
Qed.

Lemma forward_send_starting c r rq body w w0 :
  requests_consistent w →
  pendingRequests (tm w) !! r = None →
  tm w0 = tm w → timers w0 = timers w →
  draining w0 !! r = None →
  (∀ r', is_Some (draining w0 !! r') → is_Some (draining w !! r')) →
  starting r w (forward_send c r rq body w0).1 (forward_send c r rq body w0).2.
Proof.
  intros [Hc1 Hc2] Hp Htm Ht Hd0 Hd. unfold forward_send. simpl.
  split_and!.
  - split; simpl; rewrite Htm, ?Ht.
    + intros t r' [[<- [= <-]]|[Hne Hr']]%lookup_insert_Some.
      * by rewrite lookup_insert_eq.
      * apply Hc1 in Hr'. rewrite lookup_insert_ne; [done|]. intros <-. congruence.
    + intros r' [<-|[Hne Hr']]%lookup_insert_is_Some; [done|].
      destruct (draining w0 !! r') eqn:Hr0; [|done].
      assert (is_Some (draining w !! r')) as Hs by (apply Hd; by eexists).
      rewrite (Hc2 r' Hr') in Hs. by destruct Hs.
  - unfold live. simpl. rewrite Htm.
    intros r' [[<-|[_ ?]]%lookup_insert_is_Some|?]; auto.
  - intros r'. by apply completions_none.
Qed.

Lemma starting_ok r w w1 out :
  starting r w w1 out →
  requests_consistent w1 ∧ (∀ r', live w1 r' → live w r' ∨ r' = r) ∧
  ∀ r', completions r' out = 0%nat.
Proof. done. Qed.

Lemma ok_quiet e w w1 out :
  requests_consistent w → quiet w w1 out → step_ok e w w1 out.
Proof.
  intros Hc Hq. destruct (quiet_step _ _ _ Hq Hc) as (H1 & H2 & H3).
  split_and!; [done | by left; apply H2 | by left].
Qed.

Lemma ok_completing e r w w1 out :
  requests_consistent w → completing r w w1 out → step_ok e w w1 out.
Proof.
  intros Hc Hq. destruct (completing_step _ _ _ _ Hq Hc) as (H1 & H2 & H3).
  destruct Hq as (Hl & _ & _ & _ & Hone & Hnone).
  split_and!; [done | by left; apply H2 |].
  intros r'. destruct (decide (r' = r)) as [->|Hne]; [|left; by apply Hnone].
  right. split_and!; [done | by left | done].
Qed.

Lemma ok_calm e w w1 out :
  requests_consistent w →
  quiet w w1 out ∨ (∃ r, completing r w w1 out) → step_ok e w w1 out.
Proof. intros Hc [?|[r ?]]; [by apply ok_quiet | by apply (ok_completing _ r)]. Qed.

Lemma quiet_after_socks f w w1 out :
  quiet (with_socks f w) w1 out → quiet w w1 out.
Proof. done. Qed.

Lemma dispatch_calm c message k now w :
  requests_consistent w →
  quiet w (dispatch c message k now w).1.1 (dispatch c message k now w).1.2 ∨
  ∃ r0, completing r0 w (dispatch c message k now w).1.1 (dispatch c message k now w).1.2.
Proof.
  intros Hc. unfold dispatch. destruct (negb _).
  - left. destruct (is_str _ _); [|quiet_tac].
    destruct (handleAuth _ _ _ _ _) as [err|[[i' w'] es]] eqn:Hauth; [apply quiet_refl|].
    by apply handleAuth_quiet in Hauth.
  - destruct (conn_slaveId k) as [i|]; [|left; apply quiet_refl].
    pose proof (handleSlaveMessage_calm i message now w Hc) as H.
    by destruct (handleSlaveMessage i message now w).
Qed.

Lemma micro_step_calm c m w :
  requests_consistent w →
  quiet w (micro_step JSON_parse c m w).1 (micro_step JSON_parse c m w).2 ∨
  ∃ r, completing r w (micro_step JSON_parse c m w).1 (micro_step JSON_parse c m w).2.
Proof.
  intros Hc. destruct m as [data now|id|err]; simpl.
  - rewrite message_handler_dispatch.
    destruct (conns w !! c) as [k|]; [|left; apply quiet_refl].
    destruct (JSON_parse data) as [message|]; [|left; quiet_tac].
    destruct message; first [left; quiet_tac | by apply dispatch_calm].
  - left. unfold then_reaction. destruct (conns w !! c); [quiet_tac | apply quiet_refl].
  - left. quiet_tac.
Qed.

Lemma calm_refl w : requests_consistent w → calm w w [].
Proof. intros Hc. split_and!; [done | done | by left]. Qed.

(** A small step, then a calm rest. *)
Lemma calm_cons w w1 w2 out1 out2 :
  requests_consistent w →
  quiet w w1 out1 ∨ (∃ r, completing r w w1 out1) →
  calm w1 w2 out2 → calm w w2 (out1 ++ out2).
Proof.
  intros Hc [Hq|[r0 Hq]] (Hc2 & Hl2 & Hn2).
  - destruct (quiet_step _ _ _ Hq Hc) as (Hc1 & Hl1 & Hn1).
    split_and!; [done | by intros r ?%Hl2%Hl1 |].
    intros r. rewrite completions_app, Hn1. cbn [Nat.add].
    destruct (Hn2 r) as [?|(? & ?%Hl1 & ?)]; [by left | by right].
  - destruct (completing_step _ _ _ _ Hq Hc) as (Hc1 & Hl1 & Hdead).
    destruct Hq as (Hl & _ & _ & _ & Hone & Hnone).
    split_and!; [done | by intros r ?%Hl2%Hl1 |].
    intros r. rewrite completions_app.
    destruct (decide (r = r0)) as [->|Hne].
    + rewrite Hone. destruct (Hn2 r0) as [->|(_ & ? & _)]; [|done].
      right. split_and!; [done | done | by intros ?%Hl2].
    + rewrite (Hnone r Hne). cbn [Nat.add].
      destruct (Hn2 r) as [?|(? & ?%Hl1 & ?)]; [by left | by right].
Qed.

Lemma micro_run_calm c ms w :
  requests_consistent w →
  calm w (micro_run JSON_parse c ms w).1 (micro_run JSON_parse c ms w).2.
Proof.
  revert w. induction ms as [|m ms IH]; intros w Hc; [by apply calm_refl|].
  cbn [micro_run].
  pose proof (micro_step_calm c m w Hc) as H1.
  destruct (micro_step JSON_parse c m w) as [w1 out1]. cbn [fst snd] in *.
  assert (Hc1 : requests_consistent w1).
  { destruct H1 as [Hq|[r Hq]];
      [by destruct (quiet_step _ _ _ Hq Hc) | by destruct (completing_step _ _ _ _ Hq Hc)]. }
  specialize (IH w1 Hc1).
  destruct (micro_run JSON_parse c ms w1) as [w2 out2]. cbn [fst snd] in *.
  by apply (calm_cons w w1).
Qed.

Lemma deliver_calm c frames w :
  requests_consistent w →
  calm w (deliver JSON_parse c frames w).1 (deliver JSON_parse c frames w).2.
Proof.
  intros Hc. destruct (deliver_micro JSON_parse c frames w) as (ms & _ & ->).
  by apply micro_run_calm.
Qed.

Lemma ok_calm_task e w w1 out : calm w w1 out → step_ok e w w1 out.
Proof.
  intros (H1 & H2 & H3). split_and!; [done | by left; apply H2 |].
  intros r. destruct (H3 r) as [?|(? & ? & ?)]; [by left|].
  right. split_and!; [done | by left | done].
Qed.

Lemma step_requests e w :
  requests_consistent w → (∀ r, r ∈ issued [e] → ¬ live w r) →
  step_ok e w (step JSON_parse e w).1 (step JSON_parse e w).2.
Proof.
  intros Hc Hfresh. destruct e; simpl.
  - apply ok_quiet; [done|]. quiet_tac.
  - apply ok_quiet; [done|].
    apply (quiet_after_socks (<[c := OPEN]>)).
    apply (handleConnection_quiet c (with_socks (<[c := OPEN]>) w)).
  - apply ok_calm_task. by apply deliver_calm.
  - apply ok_calm_task. by apply deliver_calm.
  - apply ok_quiet; [done|].
    apply (quiet_after_socks (<[c := CLOSED]>)).
    apply (close_handler_quiet c (with_socks (<[c := CLOSED]>) w)).
  - apply ok_quiet; [done|]. apply error_handler_quiet.
  - destruct (timers w !! t) as [[c|r]|] eqn:Ht.
    + apply ok_quiet; [done|].
      apply (quiet_trans _ (with_timers (delete t) w) _ [] _); [quiet_tac|].
      apply auth_timeout_quiet.
    + apply (ok_completing _ r); [done|].
      pose proof (proj1 Hc _ _ Ht) as Hp.
      apply (settle_pending r {| timeout := t |} w _ []); try done.
      by intros ?? ?%elem_of_nil.
    + apply ok_quiet; [done|]. apply quiet_refl.
  - assert (Hnl : ¬ live w requestId) by (apply Hfresh; simpl; left).
    assert (Hp : pendingRequests (tm w) !! requestId = None).
    { destruct (pendingRequests (tm w) !! requestId) eqn:E; [|done].
      exfalso. apply Hnl. left. by eexists. }
    assert (Hd : draining w !! requestId = None).
    { destruct (draining w !! requestId) eqn:E; [|done].
      exfalso. apply Hnl. right. by eexists. }
    unfold forwardHttpRequest. destruct (connected_slave i w) as [s|]; simpl.
    + destruct (_ && _); simpl.
      * split_and!.
        -- destruct Hc as [Hc1 Hc2]. split; simpl; [done|].
           intros r' Hr'. rewrite lookup_insert_ne; [by apply Hc2|].
           intros <-. rewrite Hp in Hr'. by destruct Hr'.
        -- unfold live. simpl.
           intros r' [?|[<-|[_ ?]]%lookup_insert_is_Some]; auto.
           right. left.
        -- intros r'. by left.
      * destruct (forward_send_starting (ws s) requestId rq None w w Hc Hp)
          as (H1 & H2 & H3); try done.
        split_and!; [done | | by left].
        intros r' Hr'. destruct (H2 r' Hr') as [?| ->]; [by left | right; left].
    + split_and!; [done | by left |].
      intros r'. destruct (decide (r' = requestId)) as [->|Hne].
      * right. split_and!; [|right; left | done].
        apply completions_one. simpl. by apply bool_decide_eq_true_2.
      * left. apply completions_none. simpl. by apply bool_decide_eq_false_2.
  - unfold body_end. destruct (draining w !! requestId) as [[c rq]|] eqn:Hd;
      [|apply ok_quiet; [done | apply quiet_refl]].
    assert (Hp : pendingRequests (tm w) !! requestId = None).
    { destruct (pendingRequests (tm w) !! requestId) eqn:E; [|done].
      destruct Hc as [_ Hc2]. rewrite Hc2 in Hd; [done | by eexists]. }
    destruct (forward_send_starting c requestId rq (Some body) w
                (with_draining (delete requestId) w) Hc Hp)
      as (H1 & H2 & H3); try done.
    { simpl. apply lookup_delete_eq. }
    { simpl. by intros r' [_ ?]%lookup_delete_is_Some. }
    split_and!; [done | | by left].
    intros r' Hr'. destruct (H2 r' Hr') as [?| ->]; left; [done|].
    right. by eexists.
  - unfold body_error. destruct (draining w !! requestId) as [[c rq]|] eqn:Hd;
      [|apply ok_quiet; [done | apply quiet_refl]].
    assert (Hp : pendingRequests (tm w) !! requestId = None).
    { destruct (pendingRequests (tm w) !! requestId) eqn:E; [|done].
      destruct Hc as [_ Hc2]. rewrite Hc2 in Hd; [done | by eexists]. }
    apply (ok_completing _ requestId); [done|].
    split_and!; simpl.
    + right. by eexists.
    + symmetry. by apply delete_id.
    + done.
    + intros t r' Ht. split; [done|]. intros ->.
      apply (proj1 Hc) in Ht. congruence.
    + apply completions_one. simpl. by apply bool_decide_eq_true_2.
    + intros r' Hne. apply completions_none. simpl. by apply bool_decide_eq_false_2.
  - apply ok_quiet; [done|]. apply createWsTunnel_quiet.
  - apply ok_quiet; [done|]. apply local_message_quiet.
  - apply ok_quiet; [done|].
    apply (quiet_after_socks (<[l := CLOSED]>)).
    apply (local_close_quiet l (with_socks (<[l := CLOSED]>) w)).
Qed.

Lemma issued_cons e events : issued (e :: events) = issued [e] ++ issued events.
Proof. unfold issued. simpl. by destruct e. Qed.

Lemma run_completions events w r :
  requests_consistent w → NoDup (issued events) →
  (∀ r', r' ∈ issued events → ¬ live w r') →
  (completions r (run JSON_parse events w).2 ≤ 1)%nat ∧
  (¬ live w r → r ∉ issued events → completions r (run JSON_parse events w).2 = 0%nat).
Proof.
  revert w. induction events as [|e events IH]; intros w Hc Hnd Hfresh.
  { simpl. unfold completions. simpl. split; [lia | done]. }
  rewrite issued_cons in Hnd, Hfresh. rewrite issued_cons.
  apply NoDup_app in Hnd as (Hnd1 & Hdisj & Hnd2).
  destruct (step_requests e w Hc) as (Hc1 & Hlive & Hcount).
  { intros r' Hr'. apply Hfresh. apply elem_of_app. by left. }
  cbn [run]. destruct (step JSON_parse e w) as [w1 out1]. cbn [fst snd] in *.
  assert (Hfresh1 : ∀ r', r' ∈ issued events → ¬ live w1 r').
  { intros r' Hr' [Hl|Hl]%Hlive.
    - apply (Hfresh r'); [|done]. apply elem_of_app. by right.
    - by apply (Hdisj r'). }
  destruct (IH w1 Hc1 Hnd2 Hfresh1) as [IH1 IH2].
  destruct (run JSON_parse events w1) as [w2 out2]. cbn [fst snd] in *.
  rewrite completions_app.
  destruct (Hcount r) as [->|(-> & Hr & Hdead)]; cbn [Nat.add].
  - split; [done|]. intros Hnl Hni. apply IH2.
    + intros [?|?]%Hlive; [done|]. apply Hni, elem_of_app. by left.
    + intros ?. apply Hni, elem_of_app. by right.
  - assert (Hrest : r ∉ issued events).
    { destruct Hr as [Hl|Hi]; [|by apply Hdisj].
      intros Hi. apply (Hfresh r); [|done]. apply elem_of_app. by right. }
    rewrite (IH2 Hdead Hrest). split; [lia|].
    intros Hnl Hni. destruct Hr as [?|Hi]; [done|].
    exfalso. apply Hni, elem_of_app. by left.
Qed.

Lemma init_consistent s e a t :
  requests_consistent (init (new_TunnelManager s e a t)) ∧
  ∀ r, ¬ live (init (new_TunnelManager s e a t)) r.
Proof.
  split; [split|]; simpl.
  - intros t' r. by rewrite lookup_empty.
  - done.
  - intros r [H|H]; simpl in H; rewrite lookup_empty in H; by destruct H.
Qed.

Lemma handleHttpResponse_removes message w r :
  as_id (prop "requestId" message) = Some r →
  pendingRequests (tm (handleHttpResponse message w).1) !! r = None.
Proof.
  intros Hr. unfold handleHttpResponse. rewrite Hr. simpl.
  destruct (pendingRequests (tm w) !! r) as [p|] eqn:Hp; simpl; [|done].
  destruct (truthy _); simpl; apply lookup_delete_eq.
Qed.

Lemma handleHttpResponse_discards message w :
  (∀ r, as_id (prop "requestId" message) = Some r →
        pendingRequests (tm w) !! r = None) →
  handleHttpResponse message w
  = (w, [console ("[TunnelManager] No pending request for "
                  +:+ show (prop "requestId" message))]).
Proof.
  intros H. unfold handleHttpResponse.
  destruct (as_id (prop "requestId" message)) as [r|]; simpl; [|done].
  by rewrite (H r eq_refl).
Qed.
End completions.

(** C4.  In any run of a freshly constructed tunnel manager in which the
    request ids drawn by [forwardHttpRequest] are pairwise different, the
    promise of a request is completed at most once, whatever frames and
    timer events arrive and in whatever order.  Step by step: a [response]
    frame for request [r] leaves no pending entry for [r], and so does the
    timer of [r] when it fires; a [response] frame whose request id has no
    pending entry (or is missing) changes nothing and only logs a line. *)
Theorem request_completed_at_most_once
    (JSON_parse : string → option json) (opt_secret env_secret : option string)
    (opt_authTimeout opt_requestTimeout : option Z)
    (events : list Master.event) (r : string) :
  NoDup (issued events) →
  let m := Master.new_TunnelManager opt_secret env_secret opt_authTimeout opt_requestTimeout in
  (completions r (Master.run JSON_parse events (Master.init m)).2 ≤ 1)%nat ∧
  (∀ w message,
     as_id (prop "requestId" message) = Some r →
     Master.pendingRequests (Master.tm (Master.handleHttpResponse message w).1) !! r = None) ∧
  (∀ w t,
     Master.timers w !! t = Some (Master.request_deadline r) →
     let w1 := (Master.step JSON_parse (Master.ev_timer t) w).1 in
     Master.pendingRequests (Master.tm w1) !! r = None ∧ Master.timers w1 !! t = None) ∧
  (∀ w message,
     (∀ r', as_id (prop "requestId" message) = Some r' →
            Master.pendingRequests (Master.tm w) !! r' = None) →
     Master.handleHttpResponse message w
     = (w, [Master.console ("[TunnelManager] No pending request for "
                            +:+ Master.show (prop "requestId" message))])).
Proof.
  intros Hnd m. split_and!.
  - destruct (init_consistent opt_secret env_secret opt_authTimeout opt_requestTimeout)
      as [Hc Hl].
    apply (run_completions JSON_parse events _ r Hc Hnd). intros r' _. apply Hl.
  - intros w message. apply handleHttpResponse_removes.
  - intros w t Ht. simpl. rewrite Ht. simpl.
    split; [apply lookup_delete_eq | apply lookup_delete_eq].
  - intros w message. apply handleHttpResponse_discards.
Qed.

Lemma request_completed_at_most_once_witness :
  NoDup (issued Demo4.answered_twice) ∧
  (completions "r1" (Master.run Json.parse Demo4.answered_twice
                                (Master.init Demo.manager)).2 ≤ 1)%nat.
Proof.
  assert (H : NoDup (issued Demo4.answered_twice)).
  { vm_compute. apply NoDup_singleton. }
  split; [exact H|].
  exact (proj1 (request_completed_at_most_once Json.parse (Some "k3y") None None None
                  Demo4.answered_twice "r1" H)).
Defined.

(** ** Reconnection of the slave (tunnel-client.js, scheduleReconnect) *)

(** ** Rounding to doubles *)

Section double_facts.
Import Double.
Local Open Scope Q_scope.


































End double_facts.

Section reconnect.
Import Client.
Variable JSON_parse : string → option json.
Variable WebSocket_accepts : target → bool.













End reconnect.


Section backoff_facts.
Import Double.
Local Open Scope Q_scope.
















End backoff_facts.




(** The upper end is reached: doubles round, and the jitter of the largest
    [random] below 1 is a full second.  On the first attempt with the
    default delays and [random = 1 - 2^-52] the slave waits 6000 ms, not
    less. *)
Lemma jitter_rounds_up_to_a_full_second :
  let random := (1 - (1 # 4503599627370496))%Q in
  let w1 := (Client.scheduleReconnect random (Client.init Demo5.slave)).1 in
  (0 <= random < 1)%Q ∧
  (Double.fl random == random)%Q ∧
  ∃ d, (Client.delay <$> Client.timers w1 !! 0%nat) = Some d ∧ (d == 6000)%Q.
Proof.
  split_and!; [discriminate | reflexivity | by vm_compute |].
  eexists. split; [by vm_compute|]. reflexivity.
Qed.
(** ** The routing middleware (request-router.js) *)

Section router.
Import Master Router.
#[local] Arguments includes : simpl never.

Lemma router_local rq requestId w :
  (headers rq !! "x-target-slave" = None ∨
   headers rq !! "x-target-slave" = Some "" ∨
   headers rq !! "x-target-slave" = Some "local") →
  (createRequestRouter rq requestId w).1.1 = w ∧
  (createRequestRouter rq requestId w).2 = next.
Proof.
  unfold createRequestRouter. by intros [->|[->| ->]].
Qed.

Lemma router_not_connected rq requestId w t :
  headers rq !! "x-target-slave" = Some t → t ≠ "" → t ≠ "local" →
  isSlaveConnected t w = false →
  (createRequestRouter rq requestId w).1.1 = w ∧
  (createRequestRouter rq requestId w).2 = json_reply 503 (not_connected_body t).
Proof.
  unfold createRequestRouter. intros -> H1 H2 ->.
  apply String.eqb_neq in H1, H2. by rewrite H1, H2.
Qed.

Lemma router_forwards rq requestId w t :
  headers rq !! "x-target-slave" = Some t → t ≠ "" → t ≠ "local" →
  isSlaveConnected t w = true →
  createRequestRouter rq requestId w
  = ((forwardHttpRequest t rq requestId w).1,
     (if includes "onboarding" (originalUrl rq)
      then [console ("[RequestRouter] Onboarding request: " +:+ method rq +:+ " "
                     +:+ originalUrl rq +:+ " target: " +:+ t)]
      else []) ++ (forwardHttpRequest t rq requestId w).2,
     awaiting t requestId).
Proof.
  unfold createRequestRouter. intros -> H1 H2 ->.
  apply String.eqb_neq in H1, H2. rewrite H1, H2. simpl.
  by destruct (forwardHttpRequest t rq requestId w).
Qed.

(** A connected slave gets the frame at once when the request has no
    body to read. *)
Lemma forward_get t rq requestId w :
  isSlaveConnected t w = true → method rq = "GET" →
  ∃ c, (forwardHttpRequest t rq requestId w).2
       = [send c (http_request requestId "GET" (url rq)
                               (sanitizeHeaders (headers rq)) None)].
Proof.
  unfold isSlaveConnected, forwardHttpRequest, connected_slave, forward_send.
  intros Hc ->. destruct (JsMap.get (str_key t) _) as [s|]; [|done]. rewrite Hc. simpl.
  by exists (ws s).
Qed.
End router.

(** C6, as the code has it.  The middleware hands the request to the local
    chain, leaving the tunnel manager as it was, when the X-Target-Slave
    header is absent, empty or equal to "local".  For any other value it
    replies 503 with error "Slave not connected", the slave id and a message
    when that slave is not connected; and when the slave is connected it
    awaits [forwardHttpRequest], a rejection of which is answered 502 with
    error "Tunnel error", the slave id and the message of the error. *)
Theorem router_local_503_502
    (rq : Master.request) (requestId : string) (w : Master.world) :
  let target := Master.headers rq !! "x-target-slave" in
  let r := Router.createRequestRouter rq requestId w in
  ((target = None ∨ target = Some "" ∨ target = Some "local") →
   r.1.1 = w ∧ r.2 = Router.next) ∧
  (∀ t, target = Some t → t ≠ "" → t ≠ "local" →
        Master.isSlaveConnected t w = false →
        r.1.1 = w ∧
        r.2 = Router.json_reply 503
                (JObj [("error", JStr "Slave not connected"); ("slaveId", JStr t);
                       ("message", JStr ("The target client '" +:+ t
                                         +:+ "' is not currently connected"))])) ∧
  (∀ t, target = Some t → t ≠ "" → t ≠ "local" →
        Master.isSlaveConnected t w = true →
        r.2 = Router.awaiting t requestId ∧
        ∀ message,
          (Router.resume t (Router.rejected message)).2
          = Router.error_reply 502
              (JObj [("error", JStr "Tunnel error"); ("slaveId", JStr t);
                     ("message", JStr message)])).
Proof.
  intros target r. split_and!.
  - apply router_local.
  - intros t. apply router_not_connected.
  - intros t Ht H1 H2 Hc. split; [|done].
    unfold r. by rewrite (router_forwards rq requestId w t Ht H1 H2 Hc).
Qed.

Lemma router_local_503_502_witness :
  let r := Router.createRequestRouter Demo6.to_s9 "r1" Demo.s1_connected in
  Master.headers Demo6.to_s9 !! "x-target-slave" = Some "s9" ∧
  Master.isSlaveConnected "s9" Demo.s1_connected = false ∧
  r.1.1 = Demo.s1_connected ∧
  r.2 = Router.json_reply 503
          (JObj [("error", JStr "Slave not connected"); ("slaveId", JStr "s9");
                 ("message", JStr "The target client 's9' is not currently connected")]).
Proof.
  intros r.
  assert (H1 : Master.headers Demo6.to_s9 !! "x-target-slave" = Some "s9") by (by vm_compute).
  assert (H2 : Master.isSlaveConnected "s9" Demo.s1_connected = false) by (by vm_compute).
  split; [exact H1|]. split; [exact H2|].
  apply (proj1 (proj2 (router_local_503_502 Demo6.to_s9 "r1" Demo.s1_connected)) "s9" H1);
    [discriminate | discriminate | exact H2].
Defined.

(** C6 as worded fails for a header that is present but empty: it is
    neither absent nor "local", no slave is connected under the empty name,
    and the request goes to the local chain instead of being answered 503. *)
Lemma empty_target_goes_local :
  let r := Router.createRequestRouter Demo6.empty_target "r1" Demo.s1_connected in
  Master.headers Demo6.empty_target !! "x-target-slave" = Some "" ∧
  Master.isSlaveConnected "" Demo.s1_connected = false ∧
  r.2 = Router.next ∧
  r.2 ≠ Router.json_reply 503 (Router.not_connected_body "").
Proof. split_and!; try by vm_compute. Qed.

Section client_headers.
Import Api.

Lemma defaultHeaders_keys url fd plat token selected k v :
  defaultHeaders url fd plat token selected !! k = Some v →
  k = "Content-Type" ∨ k = "Authorization" ∨
  (k = "X-Target-Slave" ∧ is_master_only url = false).
Proof.
  unfold defaultHeaders.
  destruct (is_master_only url); simpl.
  - destruct fd, token as [t|]; simpl; try destruct (_ && _);
      rewrite ?lookup_insert_Some, ?lookup_empty; naive_solver.
  - destruct fd, token as [t|]; simpl; try destruct (negb plat && _);
      destruct (_ && _); rewrite ?lookup_insert_Some, ?lookup_empty; naive_solver.
Qed.

Lemma received_lookup_None sent name :
  (∀ k, is_Some (sent !! k) → toLowerCase k ≠ name) →
  received sent !! name = None.
Proof.
  intros H. unfold received. apply not_elem_of_list_to_map_1.
  rewrite <- list_fmap_compose.
  intros ([k v] & Hk & Hin)%list_elem_of_fmap. simpl in Hk.
  apply elem_of_map_to_list in Hin. apply (H k); [by eexists | done].
Qed.

Lemma master_only_request_has_no_target url fd plat token selected opts :
  is_master_only url = true →
  (∀ k, is_Some (opts !! k) → toLowerCase k ≠ "x-target-slave") →
  received (authenticatedFetch_headers url fd plat token selected opts)
    !! "x-target-slave" = None.
Proof.
  intros Hm Hopts. apply received_lookup_None.
  intros k [v Hk]. unfold authenticatedFetch_headers in Hk.
  apply lookup_union_Some_raw in Hk as [Hk|[_ Hk]].
  - apply Hopts. by eexists.
  - apply defaultHeaders_keys in Hk as [->|[->|[_ Hf]]]; [done | done | congruence].
Qed.
End client_headers.

(** C8, as the code has it.  The middleware looks at the header only, not
    at the path: a request that carries X-Target-Slave naming a connected
    slave is forwarded through the tunnel whatever its path is, also when
    the path begins with /api/cluster/.  What keeps the cluster endpoints
    local is the browser side: [authenticatedFetch] adds no X-Target-Slave
    header to a URL that begins with /api/cluster/, /api/user/ or
    /api/auth/, so unless the caller supplies such a header itself the
    request arrives without it and is handed to the local chain. *)
Theorem cluster_paths_local_by_client_only
    (rq : Master.request) (requestId : string) (w : Master.world) :
  (∀ t, Master.headers rq !! "x-target-slave" = Some t → t ≠ "" → t ≠ "local" →
        Master.isSlaveConnected t w = true →
        (Router.createRequestRouter rq requestId w).2 = Router.awaiting t requestId ∧
        (Master.method rq = "GET" →
         ∃ c, Master.send c (Master.http_request requestId "GET" (Master.url rq)
                               (Master.sanitizeHeaders (Master.headers rq)) None)
              ∈ (Router.createRequestRouter rq requestId w).1.2)) ∧
  (∀ url fd plat token selected opts,
        Api.is_master_only url = true →
        (∀ k, is_Some (opts !! k) → toLowerCase k ≠ "x-target-slave") →
        Master.headers rq
        = Api.received (Api.authenticatedFetch_headers url fd plat token selected opts) →
        (Router.createRequestRouter rq requestId w).2 = Router.next).
Proof.
  split.
  - intros t Ht H1 H2 Hc.
    rewrite (router_forwards rq requestId w t Ht H1 H2 Hc). simpl. split; [done|].
    intros Hget. destruct (forward_get t rq requestId w Hc Hget) as [c Hsend].
    exists c. rewrite Hsend. apply elem_of_app. right. left.
  - intros url fd plat token selected opts Hm Hopts Hrq.
    apply router_local. left. rewrite Hrq.
    by apply master_only_request_has_no_target.
Qed.

Lemma cluster_paths_local_by_client_only_witness :
  let rq := Demo6.status_via_s1 in
  Master.headers rq !! "x-target-slave" = Some "s1" ∧
  Master.isSlaveConnected "s1" Demo.s1_connected = true ∧
  (Router.createRequestRouter rq "r1" Demo.s1_connected).2 = Router.awaiting "s1" "r1".
Proof.
  intros rq.
  assert (H1 : Master.headers rq !! "x-target-slave" = Some "s1") by (by vm_compute).
  assert (H2 : Master.isSlaveConnected "s1" Demo.s1_connected = true) by (by vm_compute).
  split; [exact H1|]. split; [exact H2|].
  apply (proj1 (cluster_paths_local_by_client_only rq "r1" Demo.s1_connected) "s1" H1);
    [discriminate | discriminate | exact H2].
Defined.

(** C8 as worded fails: a GET for /api/cluster/status that carries
    X-Target-Slave: s1 while s1 is connected is not handed to the local
    chain; it goes out to s1 as an [http_request] frame. *)
Lemma cluster_status_is_tunnelled :
  let r := Router.createRequestRouter Demo6.status_via_s1 "r1" Demo.s1_connected in
  String.prefix "/api/cluster/" (Master.url Demo6.status_via_s1) = true ∧
  Master.isSlaveConnected "s1" Demo.s1_connected = true ∧
  r.2 = Router.awaiting "s1" "r1" ∧
  r.2 ≠ Router.next ∧
  r.1.2 = [Master.send 1 (Master.http_request "r1" "GET" "/api/cluster/status" ∅ None)].
Proof. split_and!; try by vm_compute. Qed.

(** ** The cluster status API (routes/cluster.js) *)

(** C9, as the code has it.  GET /status reports as [mode] the value of
    the DEPLOYMENT_MODE environment variable, and "standalone" when the
    variable is unset or empty, whether or not a tunnel manager is
    instantiated.  Without a tunnel manager it answers 200 with no slaves,
    and every other endpoint answers 400 with a JSON body whose [error]
    field is "Not in master mode". *)
Theorem cluster_routes_without_manager (env_DEPLOYMENT_MODE : option string) :
  let r := ClusterRoutes.get_status env_DEPLOYMENT_MODE None in
  ClusterRoutes.code r = 200 ∧
  prop "connectedSlaves" (ClusterRoutes.body r) = Some (JNum 0) ∧
  prop "slaves" (ClusterRoutes.body r) = Some (JArr []) ∧
  ((env_DEPLOYMENT_MODE = None ∨ env_DEPLOYMENT_MODE = Some "") →
   prop "mode" (ClusterRoutes.body r) = Some (JStr "standalone")) ∧
  (∀ m, env_DEPLOYMENT_MODE = Some m → m ≠ "" →
        prop "mode" (ClusterRoutes.body r) = Some (JStr m)) ∧
  (∀ e, e ≠ ClusterRoutes.ep_status →
        let r' := ClusterRoutes.handle env_DEPLOYMENT_MODE None e in
        ClusterRoutes.code r' = 400 ∧
        prop "error" (ClusterRoutes.body r') = Some (JStr "Not in master mode")) ∧
  (∀ tunnelManager,
     let r' := ClusterRoutes.get_status env_DEPLOYMENT_MODE tunnelManager in
     ClusterRoutes.code r' = 200 ∧
     prop "mode" (ClusterRoutes.body r')
     = Some (JStr (ClusterRoutes.deploymentMode env_DEPLOYMENT_MODE)) ∧
     ((env_DEPLOYMENT_MODE = None ∨ env_DEPLOYMENT_MODE = Some "") →
      prop "mode" (ClusterRoutes.body r') = Some (JStr "standalone")) ∧
     (∀ m, env_DEPLOYMENT_MODE = Some m → m ≠ "" →
           prop "mode" (ClusterRoutes.body r') = Some (JStr m))).
Proof.
  split_and!; try reflexivity.
  - by intros [->| ->].
  - intros m -> Hm%String.eqb_neq. simpl. unfold ClusterRoutes.deploymentMode.
    by rewrite Hm.
  - by intros [].
  - intros tunnelManager. split_and!; try reflexivity.
    + by intros [->| ->].
    + intros m -> Hm%String.eqb_neq. simpl. unfold ClusterRoutes.deploymentMode.
      by rewrite Hm.
Qed.

Lemma cluster_routes_without_manager_witness :
  let r := ClusterRoutes.handle (Some "slave") None (ClusterRoutes.ep_health "s1") in
  ClusterRoutes.ep_health "s1" ≠ ClusterRoutes.ep_status ∧
  ClusterRoutes.route ["slaves"; "s1"; "health"] = Some (ClusterRoutes.ep_health "s1") ∧
  ClusterRoutes.code r = 400 ∧
  prop "error" (ClusterRoutes.body r) = Some (JStr "Not in master mode").
Proof.
  intros r.
  assert (H : ClusterRoutes.ep_health "s1" ≠ ClusterRoutes.ep_status) by discriminate.
  split; [exact H|]. split; [reflexivity|].
  exact (proj1 (proj2 (proj2 (proj2 (proj2 (proj2
           (cluster_routes_without_manager (Some "slave"))))))) _ H).
Defined.

(** C9 as worded fails for the mode: a node started with
    DEPLOYMENT_MODE=slave has no tunnel manager, and reports mode "slave". *)
Lemma slave_node_reports_slave_mode :
  prop "mode" (ClusterRoutes.body (ClusterRoutes.get_status (Some "slave") None))
  = Some (JStr "slave") ∧
  prop "mode" (ClusterRoutes.body (ClusterRoutes.get_status (Some "slave") None))
  ≠ Some (JStr "standalone").
Proof. split; [reflexivity | discriminate]. Qed.

(** ** Frames that do not parse *)

(** C7.  A frame that is not valid JSON leaves the master exactly as it
    was (connection state, registry, pending requests, tunnels and the
    state of every socket): the handler of the connection it arrived on
    logs one line and nothing else happens; in particular no socket is
    closed.  The slave does the same with such a frame from the master. *)
Theorem malformed_frame_is_dropped
    (JSON_parse : string → option json) (WebSocket_accepts : Client.target → bool)
    (data : string) (w : Master.world) (c : sock) (now : Z)
    (cw : Client.world) (cc : sock) :
  JSON_parse data = None →
  let r := Master.step JSON_parse (Master.ev_message c data now) w in
  let cr := Client.step JSON_parse WebSocket_accepts (Client.ev_message cc data) cw in
  r.1 = w ∧
  r.2 = match Master.conns w !! c with
        | Some _ => [Master.console "[TunnelManager] Error parsing message:"]
        | None => []
        end ∧
  (∀ s code, Master.close s code ∉ r.2) ∧
  cr.1 = cw ∧
  cr.2 = (if decide (cc ∈ Client.control cw)
          then [Client.console "[TunnelClient] Error parsing message:"] else []) ∧
  (∀ s, Client.ws_close s ∉ cr.2).
Proof.
  intros Hparse r cr. unfold r, cr. simpl.
  unfold Master.deliver, Master.message_handler, Client.message_handler. simpl.
  rewrite Hparse.
  destruct (Master.conns w !! c), (decide (cc ∈ Client.control cw)); simpl;
    split_and!; try done; intros; set_solver.
Qed.

Lemma malformed_frame_is_dropped_witness :
  let r := Master.step Json.parse (Master.ev_message 1 "{oops" 1234) Demo.s1_connected in
  Json.parse "{oops" = None ∧
  r.1 = Demo.s1_connected ∧
  r.2 = [Master.console "[TunnelManager] Error parsing message:"].
Proof.
  intros r.
  assert (H : Json.parse "{oops" = None) by (by vm_compute).
  destruct (malformed_frame_is_dropped Json.parse Demo5.any_url "{oops"
              Demo.s1_connected 1 1234 Demo7.online 0 H) as (G1 & G2 & _).
  split; [exact H|]. split; [exact G1|]. exact G2.
Defined.

(** ** Sending while disconnected (tunnel-client.js, send) *)

(** C10.  While the slave has no control socket, or its control socket is
    not OPEN, [send] does nothing at all: the client is unchanged (nothing
    is queued; there is no queue) and nothing is written.  So the frames
    produced then are lost: data from a local tunnel socket ([ws_data]),
    the answer of a local HTTP call ([response]) and the notice that a
    local tunnel socket closed ([ws_tunnel_closed]) write nothing to the
    control connection. *)
Theorem send_discards_when_not_open (w : Client.world) (message : Client.frame) :
  (∀ c, Client.ws (Client.this w) = Some c → ready (Client.socks w) c ≠ OPEN) →
  Client.send message w = (w, []) ∧
  (∀ l data, Client.local_message l data w = (w, [])) ∧
  (∀ requestId r c f, Client.ws_send c f ∉ (Client.local_done requestId r w).2) ∧
  (∀ l c f, Client.ws_send c f ∉ (Client.local_close l w).2).
Proof.
  intros Hclosed.
  assert (Hsend : ∀ f w', Client.ws (Client.this w') = Client.ws (Client.this w) →
                          Client.socks w' = Client.socks w → Client.send f w' = (w', [])).
  { intros f w' Hws Hsocks. unfold Client.send, Client.sock_open, is_open.
    rewrite Hws, Hsocks. destruct (Client.ws (Client.this w)) as [c|]; [|done].
    rewrite bool_decide_eq_false_2; [done | by apply Hclosed]. }
  split_and!.
  - by apply Hsend.
  - intros l data. unfold Client.local_message.
    destruct (Client.locals w !! l); [by apply Hsend | done].
  - intros requestId r c f. unfold Client.local_done.
    destruct (decide _); [|set_solver].
    destruct r; rewrite Hsend; simpl; try done; set_solver.
  - intros l c f. unfold Client.local_close.
    destruct (Client.locals w !! l); [|set_solver].
    rewrite Hsend; simpl; try done. set_solver.
Qed.

Lemma send_discards_when_not_open_witness :
  let w := Demo7.disconnected in
  (∀ c, Client.ws (Client.this w) = Some c → ready (Client.socks w) c ≠ OPEN) ∧
  Client.send (Client.response (Some "r1") 200 [] "ok") w = (w, []).
Proof.
  intros w.
  assert (H : ∀ c, Client.ws (Client.this w) = Some c → ready (Client.socks w) c ≠ OPEN).
  { intros c Hc. vm_compute in Hc. injection Hc as <-. by vm_compute. }
  split; [exact H|].
  exact (proj1 (send_discards_when_not_open w _ H)).
Defined.
(** * Further properties of the tunnel manager *)

Section handshake.
Import Master.
Variable JSON_parse : string → option json.

Lemma handleAuth_refused c message t now w :
  truthy (prop "slaveId" message) = false ∨ truthy (prop "secret" message) = false ∨
  secret_matches (prop "secret" message) (secret (tm w)) = false →
  ∃ err, handleAuth c message t now w = inl err.
Proof.
  unfold handleAuth. intros H.
  destruct (truthy (prop "slaveId" message)) eqn:H1; simpl; [|by eexists].
  destruct (truthy (prop "secret" message)) eqn:H2; simpl; [|by eexists].
  destruct (secret_matches _ _) eqn:H3; simpl; [|by eexists].
  destruct H as [?|[?|?]]; congruence.
Qed.

Lemma key_of_conns v w : conns (key_of v w).2 = conns w.
Proof. unfold key_of. by destruct v. Qed.

Lemma key_of_timers v w : timers (key_of v w).2 = timers w.
Proof. unfold key_of. by destruct v. Qed.

(** What an accepted [auth] frame does, up to the return of
    [handleAuth]. *)
Lemma handleAuth_accepted c message t now w :
  truthy (prop "slaveId" message) = true →
  truthy (prop "secret" message) = true →
  secret_matches (prop "secret" message) (secret (tm w)) = true →
  let i := (key_of (default JNull (prop "slaveId" message)) w).1 in
  let w0 := match JsMap.get i (slaves (tm w)) with
            | Some ex => if sock_open w (ws ex) then js_close (ws ex) w else w
            | None => w
            end in
  ∃ w' es,
    handleAuth c message t now w = inr (i, w', es) ∧
    slaves (tm w')
    = JsMap.set i {| ws := c;
                     name := if truthy (prop "slaveName" message)
                             then default (key_json i) (prop "slaveName" message)
                             else key_json i;
                     connectedAt := now; lastPing := now; authenticated := true |}
                (slaves (tm w)) ∧
    pendingRequests (tm w') = pendingRequests (tm w) ∧
    tunnels (tm w') = tunnels (tm w) ∧
    conns w' = conns w ∧
    timers w' = delete t (timers w) ∧
    socks w' = socks w0 ∧
    send c (auth_success (key_json i)) ∈ es.
Proof.
  intros H1 H2 H3 i w0. unfold handleAuth. rewrite H1, H2, H3. simpl.
  pose proof (key_of_tm (default JNull (prop "slaveId" message)) w) as Htm.
  pose proof (key_of_socks (default JNull (prop "slaveId" message)) w) as Hso.
  pose proof (key_of_conns (default JNull (prop "slaveId" message)) w) as Hco.
  pose proof (key_of_timers (default JNull (prop "slaveId" message)) w) as Hti.
  unfold w0, i. clear w0 i.
  destruct (key_of _ w) as [i w1]. simpl in *. rewrite Htm.
  unfold sock_open. rewrite Hso.
  destruct (JsMap.get i (slaves (tm w))) as [old|];
    [destruct (is_open (socks w) (ws old)) eqn:Hopen|];
    do 2 eexists; (split; [reflexivity|]); simpl;
    rewrite ?js_close_tm, ?js_close_conns, ?js_close_timers, ?Htm, ?Hco, ?Hti.
  - split_and!; try done; try (by set_solver).
    unfold js_close, ready. rewrite Hso.
    destruct (default CLOSED (socks w !! ws old)); simpl; by rewrite Hso.
  - split_and!; try done; try (by set_solver).
  - split_and!; try done; try (by set_solver).
Qed.

Lemma message_handler_parsed c data now w k message :
  conns w !! c = Some k → JSON_parse data = Some message → message ≠ JNull →
  message_handler JSON_parse c data now w = dispatch c message k now w.
Proof.
  intros Hc Hp Hn. unfold message_handler. rewrite Hc, Hp. by destruct message.
Qed.

Lemma handleAuth_inr_inv c message t now w i w' es :
  handleAuth c message t now w = inr (i, w', es) →
  truthy (prop "slaveId" message) = true ∧
  truthy (prop "secret" message) = true ∧
  secret_matches (prop "secret" message) (secret (tm w)) = true.
Proof.
  unfold handleAuth. intros H.
  destruct (truthy (prop "slaveId" message)) eqn:H1; [|done].
  destruct (truthy (prop "secret" message)) eqn:H2; [|done].
  by destruct (secret_matches _ _) eqn:H3.
Qed.
End handshake.

(** X1.  Before a connection has authenticated, the only frame that changes
    anything is an [auth] frame that carries a slave id (any truthy value)
    and the right secret: every other frame, alone in its chunk, leaves the
    manager (registry, pending requests, tunnels), the connection states and
    the timers as they were, and does nothing but log or close that
    connection with code 4002 or 4003. *)
Theorem unauthenticated_frame_is_harmless
    (JSON_parse : string → option json) (w : Master.world) (c : sock)
    (k : Master.connection) (data : string) (now : Z) :
  Master.conns w !! c = Some k → Master.conn_authenticated k = false →
  let r := Master.step JSON_parse (Master.ev_message c data now) w in
  (∃ message,
      JSON_parse data = Some message ∧ is_str (prop "type" message) "auth" = true ∧
      truthy (prop "slaveId" message) = true ∧
      truthy (prop "secret" message) = true ∧
      Master.secret_matches (prop "secret" message) (Master.secret (Master.tm w)) = true) ∨
  (Master.tm r.1 = Master.tm w ∧ Master.conns r.1 = Master.conns w ∧
   Master.timers r.1 = Master.timers w ∧
   ∀ e, e ∈ r.2 → log_or_refusal c e).
Proof.
  intros Hc Hk r. unfold r. cbn [Master.step]. rewrite deliver_one.
  destruct (JSON_parse data) as [message|] eqn:Hp.
  2:{ right. unfold Master.message_handler. rewrite Hc, Hp. simpl. split_and!; try done.
      intros e ->%list_elem_of_singleton. left. by eexists. }
  assert (message = JNull ∨ message ≠ JNull) as [->|Hn]
    by (destruct message; [by left | by right..]).
  { right. unfold Master.message_handler. rewrite Hc, Hp. simpl. split_and!; try done.
    intros e ->%list_elem_of_singleton. left. by eexists. }
  rewrite (message_handler_parsed JSON_parse c data now w k message Hc Hp Hn).
  unfold dispatch. rewrite Hk. simpl.
  destruct (is_str (prop "type" message) "auth") eqn:Ht.
  - destruct (Master.handleAuth _ _ _ _ _) as [err|[[i w'] es]] eqn:Hauth.
    + right. simpl.
      rewrite js_close_tm, js_close_conns, js_close_timers. split_and!; try done.
      intros e [->|[->|[]%elem_of_nil]%elem_of_cons]%elem_of_cons.
      * left. by eexists.
      * right. by left.
    + left. exists message. apply handleAuth_inr_inv in Hauth. naive_solver.
  - right. simpl.
    rewrite js_close_tm, js_close_conns, js_close_timers. split_and!; try done.
    intros e ->%list_elem_of_singleton. right. by right.
Qed.

Lemma unauthenticated_frame_is_harmless_witness :
  let k := {| Master.conn_authenticated := false; Master.conn_slaveId := None;
              Master.authTimer := 1 |} in
  let data := Demo.auth_text "s9" "guess" in
  let r := Master.step Json.parse (Master.ev_message 3 data 1500) DemoX.newcomer in
  Master.conns DemoX.newcomer !! 3%nat = Some k ∧
  Master.conn_authenticated k = false ∧
  ((∃ message,
      Json.parse data = Some message ∧ is_str (prop "type" message) "auth" = true ∧
      truthy (prop "slaveId" message) = true ∧
      truthy (prop "secret" message) = true ∧
      Master.secret_matches (prop "secret" message)
        (Master.secret (Master.tm DemoX.newcomer)) = true) ∨
   (Master.tm r.1 = Master.tm DemoX.newcomer ∧
    Master.conns r.1 = Master.conns DemoX.newcomer ∧
    Master.timers r.1 = Master.timers DemoX.newcomer ∧
    ∀ e, e ∈ r.2 → log_or_refusal 3 e)).
Proof.
  intros k data r.
  assert (H1 : Master.conns DemoX.newcomer !! 3%nat = Some k) by (by vm_compute).
  split; [exact H1|]. split; [reflexivity|].
  exact (unauthenticated_frame_is_harmless Json.parse DemoX.newcomer 3 k data 1500
           H1 eq_refl).
Defined.



(** X3.  A connection that never authenticates is closed with code 4001
    when its deadline comes up: nothing but the two log lines and the close
    happens, the manager is untouched and the socket is closing. *)
Theorem silent_connection_closed_4001
    (JSON_parse : string → option json) (w : Master.world) (c : sock) :
  let r := Master.run JSON_parse
             [Master.ev_connection c; Master.ev_timer (Master.next_timer w)] w in
  r.2 = [Master.console "[TunnelManager] New connection attempt";
         Master.console "[TunnelManager] Authentication timeout, closing connection";
         Master.close c (Some (4001, "Authentication timeout"))] ∧
  Master.tm r.1 = Master.tm w ∧
  ready (Master.socks r.1) c = CLOSING ∧
  Master.timers r.1 !! Master.next_timer w = None.
Proof.
  simpl. rewrite lookup_insert_eq. simpl.
  unfold Master.auth_timeout. simpl. rewrite lookup_insert_eq. simpl.
  unfold Master.js_close, ready. simpl. rewrite lookup_insert_eq. simpl.
  rewrite lookup_insert_eq. split_and!; try done.
  by rewrite lookup_delete_eq.
Qed.

(** ** WebSocket tunnels on the master (createWsTunnel and its handlers) *)

Section tunnels.
Import Master.

Lemma connected_slave_open i w s :
  connected_slave i w = Some s →
  JsMap.get (str_key i) (slaves (tm w)) = Some s ∧ sock_open w (ws s) = true.
Proof.
  unfold connected_slave. destruct (JsMap.get (str_key i) _) as [s'|]; [|done].
  destruct (sock_open w (ws s')) eqn:H; [|done]. by intros [= ->].
Qed.

Lemma connected_slave_None i w :
  connected_slave i w = None ↔ isSlaveConnected i w = false.
Proof.
  unfold connected_slave, isSlaveConnected.
  destruct (JsMap.get (str_key i) _) as [s|]; [|done]. by destruct (sock_open w (ws s)).
Qed.

Lemma sock_open_eq w w' s : socks w = socks w' → sock_open w s = sock_open w' s.
Proof. unfold sock_open. by intros ->. Qed.

Lemma elem_of_concat_map {A B} (f : A → list B) (l : list A) (x : A) (y : B) :
  x ∈ l → y ∈ f x → y ∈ concat (map f l).
Proof.
  induction l as [|a l IH]; simpl; [by intros ?%elem_of_nil|].
  intros [->|Hin]%elem_of_cons Hy; apply elem_of_app; [by left | right; by apply IH].
Qed.
End tunnels.

(** X4.  A tunnel opened for a connected slave is recorded under its id and
    announced to the slave with [ws_tunnel_open]; other tunnels are not
    touched.  From then on a [ws_data] frame for that id is written to the
    user's socket if it is open and dropped otherwise, and what the user's
    socket receives goes to the slave as [ws_message] with that id.  A
    [ws_tunnel_closed] frame for the id removes the record and closes the
    user's socket; later data for the id finds no tunnel and is only
    logged. *)
Theorem tunnel_lifecycle
    (w : Master.world) (i : string) (l : sock) (chan : string) (token : option string)
    (t : string) (s : Master.slave) :
  Master.connected_slave i w = Some s →
  let r := Master.createWsTunnel i l chan token t w in
  r.2 = [Master.send (Master.ws s) (Master.ws_tunnel_open t chan token)] ∧
  JsMap.get t (Master.tunnels (Master.tm r.1))
  = Some {| Master.slaveId := i; Master.localWs := l; Master.channel := chan |} ∧
  (∀ t', t' ≠ t → JsMap.get t' (Master.tunnels (Master.tm r.1))
                  = JsMap.get t' (Master.tunnels (Master.tm w))) ∧
  (∀ message, as_id (prop "tunnelId" message) = Some t →
     Master.handleWsTunnelData message r.1
     = (r.1, if Master.sock_open w l
             then [Master.send_local l (prop "data" message)] else [])) ∧
  (∀ data, Master.send (Master.ws s) (Master.ws_message t data)
           ∈ (Master.local_message l data r.1).2) ∧
  (∀ message, as_id (prop "tunnelId" message) = Some t →
     let r2 := Master.handleWsTunnelClosed message r.1 in
     JsMap.get t (Master.tunnels (Master.tm r2.1)) = None ∧
     r2.2 = (if Master.sock_open w l then [Master.close l None] else []) ∧
     Master.sock_open r2.1 l = false ∧
     ∀ message', as_id (prop "tunnelId" message') = Some t →
       Master.handleWsTunnelData message' r2.1
       = (r2.1, [Master.console ("[TunnelManager] No tunnel found for "
                                 +:+ Master.show (prop "tunnelId" message'))])).
Proof.
  intros Hs r. destruct (connected_slave_open i w s Hs) as [Hget Hopen].
  unfold r, Master.createWsTunnel. rewrite Hs. simpl. split_and!.
  - done.
  - apply JsMap_get_set_eq.
  - intros t' Hne. by apply JsMap_get_set_ne.
  - intros message Hm. unfold Master.handleWsTunnelData. rewrite Hm. simpl.
    rewrite JsMap_get_set_eq. simpl. rewrite (sock_open_eq _ w); [|done].
    by destruct (Master.sock_open w l).
  - intros data. unfold Master.local_message. simpl.
    apply (elem_of_concat_map _ _ (Master.ws s, t)).
    + unfold Master.registered. simpl. apply list_elem_of_fmap.
      exists (l, (Master.ws s, t)). split; [done|].
      apply list_elem_of_filter. split; [done|]. apply elem_of_app. right. left.
    + unfold Master.local_message_1. simpl.
      rewrite (sock_open_eq _ w); [|done]. rewrite Hopen. left.
  - intros message Hm. unfold Master.handleWsTunnelClosed. rewrite Hm. simpl.
    rewrite JsMap_get_set_eq. simpl. rewrite (sock_open_eq _ w); [|done].
    destruct (Master.sock_open w l) eqn:Hl; simpl.
    + split_and!; [apply JsMap_get_delete_eq | done | |].
      * rewrite (sock_open_eq _ (Master.js_close l w)).
        -- rewrite sock_open_js_close.
           rewrite (bool_decide_eq_false_2 (l ≠ l)); [|naive_solver].
           apply andb_false_r.
        -- unfold Master.js_close. simpl. by destruct (ready _ _).
      * intros message' Hm'. unfold Master.handleWsTunnelData. rewrite Hm'. simpl.
        rewrite js_close_tm. simpl. by rewrite JsMap_get_delete_eq.
    + split_and!; [apply JsMap_get_delete_eq | done | by rewrite (sock_open_eq _ w) |].
      intros message' Hm'. unfold Master.handleWsTunnelData. rewrite Hm'. simpl.
      by rewrite JsMap_get_delete_eq.
Qed.

Lemma tunnel_lifecycle_witness :
  let s := {| Master.ws := 1; Master.name := JStr "Slave one";
              Master.connectedAt := 1000; Master.lastPing := 1000;
              Master.authenticated := true |} in
  let r := Master.createWsTunnel "s1" 7 "shell" (Some "T") "t1" DemoX.user_waiting in
  Master.connected_slave "s1" DemoX.user_waiting = Some s ∧
  r.2 = [Master.send 1 (Master.ws_tunnel_open "t1" "shell" (Some "T"))] ∧
  JsMap.get "t1" (Master.tunnels (Master.tm r.1))
  = Some {| Master.slaveId := "s1"; Master.localWs := 7; Master.channel := "shell" |}.
Proof.
  intros s r.
  assert (H : Master.connected_slave "s1" DemoX.user_waiting = Some s) by (by vm_compute).
  destruct (tunnel_lifecycle DemoX.user_waiting "s1" 7 "shell" (Some "T") "t1" s H)
    as (G1 & G2 & _).
  by split_and!.
Defined.

(** X5.  When the slave is not connected (no record under the id, or a
    record whose socket is not open) neither entry point of the manager
    does anything: [createWsTunnel] throws and [forwardHttpRequest] rejects,
    both with "Slave <id> not connected", and the manager is left without a
    new tunnel, pending request or timer. *)
Theorem not_connected_is_refused (w : Master.world) (i : string) :
  Master.isSlaveConnected i w = false →
  (∀ l chan token t,
     Master.createWsTunnel i l chan token t w
     = (w, [Master.throw ("Slave " +:+ i +:+ " not connected")])) ∧
  (∀ rq requestId,
     Master.forwardHttpRequest i rq requestId w
     = (w, [Master.reject requestId ("Slave " +:+ i +:+ " not connected")])).
Proof.
  intros H%connected_slave_None.
  unfold Master.createWsTunnel, Master.forwardHttpRequest. by rewrite H.
Qed.

Lemma not_connected_is_refused_witness :
  Master.isSlaveConnected "s1" (Master.step Json.parse (Master.ev_ready 1 CLOSING)
                                            Demo.s1_connected).1 = false ∧
  Master.forwardHttpRequest "s1" (Demo.get "/api/projects" ∅) "r1"
    (Master.step Json.parse (Master.ev_ready 1 CLOSING) Demo.s1_connected).1
  = ((Master.step Json.parse (Master.ev_ready 1 CLOSING) Demo.s1_connected).1,
     [Master.reject "r1" "Slave s1 not connected"]).
Proof.
  assert (H : Master.isSlaveConnected "s1"
                (Master.step Json.parse (Master.ev_ready 1 CLOSING)
                             Demo.s1_connected).1 = false) by (by vm_compute).
  split; [exact H|].
  exact (proj2 (not_connected_is_refused _ "s1" H) _ "r1").
Defined.

(** ** Tunnels and registry stay consistent *)

(** X6.  In every run of the master from a freshly constructed manager,
    every tunnel record names a slave that has a record in the registry,
    and no tunnel id is held twice: a tunnel is created only for a
    registered slave, and the step that removes a slave's record removes
    its tunnels. *)
Theorem tunnels_belong_to_registered_slaves
    (JSON_parse : string → option json) (opt_secret env_secret : option string)
    (opt_authTimeout opt_requestTimeout : option Z) (events : list Master.event) :
  let m := Master.new_TunnelManager opt_secret env_secret opt_authTimeout opt_requestTimeout in
  let w := (Master.run JSON_parse events (Master.init m)).1 in
  (∀ t tn, JsMap.get t (Master.tunnels (Master.tm w)) = Some tn →
           is_Some (JsMap.get (Master.str_key (Master.slaveId tn))
                           (Master.slaves (Master.tm w)))) ∧
  NoDup (JsMap.keys (Master.tunnels (Master.tm w))).
Proof.
  intros m w.
  destruct (run_tunnels JSON_parse events (Master.init m)) as [Ho Hnd].
  { split; [|constructor]. intros t tn Hin. simpl in Hin. by apply elem_of_nil in Hin. }
  split; [|exact Hnd].
  intros t tn Hget%JsMap_get_Some_elem.
  specialize (Ho t tn Hget). unfold JsMap.has in Ho.
  by destruct (JsMap.get _ _).
Qed.

(** ** A request across the tunnel and back *)

Section round_trip.
Import Master.

Lemma prop_response_requestId r st hs b :
  prop "requestId" (Wire.of_slave (Client.response (Some r) st hs b)) = Some (JStr r).
Proof. done. Qed.

Lemma client_send_open f cw c :
  Client.ws (Client.this cw) = Some c → Client.sock_open cw c = true →
  Client.send f cw = (cw, [Client.ws_send c f]).
Proof. unfold Client.send. by intros -> ->. Qed.

Lemma forward_send_pending c r rq body w :
  pendingRequests (tm (forward_send c r rq body w).1) !! r
  = Some {| timeout := next_timer w |}.
Proof. unfold forward_send. simpl. apply lookup_insert_eq. Qed.
End round_trip.

(** X7.  A GET or HEAD request for a connected slave, followed across both
    programs.  The master writes one [http_request] frame on the slave's
    socket; the slave, reading that frame, issues the local call with the
    same request id, method, path and (sanitized) headers and a null body;
    when the local call answers, the slave writes a [response] frame with
    that request id, and the master, reading it, resolves the promise of
    this request with the status, headers and body of the local answer,
    which the middleware relays (whatever the slave id [i] of the
    connection the frame arrives on).  When the local call fails, the promise is
    rejected with the failure's message and the middleware answers 502
    "Tunnel error"; with an empty message the promise is resolved without
    headers, and the answer is 502 as well. *)
Theorem http_request_round_trip
    (WebSocket_accepts : Client.target → bool)
    (w : Master.world) (t : string) (s : Master.slave) (rq : Master.request) (r : string)
    (cw : Client.world) (c : sock) (now : Z) (i : Master.slave_key) :
  Master.headers rq !! "x-target-slave" = Some t → t ≠ "" → t ≠ "local" →
  Master.connected_slave t w = Some s →
  Master.method rq = "GET" ∨ Master.method rq = "HEAD" →
  Client.ws (Client.this cw) = Some c → Client.sock_open cw c = true →
  let m1 := Router.createRequestRouter rq r w in
  let f := Master.http_request r (Master.method rq) (Master.url rq)
             (Master.sanitizeHeaders (Master.headers rq)) None in
  let c1 := Client.handleMessage WebSocket_accepts (Wire.of_master f) cw in
  m1.2 = Router.awaiting t r ∧
  Master.send (Master.ws s) f ∈ m1.1.2 ∧
  c1.2 = [Client.local_request (Some r) (Some (JStr (Master.method rq)))
            (Some (JStr (Master.url rq)))
            (Some (Wire.headers_json (Master.sanitizeHeaders (Master.headers rq))))
            (Some JNull)] ∧
  (∀ st hs b,
     let g := Client.response (Some r) st hs b in
     let resp := {| Master.status := Some (JNum st);
                    Master.res_headers := Some (JObj (map (λ kv, (kv.1, JStr kv.2)) hs));
                    Master.res_body := Some (JStr b) |} in
     let m2 := Master.handleSlaveMessage i (Wire.of_slave g) now m1.1.1 in
     (Client.local_done (Some r) (Client.local_ok st hs b) c1.1).2 = [Client.ws_send c g] ∧
     m2.2 = [Master.resolve r resp] ∧
     Master.pendingRequests (Master.tm m2.1) !! r = None ∧
     Router.resume t (Router.fulfilled resp) = ([], Router.relay resp)) ∧
  (∀ msg,
     let g := Client.response_error (Some r) msg in
     let m2 := Master.handleSlaveMessage i (Wire.of_slave g) now m1.1.1 in
     Client.ws_send c g ∈ (Client.local_done (Some r) (Client.local_failed msg) c1.1).2 ∧
     Master.pendingRequests (Master.tm m2.1) !! r = None ∧
     ∃ sett, Router.settlement r m2.2 = Some sett ∧
             (Router.resume t sett).2
             = Router.error_reply 502
                 (Router.tunnel_error_body t
                    (if String.eqb msg "" then "Cannot convert undefined or null to object"
                     else msg))).
Proof.
  intros Ht Ht1 Ht2 Hs Hm Hws Hopen m1 f c1.
  assert (Master.isSlaveConnected t w = true) as Hconn.
  { destruct (connected_slave_open _ _ _ Hs) as [Hg Ho].
    unfold Master.isSlaveConnected. by rewrite Hg. }
  assert (m1 = ((Master.forward_send (Master.ws s) r rq None w).1,
                (if includes "onboarding" (Master.originalUrl rq)
                 then [Master.console ("[RequestRouter] Onboarding request: "
                         +:+ Master.method rq +:+ " " +:+ Master.originalUrl rq
                         +:+ " target: " +:+ t)]
                 else []) ++ [Master.send (Master.ws s) f],
                Router.awaiting t r)) as Hm1.
  { unfold m1. rewrite (router_forwards rq r w t Ht Ht1 Ht2 Hconn).
    unfold Master.forwardHttpRequest. rewrite Hs.
    by destruct Hm as [-> | ->]. }
  assert (c1 = (Client.with_inflight (λ l, l ++ [Some r]) cw,
                [Client.local_request (Some r) (Some (JStr (Master.method rq)))
                   (Some (JStr (Master.url rq)))
                   (Some (Wire.headers_json (Master.sanitizeHeaders (Master.headers rq))))
                   (Some JNull)])) as Hc1 by done.
  rewrite Hm1, Hc1. cbn [fst snd].
  assert (∀ g, Client.local_done (Some r) g (Client.with_inflight (λ l, l ++ [Some r]) cw)
               = match g with
                 | Client.local_ok st hs b =>
                     (Client.with_inflight (Client.remove_first (Some r))
                        (Client.with_inflight (λ l, l ++ [Some r]) cw),
                      [Client.ws_send c (Client.response (Some r) st hs b)])
                 | Client.local_failed msg =>
                     (Client.with_inflight (Client.remove_first (Some r))
                        (Client.with_inflight (λ l, l ++ [Some r]) cw),
                      [Client.console ("[TunnelClient] Error forwarding request: " +:+ msg);
                       Client.ws_send c (Client.response_error (Some r) msg)])
                 end) as Hdone.
  { intros g. unfold Client.local_done.
    destruct (decide _) as [_|Hn]; [|exfalso; apply Hn; simpl; set_solver].
    destruct g; by rewrite (client_send_open _ _ c). }
  pose proof (forward_send_pending (Master.ws s) r rq None w) as Hp.
  split_and!; [done | set_solver | done | |].
  - intros st hs b. rewrite Hdone.
    assert (Master.handleSlaveMessage i
              (Wire.of_slave (Client.response (Some r) st hs b)) now
              (Master.forward_send (Master.ws s) r rq None w).1
            = (Master.with_pending (delete r)
                 (Master.clearTimeout (Master.next_timer w)
                    (Master.forward_send (Master.ws s) r rq None w).1),
               [Master.resolve r
                  {| Master.status := Some (JNum st);
                     Master.res_headers := Some (JObj (map (λ kv, (kv.1, JStr kv.2)) hs));
                     Master.res_body := Some (JStr b) |}])) as ->.
    { unfold Master.handleSlaveMessage, Master.handleHttpResponse.
      change (is_str _ "response") with true. cbv iota.
      rewrite prop_response_requestId. cbn [as_id mbind option_bind].
      by rewrite Hp. }
    split_and!; [done | done | apply lookup_delete_eq | done].
  - intros msg. rewrite Hdone.
    split; [set_solver|].
    unfold Master.handleSlaveMessage, Master.handleHttpResponse.
    change (is_str _ "response") with true. cbv iota.
    change (prop "requestId" (Wire.of_slave (Client.response_error (Some r) msg)))
      with (Some (JStr r)).
    cbn [as_id mbind option_bind]. rewrite Hp. cbn [fmap option_fmap option_map].
    change (prop "error" (Wire.of_slave (Client.response_error (Some r) msg)))
      with (Some (JStr msg)).
    cbn [truthy]. destruct (String.eqb msg "") eqn:E; cbn [negb fst snd].
    + split; [apply lookup_delete_eq|]. eexists. split.
      { simpl. destruct (decide (r = r)); [reflexivity | done]. }
      done.
    + split; [apply lookup_delete_eq|]. eexists. split.
      { simpl. destruct (decide (r = r)); [reflexivity | done]. }
      done.
Qed.

Lemma http_request_round_trip_witness :
  (Router.createRequestRouter Demo6.status_via_s1 "r1" Demo.s1_connected).2
  = Router.awaiting "s1" "r1" ∧
  (Client.handleMessage Demo5.any_url
     (Wire.of_master
        (Master.http_request "r1" "GET" "/api/cluster/status"
           (Master.sanitizeHeaders (Master.headers Demo6.status_via_s1)) None))
     Demo7.online).2
  = [Client.local_request (Some "r1") (Some (JStr "GET"))
       (Some (JStr "/api/cluster/status"))
       (Some (Wire.headers_json (Master.sanitizeHeaders (Master.headers Demo6.status_via_s1))))
       (Some JNull)].
Proof.
  assert (H1 : Master.headers Demo6.status_via_s1 !! "x-target-slave" = Some "s1")
    by (by vm_compute).
  assert (H2 : "s1" ≠ "") by discriminate.
  assert (H3 : "s1" ≠ "local") by discriminate.
  assert (H4 : Master.connected_slave "s1" Demo.s1_connected
               = Some {| Master.ws := 1; Master.name := JStr "Slave one";
                         Master.connectedAt := 1000; Master.lastPing := 1000;
                         Master.authenticated := true |}) by (by vm_compute).
  assert (H5 : Master.method Demo6.status_via_s1 = "GET"
               ∨ Master.method Demo6.status_via_s1 = "HEAD") by (by left).
  assert (H6 : Client.ws (Client.this Demo7.online) = Some 0%nat) by (by vm_compute).
  assert (H7 : Client.sock_open Demo7.online 0 = true) by (by vm_compute).
  destruct (http_request_round_trip Demo5.any_url Demo.s1_connected "s1" _
              Demo6.status_via_s1 "r1" Demo7.online 0%nat 0 (Master.str_key "s1")
              H1 H2 H3 H4 H5 H6 H7)
    as (G1 & _ & G3 & _).
  split; [exact G1 | exact G3].
Defined.

(** ** A WebSocket tunnel, seen from the slave *)

Section slave_tunnel.

Lemma client_sock_open_insert (cw : Client.world) (l c : sock) st :
  Client.sock_open cw c = true →
  Client.sock_open (Client.with_socks (<[l := OPEN]>) (Client.with_socks (<[l := st]>) cw)) c
  = true.
Proof.
  unfold Client.sock_open, is_open, ready. simpl. intros H.
  destruct (decide (c = l)) as [->|Hne].
  - by rewrite lookup_insert_eq.
  - by rewrite !lookup_insert_ne.
Qed.

Lemma client_js_close_this l (cw : Client.world) :
  Client.this (Client.js_close l cw) = Client.this cw.
Proof. unfold Client.js_close. by destruct (ready _ _). Qed.
End slave_tunnel.

(** X8.  A tunnel on the slave, driven by the frames of the master.  On
    [ws_tunnel_open] the slave dials its local server on /shell for the
    channel "shell" and on /ws for any other channel, passing the token
    unless it is missing or empty.  Until that local socket has opened, a
    [ws_message] frame for the tunnel is dropped without a trace.  Once it
    has opened, the data of a [ws_message] frame is written to it, and what
    it says goes to the master in a [ws_data] frame that the master hands
    to the user's socket of the tunnel.  A [ws_tunnel_close] frame closes
    the local socket and forgets the tunnel, so later data is dropped
    again. *)
Theorem slave_tunnel_lifecycle
    (WebSocket_accepts : Client.target → bool)
    (cw : Client.world) (c : sock) (t chan : string) (token : option string) :
  let to := Client.local_channel (Client.localPort (Client.this cw))
              (if String.eqb chan "shell" then "/shell" else "/ws")
              (match token with
               | Some tok => if String.eqb tok "" then None else Some (JStr tok)
               | None => None
               end) in
  let l := Client.next_sock cw in
  Client.ws (Client.this cw) = Some c → Client.sock_open cw c = true →
  JsMap.get (Some t) (Client.localTunnels (Client.this cw)) = None →
  WebSocket_accepts to = true →
  let c1 := Client.handleMessage WebSocket_accepts
              (Wire.of_master (Master.ws_tunnel_open t chan token)) cw in
  let c2 := Client.local_open l (Client.with_socks (<[l := OPEN]>) c1.1) in
  let c3 := Client.handleMessage WebSocket_accepts
              (Wire.of_master (Master.ws_tunnel_close t)) c2.1 in
  c1.2 = [Client.new_WebSocket l to] ∧
  (∀ data, Client.handleMessage WebSocket_accepts
             (Wire.of_master (Master.ws_message t data)) c1.1 = (c1.1, [])) ∧
  (∀ data, Client.handleMessage WebSocket_accepts
             (Wire.of_master (Master.ws_message t data)) c2.1
           = (c2.1, [Client.local_send l (Some (JStr data))])) ∧
  (∀ data, Client.local_message l data c2.1
           = (c2.1, [Client.ws_send c (Client.ws_data (Some t) data)])) ∧
  (∀ data i now mw tn,
     JsMap.get t (Master.tunnels (Master.tm mw)) = Some tn →
     Master.sock_open mw (Master.localWs tn) = true →
     Master.handleSlaveMessage i (Wire.of_slave (Client.ws_data (Some t) data)) now mw
     = (mw, [Master.send_local (Master.localWs tn) (Some (JStr data))])) ∧
  c3.2 = [Client.ws_close l] ∧
  Client.sock_open c3.1 l = false ∧
  (∀ data, Client.handleMessage WebSocket_accepts
             (Wire.of_master (Master.ws_message t data)) c3.1 = (c3.1, [])).
Proof.
  intros to l Hws Hopen Hfresh Hacc c1 c2 c3.
  assert (c1 = (Client.with_locals (<[l := Some t]>) (Client.fresh_sock cw).2,
                [Client.new_WebSocket l to])) as Hc1.
  { unfold c1, Client.handleMessage, Client.handleWsTunnelOpen.
    assert (prop "token" (Wire.of_master (Master.ws_tunnel_open t chan token))
            = JStr <$> token) as Htok by (by destruct token).
    assert (∀ k, k ≠ "token" →
              prop k (Wire.of_master (Master.ws_tunnel_open t chan token))
              = prop k (JObj [("type", JStr "ws_tunnel_open"); ("tunnelId", JStr t);
                              ("channel", JStr chan)])) as Hk.
    { intros k Hne. destruct token as [tok|]; [|done]. simpl.
      destruct (decide (k = "token")); [done|]. done. }
    rewrite Htok, !Hk by done.
    change (is_str (prop "type" _) "auth_success") with false.
    change (is_str (prop "type" _) "http_request") with false.
    change (is_str (prop "type" _) "ws_tunnel_open") with true. cbv iota.
    change (prop "channel" _) with (Some (JStr chan)).
    change (as_id (prop "tunnelId" _)) with (Some t).
    assert ((if truthy (JStr <$> token) then JStr <$> token else None)
            = match token with
              | Some tok => if String.eqb tok "" then None else Some (JStr tok)
              | None => None
              end) as ->.
    { destruct token as [tok|]; [|done]. simpl. by destruct (String.eqb tok ""). }
    cbn [is_str]. fold to. by rewrite Hacc. }
  clearbody c1. subst c1. cbn [fst snd] in *.
  set (w1 := Client.with_locals (<[l := Some t]>) (Client.fresh_sock cw).2) in *.
  assert (c2 = (Client.set_localTunnels
                  (JsMap.set (Some t) l (Client.localTunnels (Client.this cw)))
                  (Client.with_socks (<[l := OPEN]>) w1),
                [Client.console "[TunnelClient] Local WebSocket tunnel opened"])) as Hc2.
  { unfold c2, Client.local_open, w1. simpl. by rewrite lookup_insert_eq. }
  clearbody c2. subst c2. cbn [fst snd] in *.
  set (w2 := Client.set_localTunnels _ _) in *.
  assert (Client.sock_open w2 l = true) as Hl.
  { unfold Client.sock_open, is_open, ready, w2. simpl. by rewrite lookup_insert_eq. }
  assert (∀ w data,
            Client.handleMessage WebSocket_accepts
              (Wire.of_master (Master.ws_message t data)) w
            = match JsMap.get (Some t) (Client.localTunnels (Client.this w)) with
              | Some localWs =>
                  if Client.sock_open w localWs
                  then (w, [Client.local_send localWs (Some (JStr data))])
                  else (w, [])
              | None => (w, [])
              end) as Hmsg by done.
  assert (c3 = (Client.set_localTunnels
                  (JsMap.delete (Some t) (Client.localTunnels (Client.this w2)))
                  (Client.js_close l w2), [Client.ws_close l])) as Hc3.
  { unfold c3, Client.handleMessage, Client.handleWsTunnelClose.
    change (is_str (prop "type" _) "auth_success") with false.
    change (is_str (prop "type" _) "http_request") with false.
    change (is_str (prop "type" _) "ws_tunnel_open") with false.
    change (is_str (prop "type" _) "ws_message") with false.
    change (is_str (prop "type" _) "ws_tunnel_close") with true. cbv iota.
    change (as_id (prop "tunnelId" _)) with (Some t).
    unfold w2 at 1. simpl. rewrite JsMap_get_set_eq.
    by rewrite client_js_close_this. }
  clearbody c3. subst c3. cbn [fst snd].
  split_and!.
  - done.
  - intros data. rewrite Hmsg. unfold w1. simpl. by rewrite Hfresh.
  - intros data. rewrite Hmsg. unfold w2 at 1. simpl.
    by rewrite JsMap_get_set_eq, Hl.
  - intros data. unfold Client.local_message. unfold w2 at 1, w1. simpl.
    rewrite lookup_insert_eq. apply client_send_open; [done|].
    by apply client_sock_open_insert.
  - intros data i now mw tn Hget Ho.
    unfold Master.handleSlaveMessage, Master.handleWsTunnelData.
    change (is_str (prop "type" _) "response") with false.
    change (is_str (prop "type" _) "ws_data") with true. cbv iota.
    change (prop "tunnelId" _) with (Some (JStr t)).
    cbn [as_id mbind option_bind]. by rewrite Hget, Ho.
  - done.
  - unfold Client.sock_open, is_open, ready, Client.js_close, ready.
    unfold w2, w1. simpl. rewrite lookup_insert_eq. simpl. by rewrite lookup_insert_eq.
  - intros data. rewrite Hmsg. simpl. by rewrite JsMap_get_delete_eq.
Qed.

Lemma slave_tunnel_lifecycle_witness :
  (Client.handleMessage Demo5.any_url
     (Wire.of_master (Master.ws_tunnel_open "t1" "shell" (Some "T"))) Demo7.online).2
  = [Client.new_WebSocket 1
       (Client.local_channel "3001" "/shell" (Some (JStr "T")))].
Proof.
  assert (H1 : Client.ws (Client.this Demo7.online) = Some 0%nat) by (by vm_compute).
  assert (H2 : Client.sock_open Demo7.online 0 = true) by (by vm_compute).
  assert (H3 : JsMap.get (Some "t1") (Client.localTunnels (Client.this Demo7.online)) = None)
    by (by vm_compute).
  assert (H4 : Demo5.any_url
                 (Client.local_channel (Client.localPort (Client.this Demo7.online))
                    "/shell" (Some (JStr "T"))) = true) by reflexivity.
  destruct (slave_tunnel_lifecycle Demo5.any_url Demo7.online 0%nat "t1" "shell" (Some "T")
              H1 H2 H3 H4) as (G1 & _).
  exact G1.
Defined.

(** ** The handshake, both programs together *)

Section handshake_frames.
Import Master.

Lemma auth_frame_props i nm sec :
  let message := Wire.of_slave (Client.auth (Some i) nm (Some sec)) in
  prop "type" message = Some (JStr "auth") ∧
  prop "slaveId" message = Some (JStr i) ∧
  prop "secret" message = Some (JStr sec) ∧
  prop "slaveName" message = JStr <$> nm.
Proof. by destruct nm. Qed.

Lemma handleAuth_invalid_secret c message t now w :
  truthy (prop "slaveId" message) = true →
  truthy (prop "secret" message) = true →
  secret_matches (prop "secret" message) (secret (tm w)) = false →
  handleAuth c message t now w = inl "Invalid secret".
Proof. unfold handleAuth. by intros -> -> ->. Qed.

Lemma secret_matches_str sec expected :
  secret_matches (Some (JStr sec)) expected = bool_decide (expected = Some sec).
Proof.
  unfold secret_matches. destruct expected as [s0|]; [|done].
  destruct (String.eqb sec s0) eqn:E.
  - apply String.eqb_eq in E as ->. by rewrite bool_decide_eq_true_2.
  - apply String.eqb_neq in E. rewrite bool_decide_eq_false_2; [done|]. congruence.
Qed.

Lemma client_startPing (cw : Client.world) :
  let w := Client.startPing cw in
  Client.pingInterval (Client.this w) = Some (Client.next_timer cw) ∧
  Client.timers w !! Client.next_timer cw
  = Some {| Client.cb := Client.ping_tick; Client.delay := 30000; Client.repeats := true |} ∧
  Client.ws (Client.this w) = Client.ws (Client.this cw) ∧
  Client.authenticated (Client.this w) = Client.authenticated (Client.this cw) ∧
  Client.reconnectAttempts (Client.this w) = Client.reconnectAttempts (Client.this cw) ∧
  Client.isConnected w = Client.isConnected cw.
Proof.
  unfold Client.startPing, Client.stopPing.
  destruct (Client.pingInterval (Client.this cw)); simpl;
    by rewrite lookup_insert_eq.
Qed.
End handshake_frames.

(** X9.  The handshake across both programs.  When its control socket
    opens, a slave with a slave id and a secret writes one [auth] frame
    carrying them.  The master, reading that frame on a connection that has
    not authenticated, accepts it exactly when the secret equals its own:
    then the slave is registered under its id on that socket, named by its
    slave name or else by its id, and [auth_success] is written back; the
    slave, reading [auth_success], is connected, has its attempt counter at
    zero and a ping armed every 30 seconds.  With any other secret the
    registry is unchanged and the connection is closed with code 4002. *)
Theorem handshake_across_the_tunnel
    (JSON_parse : string → option json) (WebSocket_accepts : Client.target → bool)
    (cw : Client.world) (c : sock) (i sec : string)
    (mw : Master.world) (c' : sock) (k : Master.connection) (data : string) (now : Z) :
  Client.ws (Client.this cw) = Some c → Client.sock_open cw c = true →
  Client.slaveId (Client.this cw) = Some i → i ≠ "" →
  Client.secret (Client.this cw) = Some sec → sec ≠ "" →
  Master.conns mw !! c' = Some k → Master.conn_authenticated k = false →
  let a := Client.auth (Some i) (Client.slaveName (Client.this cw)) (Some sec) in
  JSON_parse data = Some (Wire.of_slave a) →
  let m1 := Master.step JSON_parse (Master.ev_message c' data now) mw in
  let c1 := Client.handleMessage WebSocket_accepts
              (Wire.of_master (Master.auth_success (JStr i))) cw in
  (Client.open_handler cw).2
  = [Client.console "[TunnelClient] Connected to master, authenticating...";
     Client.ws_send c a] ∧
  (Master.secret (Master.tm mw) = Some sec →
   JsMap.get (Master.str_key i) (Master.slaves (Master.tm m1.1))
   = Some {| Master.ws := c';
             Master.name := JStr (match Client.slaveName (Client.this cw) with
                                  | Some n => if String.eqb n "" then i else n
                                  | None => i
                                  end);
             Master.connectedAt := now; Master.lastPing := now;
             Master.authenticated := true |} ∧
   Master.send c' (Master.auth_success (JStr i)) ∈ m1.2 ∧
   Client.isConnected c1.1 = true ∧
   Client.reconnectAttempts (Client.this c1.1) = 0%nat ∧
   Client.timers c1.1 !! Client.next_timer cw
   = Some {| Client.cb := Client.ping_tick; Client.delay := 30000;
             Client.repeats := true |}) ∧
  (Master.secret (Master.tm mw) ≠ Some sec →
   Master.slaves (Master.tm m1.1) = Master.slaves (Master.tm mw) ∧
   Master.conns m1.1 = Master.conns mw ∧
   m1.2 = [Master.console "[TunnelManager] Auth failed: Invalid secret";
           Master.close c' (Some (4002, "Authentication failed"))]).
Proof.
  intros Hws Hopen Hid Hi Hsec Hs Hc Hk a Hp m1 c1.
  assert (Wire.of_slave a ≠ JNull) as Hn by done.
  destruct (auth_frame_props i (Client.slaveName (Client.this cw)) sec)
    as (Ht & Hsid & Hse & Hnm).
  fold a in Ht, Hsid, Hse, Hnm.
  assert (Hd : m1 = let '(w1, es, rs) := dispatch c' (Wire.of_slave a) k now mw in
                    let '(w2, es') := Master.settle c' rs w1 in (w2, es ++ es')).
  { unfold m1. cbn [Master.step]. rewrite deliver_one.
    by rewrite (message_handler_parsed JSON_parse c' data now mw k _ Hc Hp Hn). }
  assert (Ht1 : truthy (prop "slaveId" (Wire.of_slave a)) = true).
  { rewrite Hsid. simpl. by apply negb_true_iff, String.eqb_neq. }
  assert (Ht2 : truthy (prop "secret" (Wire.of_slave a)) = true).
  { rewrite Hse. simpl. by apply negb_true_iff, String.eqb_neq. }
  assert (Hdisp : dispatch c' (Wire.of_slave a) k now mw
                  = match Master.handleAuth c' (Wire.of_slave a) (Master.authTimer k)
                                            now mw with
                    | inr (i, w, es) => (w, es, [Master.auth_fulfilled i])
                    | inl err => (mw, [], [Master.auth_rejected err])
                    end).
  { unfold dispatch. rewrite Hk, Ht. reflexivity. }
  rewrite Hdisp in Hd. clear Hdisp.
  split_and!.
  - unfold Client.open_handler, Client.authenticate. rewrite Hid, Hsec.
    by rewrite (client_send_open _ _ c).
  - intros Hsame.
    assert (Hm : Master.secret_matches (prop "secret" (Wire.of_slave a))
                   (Master.secret (Master.tm mw)) = true).
    { rewrite Hse, secret_matches_str. by apply bool_decide_eq_true_2. }
    destruct (handleAuth_accepted c' (Wire.of_slave a) (Master.authTimer k) now mw
                Ht1 Ht2 Hm) as (w' & es & Hauth & Hsl & _ & _ & Hco & _ & _ & Hsend).
    rewrite Hsid in Hauth, Hsl, Hsend. cbn [default Master.key_of fst Master.key_json]
      in Hauth, Hsl, Hsend.
    rewrite Hauth in Hd.
    assert (Hm1 : m1 = (Master.then_reaction c' (Master.str_key i) w', es)).
    { rewrite Hd. unfold Master.settle. simpl. by rewrite app_nil_r. }
    destruct (client_startPing
                (Client.set_reconnectAttempts 0 (Client.set_authenticated true cw)))
      as (_ & Htm & Hws' & Hau & Hat & Hso).
    assert (c1.1 = Client.startPing
                     (Client.set_reconnectAttempts 0 (Client.set_authenticated true cw)))
      as Hc1 by done.
    split_and!.
    + rewrite Hm1. unfold Master.then_reaction. rewrite Hco, Hc. simpl.
      rewrite Hsl, JsMap_get_set_eq. f_equal. f_equal. rewrite Hnm.
      destruct (Client.slaveName (Client.this cw)) as [n|]; [|done]. simpl.
      by destruct (String.eqb n "").
    + by rewrite Hm1.
    + rewrite Hc1, Hso. unfold Client.isConnected. cbn. rewrite Hws.
      change (Client.sock_open cw c && true = true). by rewrite Hopen.
    + rewrite Hc1. by rewrite Hat.
    + rewrite Hc1. exact Htm.
  - intros Hdiff.
    assert (Hm : Master.secret_matches (prop "secret" (Wire.of_slave a))
                   (Master.secret (Master.tm mw)) = false).
    { rewrite Hse, secret_matches_str. by apply bool_decide_eq_false_2. }
    rewrite (handleAuth_invalid_secret c' _ _ now mw Ht1 Ht2 Hm) in Hd.
    rewrite Hd. simpl. by rewrite js_close_tm, js_close_conns.
Qed.

Lemma handshake_across_the_tunnel_witness :
  let a := Client.auth (Some "s1") (Some "s1") (Some "k3y") in
  let data := Json.stringify (Wire.of_slave a) in
  let m1 := Master.step Json.parse (Master.ev_message 3 data 1500) DemoX.newcomer in
  Json.parse data = Some (Wire.of_slave a) ∧
  (Client.open_handler Demo7.online).2
  = [Client.console "[TunnelClient] Connected to master, authenticating...";
     Client.ws_send 0 a] ∧
  JsMap.get (Master.str_key "s1") (Master.slaves (Master.tm m1.1))
  = Some {| Master.ws := 3; Master.name := JStr "s1";
            Master.connectedAt := 1500; Master.lastPing := 1500;
            Master.authenticated := true |}.
Proof.
  intros a data m1.
  assert (H1 : Client.ws (Client.this Demo7.online) = Some 0%nat) by (by vm_compute).
  assert (H2 : Client.sock_open Demo7.online 0 = true) by (by vm_compute).
  assert (H3 : Client.slaveId (Client.this Demo7.online) = Some "s1") by (by vm_compute).
  assert (H4 : "s1" ≠ "") by discriminate.
  assert (H5 : Client.secret (Client.this Demo7.online) = Some "k3y") by (by vm_compute).
  assert (H6 : "k3y" ≠ "") by discriminate.
  assert (H7 : Master.conns DemoX.newcomer !! 3%nat
               = Some {| Master.conn_authenticated := false; Master.conn_slaveId := None;
                         Master.authTimer := 1 |}) by (by vm_compute).
  assert (H8 : Json.parse data
               = Some (Wire.of_slave
                         (Client.auth (Some "s1")
                            (Client.slaveName (Client.this Demo7.online)) (Some "k3y"))))
    by (by vm_compute).
  assert (H9 : Master.secret (Master.tm DemoX.newcomer) = Some "k3y") by (by vm_compute).
  destruct (handshake_across_the_tunnel Json.parse Demo5.any_url Demo7.online 0%nat
              "s1" "k3y" DemoX.newcomer 3%nat _ data 1500
              H1 H2 H3 H4 H5 H6 H7 eq_refl H8) as (G1 & G2 & _).
  destruct (G2 H9) as (G3 & _).
  split_and!; [by vm_compute | exact G1 | exact G3].
Defined.

(** ** The cluster routes on a master *)

Section cluster_views.
Import Master.

Lemma getSlave_listed i w inf : getSlave i w = Some inf → inf ∈ getSlaves w.
Proof.
  unfold getSlave, getSlaves. destruct (JsMap.get (str_key i) _) as [s|] eqn:H; [|done].
  intros [= <-]. apply JsMap_get_Some_elem in H.
  apply list_elem_of_fmap. by exists (str_key i, s).
Qed.

Lemma getSlave_id i w inf : getSlave i w = Some inf → id inf = str_key i.
Proof.
  unfold getSlave. destruct (JsMap.get (str_key i) _); [|done]. by intros [= <-].
Qed.

Lemma JsMap_get_None_keys {K} `{EqDecision K} {V} (k : K) (m : list (K * V)) :
  JsMap.get k m = None → k ∉ JsMap.keys m.
Proof.
  unfold JsMap.keys. induction m as [|[k' v'] m IH]; simpl; [by intros _ ?%elem_of_nil|].
  destruct (decide (k = k')) as [->|Hne]; [done|].
  intros H. apply not_elem_of_cons. split; [done | by apply IH].
Qed.

Lemma getSlaves_ids w : map id (getSlaves w) = JsMap.keys (slaves (tm w)).
Proof.
  unfold getSlaves, JsMap.keys. induction (slaves (tm w)) as [|[k v] m IH]; [done|].
  simpl. by rewrite IH.
Qed.

Lemma isSlaveConnected_status i w inf :
  getSlave i w = Some inf →
  isSlaveConnected i w = bool_decide (info_status inf = "connected").
Proof.
  unfold getSlave, isSlaveConnected. destruct (JsMap.get (str_key i) _) as [s|]; [|done].
  intros [= <-]. simpl. unfold status_text. by destruct (sock_open w (ws s)).
Qed.
End cluster_views.

(** X10.  On a master, the views of the registry agree.  In every run from
    a freshly constructed manager, [getSlaves] lists no slave id twice, and
    GET /status counts every record, connected or not.  For an id other
    than "local": when the registry has a record, it is the one [getSlaves]
    lists, GET /slaves/:id answers 200 with it, and GET /slaves/:id/health
    answers 200 with [healthy] true exactly when the record's status is
    "connected"; when it has none, both answer 404 and no listed slave has
    that id. *)
Theorem cluster_views_agree
    (JSON_parse : string → option json) (opt_secret env_secret : option string)
    (opt_authTimeout opt_requestTimeout : option Z) (events : list Master.event)
    (env_DEPLOYMENT_MODE : option string) :
  let m := Master.new_TunnelManager opt_secret env_secret opt_authTimeout opt_requestTimeout in
  let w := (Master.run JSON_parse events (Master.init m)).1 in
  NoDup (map Master.id (Master.getSlaves w)) ∧
  prop "connectedSlaves"
       (ClusterRoutes.body (ClusterRoutes.get_status env_DEPLOYMENT_MODE (Some w)))
  = Some (JNum (Z.of_nat (length (Master.slaves (Master.tm w))))) ∧
  ∀ i, i ≠ "local" →
    match Master.getSlave i w with
    | Some inf =>
        inf ∈ Master.getSlaves w ∧ Master.id inf = Master.str_key i ∧
        ClusterRoutes.get_slave i (Some w)
        = {| ClusterRoutes.code := 200;
             ClusterRoutes.body := JObj [("success", JBool true);
                                         ("client", ClusterRoutes.client_json inf)] |} ∧
        ClusterRoutes.code (ClusterRoutes.get_health i (Some w)) = 200 ∧
        prop "healthy" (ClusterRoutes.body (ClusterRoutes.get_health i (Some w)))
        = Some (JBool (bool_decide (Master.info_status inf = "connected"))) ∧
        Master.isSlaveConnected i w = bool_decide (Master.info_status inf = "connected")
    | None =>
        (∀ inf, inf ∈ Master.getSlaves w → Master.id inf ≠ Master.str_key i) ∧
        ClusterRoutes.code (ClusterRoutes.get_slave i (Some w)) = 404 ∧
        ClusterRoutes.code (ClusterRoutes.get_health i (Some w)) = 404 ∧
        Master.isSlaveConnected i w = false
    end.
Proof.
  intros m w. split_and!.
  - rewrite getSlaves_ids. apply run_registry_NoDup. constructor.
  - unfold ClusterRoutes.get_status, Master.getSlaves. simpl.
    by rewrite length_map.
  - intros i Hi. apply String.eqb_neq in Hi.
    unfold ClusterRoutes.get_slave, ClusterRoutes.get_health. rewrite Hi.
    destruct (Master.getSlave i w) as [inf|] eqn:Hg.
    + pose proof (isSlaveConnected_status i w inf Hg) as Hs.
      split_and!; [by apply (getSlave_listed i) | by apply (getSlave_id _ w)
                  | done | done | by rewrite Hs | done].
    + split_and!; try done.
      * intros inf Hin Hid. unfold Master.getSlave in Hg.
        destruct (JsMap.get (Master.str_key i) _) eqn:Hget; [done|].
        apply JsMap_get_None_keys in Hget. apply Hget. rewrite <- Hid.
        rewrite <- getSlaves_ids. apply list_elem_of_fmap. by exists inf.
      * unfold Master.getSlave, Master.isSlaveConnected in *.
        by destruct (JsMap.get (Master.str_key i) _).
Qed.

(** ** From the browser's selection to the router *)

Section selection.
Import Master.

Lemma received_lookup_Some sent name v :
  received_unique sent name v →
  Api.received sent !! name = Some v.
Proof.
  intros (k0 & Hk0 & Hsent & Huniq). unfold Api.received.
  destruct (list_to_map _ !! name) as [v'|] eqn:E.
  - apply elem_of_list_to_map_2 in E.
    apply list_elem_of_fmap in E as ([k1 v1] & [= -> ->] & Hin).
    apply elem_of_map_to_list in Hin. simpl in *.
    assert (k1 = k0) as -> by (apply Huniq; [by eexists | done]).
    congruence.
  - apply not_elem_of_list_to_map_2 in E. exfalso. apply E.
    rewrite <- list_fmap_compose. apply list_elem_of_fmap.
    exists (k0, v). split; [by simpl|]. by apply elem_of_map_to_list.
Qed.

Lemma selected_header url fd plat token selected opts :
  Api.is_master_only url = false → selected ≠ "" → selected ≠ "local" →
  (∀ k, is_Some (opts !! k) → toLowerCase k ≠ "x-target-slave") →
  Api.received (Api.authenticatedFetch_headers url fd plat token selected opts)
    !! "x-target-slave" = Some selected.
Proof.
  intros Hm H1 H2 Hopts. apply received_lookup_Some.
  exists "X-Target-Slave". split; [done|]. split.
  - unfold Api.authenticatedFetch_headers. apply lookup_union_Some_raw. right. split.
    + destruct (opts !! "X-Target-Slave") eqn:E; [|done].
      exfalso. apply (Hopts "X-Target-Slave"); [by eexists | done].
    + unfold Api.defaultHeaders. rewrite Hm. cbn [negb].
      apply String.eqb_neq in H1, H2. rewrite H1, H2. cbn [negb andb].
      apply lookup_insert_eq.
  - intros k [v Hk] Hlow. unfold Api.authenticatedFetch_headers in Hk.
    apply lookup_union_Some_raw in Hk as [Hk|[_ Hk]].
    + exfalso. apply (Hopts k); [by eexists | done].
    + apply defaultHeaders_keys in Hk as [->|[->|[-> _]]]; done.
Qed.

Lemma unselected_header url fd plat token selected opts :
  selected = "" ∨ selected = "local" →
  (∀ k, is_Some (opts !! k) → toLowerCase k ≠ "x-target-slave") →
  Api.received (Api.authenticatedFetch_headers url fd plat token selected opts)
    !! "x-target-slave" = None.
Proof.
  intros Hsel Hopts. apply received_lookup_None.
  intros k [v Hk]. unfold Api.authenticatedFetch_headers in Hk.
  apply lookup_union_Some_raw in Hk as [Hk|[_ Hk]].
  - apply Hopts. by eexists.
  - revert Hk. unfold Api.defaultHeaders.
    assert (negb (String.eqb selected "") && negb (String.eqb selected "local") = false)
      as -> by (by destruct Hsel as [-> | ->]).
    destruct (negb (Api.is_master_only url)), fd, token as [t|]; simpl;
      try destruct (negb plat && _);
      rewrite ?lookup_insert_Some, ?lookup_empty; naive_solver.
Qed.
End selection.

(** X11.  How the client chosen in the browser decides the route.  For a
    URL outside /api/cluster/, /api/user/ and /api/auth/, sent by
    [authenticatedFetch] with caller headers that do not name the routing
    header themselves: with the selection "local" (or none) the request
    arrives without x-target-slave and the middleware hands it to the local
    chain; with any other selection it arrives with x-target-slave equal to
    the selection, and the middleware answers 503 when that slave is not
    connected and otherwise forwards it and awaits the slave's answer. *)
Theorem selected_client_decides_route
    (url : string) (is_form_data isPlatform : bool) (token : option string)
    (selected : string) (options_headers : gmap string string)
    (rq : Master.request) (requestId : string) (w : Master.world) :
  Api.is_master_only url = false →
  (∀ k, is_Some (options_headers !! k) → toLowerCase k ≠ "x-target-slave") →
  Master.headers rq
  = Api.received (Api.authenticatedFetch_headers url is_form_data isPlatform token
                                                 selected options_headers) →
  let r := Router.createRequestRouter rq requestId w in
  (selected = "" ∨ selected = "local" → r.1.1 = w ∧ r.2 = Router.next) ∧
  (selected ≠ "" → selected ≠ "local" →
   Master.headers rq !! "x-target-slave" = Some selected ∧
   (Master.isSlaveConnected selected w = false →
    r.1.1 = w ∧ r.2 = Router.json_reply 503 (Router.not_connected_body selected)) ∧
   (Master.isSlaveConnected selected w = true →
    r.1.1 = (Master.forwardHttpRequest selected rq requestId w).1 ∧
    r.2 = Router.awaiting selected requestId)).
Proof.
  intros Hm Hopts Hrq r. split.
  - intros Hsel. apply router_local. left. rewrite Hrq.
    by apply unselected_header.
  - intros H1 H2.
    assert (Master.headers rq !! "x-target-slave" = Some selected) as Hh.
    { rewrite Hrq. by apply selected_header. }
    split_and!; [done | |].
    + intros Hc. by apply router_not_connected.
    + intros Hc. unfold r. by rewrite (router_forwards rq requestId w selected Hh H1 H2 Hc).
Qed.

Lemma selected_client_decides_route_witness :
  let sent := Api.authenticatedFetch_headers "/api/projects" false false (Some "jwt") "s1" ∅ in
  let rq := {| Master.method := "GET"; Master.url := "/api/projects";
               Master.originalUrl := "/api/projects";
               Master.headers := Api.received sent |} in
  Api.is_master_only "/api/projects" = false ∧
  Master.isSlaveConnected "s1" Demo.s1_connected = true ∧
  (Router.createRequestRouter rq "r1" Demo.s1_connected).2 = Router.awaiting "s1" "r1".
Proof.
  intros sent rq.
  assert (H1 : Api.is_master_only "/api/projects" = false) by reflexivity.
  assert (H2 : ∀ k, is_Some ((∅ : gmap string string) !! k)
                    → toLowerCase k ≠ "x-target-slave").
  { intros k [v Hk]. by rewrite lookup_empty in Hk. }
  assert (H3 : Master.isSlaveConnected "s1" Demo.s1_connected = true) by (by vm_compute).
  assert (H4 : "s1" ≠ "") by discriminate.
  assert (H5 : "s1" ≠ "local") by discriminate.
  destruct (selected_client_decides_route "/api/projects" false false (Some "jwt") "s1" ∅
              rq "r1" Demo.s1_connected H1 H2 eq_refl) as [_ G].
  destruct (G H4 H5) as (_ & _ & G3).
  split_and!; [exact H1 | exact H3 | exact (proj2 (G3 H3))].
Defined.

(** ** Ping and pong *)

(** X12.  The keep-alive across both programs.  When the slave's ping
    interval comes up while its control socket is open, it writes one
    [ping] frame with the current time and stays as it was, the interval
    still armed.  The master, reading that frame on the authenticated
    connection of a registered slave, sets the record's [lastPing] to its
    own current time, leaves the record's other fields, all other records,
    the pending requests and the tunnels as they were, and writes one
    [pong] frame with the slave's timestamp on the socket of the record.
    The slave, reading [pong], changes nothing. *)
Theorem ping_refreshes_lastPing
    (JSON_parse : string → option json) (WebSocket_accepts : Client.target → bool)
    (cw : Client.world) (c : sock) (t : nat) (tmr : Client.timer) (random : Q) (now : Z)
    (mw : Master.world) (c' : sock) (k : Master.connection) (i : Master.slave_key)
    (s : Master.slave) (data : string) (now' : Z) :
  Client.ws (Client.this cw) = Some c → Client.sock_open cw c = true →
  Client.timers cw !! t = Some tmr →
  Client.cb tmr = Client.ping_tick → Client.repeats tmr = true →
  Master.conns mw !! c' = Some k → Master.conn_authenticated k = true →
  Master.conn_slaveId k = Some i →
  JsMap.get i (Master.slaves (Master.tm mw)) = Some s →
  JSON_parse data = Some (Wire.of_slave (Client.ping now)) →
  let m1 := Master.step JSON_parse (Master.ev_message c' data now') mw in
  Client.step JSON_parse WebSocket_accepts (Client.ev_timer t random now) cw
  = (cw, [Client.ws_send c (Client.ping now)]) ∧
  m1.2 = [Master.send (Master.ws s) (Master.pong (Some (JNum now)))] ∧
  JsMap.get i (Master.slaves (Master.tm m1.1))
  = Some {| Master.ws := Master.ws s; Master.name := Master.name s;
            Master.connectedAt := Master.connectedAt s; Master.lastPing := now';
            Master.authenticated := Master.authenticated s |} ∧
  (∀ j, j ≠ i → JsMap.get j (Master.slaves (Master.tm m1.1))
                = JsMap.get j (Master.slaves (Master.tm mw))) ∧
  (∀ i0, i = Master.str_key i0 →
     Master.getSlave i0 m1.1
     = Some {| Master.id := i; Master.info_name := Master.name s;
               Master.info_connectedAt := Master.connectedAt s;
               Master.info_lastPing := now';
               Master.info_status := Master.status_text mw s |} ∧
     (∀ j, j ≠ i0 → Master.getSlave j m1.1 = Master.getSlave j mw)) ∧
  Master.pendingRequests (Master.tm m1.1) = Master.pendingRequests (Master.tm mw) ∧
  Master.tunnels (Master.tm m1.1) = Master.tunnels (Master.tm mw) ∧
  Client.handleMessage WebSocket_accepts
    (Wire.of_master (Master.pong (Some (JNum now)))) cw = (cw, []).
Proof.
  intros Hws Hopen Ht Hcb Hrep Hc Hk Hid Hs Hp m1.
  assert (Wire.of_slave (Client.ping now) ≠ JNull) as Hn by done.
  assert (m1 = (Master.with_slaves (JsMap.set i
                  {| Master.ws := Master.ws s; Master.name := Master.name s;
                     Master.connectedAt := Master.connectedAt s;
                     Master.lastPing := now';
                     Master.authenticated := Master.authenticated s |}) mw,
                [Master.send (Master.ws s) (Master.pong (Some (JNum now)))])) as Hm1.
  { unfold m1. cbn [Master.step]. rewrite deliver_one.
    rewrite (message_handler_parsed JSON_parse c' data now' mw k _ Hc Hp Hn).
    unfold dispatch. rewrite Hk, Hid. cbn [negb].
    unfold Master.handleSlaveMessage.
    change (is_str _ "response") with false.
    change (is_str _ "ws_data") with false.
    change (is_str _ "ws_tunnel_closed") with false.
    change (is_str _ "ping") with true. cbv iota.
    unfold Master.handlePing. rewrite Hs. by cbn. }
  clearbody m1. subst m1. cbn [fst snd]. split_and!.
  - cbn [Client.step]. rewrite Ht, Hcb, Hrep.
    unfold Client.ping_callback. rewrite Hws, Hopen.
    by apply client_send_open.
  - done.
  - simpl. by rewrite JsMap_get_set_eq.
  - intros j Hj. simpl. by rewrite JsMap_get_set_ne.
  - intros i0 ->. split.
    + unfold Master.getSlave. simpl. by rewrite JsMap_get_set_eq.
    + intros j Hj. unfold Master.getSlave. simpl.
      rewrite JsMap_get_set_ne; [done|]. intros [= E]. by apply Hj.
  - done.
  - done.
  - done.
Qed.

Lemma ping_refreshes_lastPing_witness :
  let pinging := (Client.run Json.parse Demo5.any_url
                    [Client.ev_message 0
                       (Json.stringify (Wire.of_master (Master.auth_success (JStr "s1"))))]
                    Demo7.online).1 in
  let data := Json.stringify (Wire.of_slave (Client.ping 2000)) in
  let m1 := Master.step Json.parse (Master.ev_message 1 data 2001) Demo.s1_connected in
  Client.step Json.parse Demo5.any_url (Client.ev_timer 0 0 2000) pinging
  = (pinging, [Client.ws_send 0 (Client.ping 2000)]) ∧
  m1.2 = [Master.send 1 (Master.pong (Some (JNum 2000)))] ∧
  Master.getSlave "s1" m1.1
  = Some {| Master.id := Master.str_key "s1"; Master.info_name := JStr "Slave one";
            Master.info_connectedAt := 1000; Master.info_lastPing := 2001;
            Master.info_status := "connected" |}.
Proof.
  intros pinging data m1.
  assert (H1 : Client.ws (Client.this pinging) = Some 0%nat) by (by vm_compute).
  assert (H2 : Client.sock_open pinging 0 = true) by (by vm_compute).
  assert (H3 : Client.timers pinging !! 0%nat
               = Some {| Client.cb := Client.ping_tick; Client.delay := 30000;
                         Client.repeats := true |}) by (by vm_compute).
  assert (H4 : Master.conns Demo.s1_connected !! 1%nat
               = Some {| Master.conn_authenticated := true;
                         Master.conn_slaveId := Some (Master.str_key "s1");
                         Master.authTimer := 0 |}) by (by vm_compute).
  assert (H5 : JsMap.get (Master.str_key "s1") (Master.slaves (Master.tm Demo.s1_connected))
               = Some {| Master.ws := 1; Master.name := JStr "Slave one";
                         Master.connectedAt := 1000; Master.lastPing := 1000;
                         Master.authenticated := true |}) by (by vm_compute).
  assert (H6 : Json.parse data = Some (Wire.of_slave (Client.ping 2000)))
    by (by vm_compute).
  destruct (ping_refreshes_lastPing Json.parse Demo5.any_url pinging 0%nat 0%nat _ 0 2000
              Demo.s1_connected 1%nat _ (Master.str_key "s1") _ data 2001
              H1 H2 H3 eq_refl eq_refl H4 eq_refl eq_refl H5 H6)
    as (G1 & G2 & _ & _ & G5 & _).
  split_and!; [exact G1 | exact G2 |].
  etrans; [exact (proj1 (G5 "s1" eq_refl)) | by vm_compute].
Defined.

(** ** The timers of the slave *)

Section client_timers.
Import Client.
Variable JSON_parse : string → option json.
Variable WebSocket_accepts : target → bool.

Lemma same_timers_refl w : same_timers w w.
Proof. by split_and!. Qed.

Lemma same_timers_trans w1 w2 w3 :
  same_timers w1 w2 → same_timers w2 w3 → same_timers w1 w3.
Proof. unfold same_timers. intros (? & ? & ?) (? & ? & ?). split_and!; congruence. Qed.

Lemma same_timers_owned w w' : same_timers w w' → timers_owned w → timers_owned w'.
Proof.
  intros (Ht & Hr & Hp) Ho t tmr. rewrite Ht, Hr, Hp. apply Ho.
Qed.

Lemma send_same f w : same_timers w (send f w).1.
Proof. unfold send. split_cases; apply same_timers_refl. Qed.

Lemma js_close_same s w : same_timers w (js_close s w).
Proof. unfold js_close. destruct (ready _ _); by split_and!. Qed.

Lemma cleanupTunnels_same w : same_timers w (cleanupTunnels w).1.
Proof.
  unfold cleanupTunnels.
  enough (H : ∀ l w0 es, same_timers w0 (foldl close_local (w0, es) l).1).
  { specialize (H (localTunnels (this w)) w []).
    destruct (foldl close_local (w, []) (localTunnels (this w))) as [w1 es1].
    simpl in *. destruct H as (? & ? & ?). by split_and!. }
  induction l as [|entry l IH]; intros w0 es; simpl; [apply same_timers_refl|].
  destruct (sock_open w0 entry.2); [|apply IH].
  eapply same_timers_trans; [apply js_close_same | apply IH].
Qed.

Lemma stopPing_owned w : timers_owned w → timers_owned (stopPing w).
Proof.
  unfold stopPing. destruct (pingInterval (this w)) as [t0|] eqn:Hp; [|done].
  intros Ho t tmr. simpl. intros [Hne Ht]%lookup_delete_Some.
  destruct (Ho t tmr Ht) as [[? ?]|[? ?]]; [by left | congruence].
Qed.

Lemma stopPing_no_ping w :
  timers_owned w →
  ∀ t tmr, timers (stopPing w) !! t = Some tmr → cb tmr = reconnect.
Proof.
  unfold stopPing. intros Ho t tmr.
  destruct (pingInterval (this w)) as [t0|] eqn:Hp; simpl.
  - intros [Hne Ht]%lookup_delete_Some.
    destruct (Ho t tmr Ht) as [[? ?]|[? ?]]; [done | congruence].
  - intros Ht. destruct (Ho t tmr Ht) as [[? ?]|[? ?]]; [done | congruence].
Qed.

Lemma startPing_owned w : timers_owned w → timers_owned (startPing w).
Proof.
  intros Ho. pose proof (stopPing_owned w Ho) as Ho'.
  pose proof (stopPing_no_ping w Ho) as Hno.
  unfold startPing. destruct (stopPing w) as [th so ns ti nt co lo inf]. simpl in *.
  intros t tmr. simpl. intros [[<- <-]|[Hne Ht]]%lookup_insert_Some.
  - by right.
  - left. split; [by apply (Hno t)|].
    destruct (Ho' t tmr Ht) as [[? ?]|[Hc ?]]; [done|].
    rewrite (Hno t tmr Ht) in Hc. done.
Qed.

Lemma scheduleReconnect_owned random w :
  timers_owned w → timers_owned (scheduleReconnect random w).1.
Proof.
  intros Ho. unfold scheduleReconnect.
  destruct (reconnectTimer (this w)) as [t0|] eqn:Hr; simpl;
    intros t tmr; simpl; intros [[<- <-]|[Hne Ht]]%lookup_insert_Some;
    try (by left).
  - apply lookup_delete_Some in Ht as [Hne' Ht].
    destruct (Ho t tmr Ht) as [[? ?]|[? ?]]; [congruence | by right].
  - destruct (Ho t tmr Ht) as [[? ?]|[? ?]]; [congruence | by right].
Qed.

Lemma let_owned (p : world * list effect) (f : list effect → list effect) :
  timers_owned p.1 → timers_owned (let '(w, es) := p in (w, f es)).1.
Proof. by destruct p. Qed.

Lemma connect_owned random w :
  timers_owned w → timers_owned (connect WebSocket_accepts random w).1.
Proof.
  intros Ho. unfold connect.
  destruct (masterUrl (this w)) as [url|].
  - destruct (WebSocket_accepts _).
    + simpl. intros t tmr. simpl. apply Ho.
    + apply let_owned. by apply scheduleReconnect_owned.
  - apply let_owned. by apply scheduleReconnect_owned.
Qed.

Lemma handleMessage_owned message w :
  timers_owned w → timers_owned (handleMessage WebSocket_accepts message w).1.
Proof.
  intros Ho. unfold handleMessage.
  destruct (is_str _ "auth_success").
  { unfold handleAuthSuccess. simpl. apply startPing_owned.
    intros t tmr. simpl. apply Ho. }
  destruct (is_str _ "http_request").
  { unfold handleHttpRequest. simpl. intros t tmr. simpl. apply Ho. }
  destruct (is_str _ "ws_tunnel_open").
  { unfold handleWsTunnelOpen. destruct (WebSocket_accepts _).
    - simpl. intros t tmr. simpl. apply Ho.
    - apply let_owned. eapply same_timers_owned; [apply send_same | done]. }
  destruct (is_str _ "ws_message").
  { unfold handleWsMessage. by split_cases. }
  destruct (is_str _ "ws_tunnel_close").
  { unfold handleWsTunnelClose. destruct (JsMap.get _ _); [|done]. simpl.
    eapply same_timers_owned; [|exact Ho].
    destruct (js_close_same n w) as (? & ? & ?). by split_and!. }
  by destruct (is_str _ "pong").
Qed.

Lemma close_handler_owned random w :
  timers_owned w → timers_owned (close_handler random w).1.
Proof.
  intros Ho. unfold close_handler.
  assert (timers_owned (stopPing (set_authenticated false w))) as H1.
  { apply stopPing_owned. intros t tmr. simpl. apply Ho. }
  pose proof (cleanupTunnels_same (stopPing (set_authenticated false w))) as H2.
  destruct (cleanupTunnels _) as [w1 es1]. simpl in H2.
  pose proof (scheduleReconnect_owned random w1 (same_timers_owned _ _ H2 H1)) as H3.
  by destruct (scheduleReconnect random w1).
Qed.

Lemma stop_owned w : timers_owned w → timers_owned (stop w).1.
Proof.
  intros Ho. unfold stop.
  set (w0 := match reconnectTimer (this w) with
             | Some t => set_reconnectTimer None (clear t w)
             | None => w
             end).
  assert (timers_owned w0) as H0.
  { unfold w0. destruct (reconnectTimer (this w)) as [t0|] eqn:Hr; [|done].
    intros t tmr. simpl. intros [Hne Ht]%lookup_delete_Some.
    destruct (Ho t tmr Ht) as [[? ?]|[? ?]]; [congruence | by right]. }
  pose proof (stopPing_owned w0 H0) as H1.
  pose proof (cleanupTunnels_same (stopPing w0)) as H2.
  destruct (cleanupTunnels _) as [w1 es1]. simpl in H2.
  pose proof (same_timers_owned _ _ H2 H1) as H3.
  destruct (ws (this w1)) as [c|]; simpl.
  - eapply same_timers_owned; [|exact H3].
    destruct (js_close_same c w1) as (? & ? & ?). by split_and!.
  - intros t tmr. simpl. apply H3.
Qed.

Lemma step_owned e w :
  timers_owned w → timers_owned (step JSON_parse WebSocket_accepts e w).1.
Proof.
  intros Ho. destruct e; simpl.
  - unfold start. destruct (_ && _); [|done].
    apply let_owned. by apply connect_owned.
  - by apply stop_owned.
  - destruct (decide _); [|done]. unfold open_handler, authenticate.
    apply let_owned. eapply same_timers_owned; [apply send_same|].
    intros t tmr. simpl. apply Ho.
  - destruct (decide _); [|done]. unfold message_handler.
    destruct (JSON_parse data) as [message|]; [|done].
    destruct message; first [done | by apply handleMessage_owned].
  - destruct (decide _); [|done]. apply close_handler_owned.
    intros t tmr. simpl. apply Ho.
  - by destruct (decide _).
  - destruct (timers w !! t) as [tmr|] eqn:Ht; [|done].
    assert (timers_owned (if repeats tmr then w else with_timers (delete t) w)) as H1.
    { destruct (repeats tmr); [done|].
      intros t' tmr'. simpl. intros [Hne Ht']%lookup_delete_Some. by apply Ho. }
    destruct (cb tmr).
    + by apply connect_owned.
    + unfold ping_callback.
      destruct (ws (this _)) as [c0|]; [|done].
      destruct (sock_open _ c0); [|done].
      eapply same_timers_owned; [apply send_same | done].
  - unfold local_done. destruct (decide _); [|done].
    destruct r.
    + eapply same_timers_owned; [apply send_same|]. intros t tmr. simpl. apply Ho.
    + apply let_owned. eapply same_timers_owned; [apply send_same|].
      intros t tmr. simpl. apply Ho.
  - unfold local_open. simpl. destruct (locals w !! l); [|intros t tmr; simpl; apply Ho].
    intros t tmr. simpl. apply Ho.
  - unfold local_message. destruct (locals w !! l); [|done].
    eapply same_timers_owned; [apply send_same | done].
  - unfold local_close. simpl. destruct (locals w !! l); [|intros t tmr; simpl; apply Ho].
    apply let_owned. eapply same_timers_owned; [apply send_same|].
    intros t tmr. simpl. apply Ho.
  - by destruct (locals w !! l).
Qed.

Lemma run_owned es w :
  timers_owned w → timers_owned (run JSON_parse WebSocket_accepts es w).1.
Proof.
  revert w. induction es as [|e es IH]; intros w Ho; [done|].
  cbn [run]. pose proof (step_owned e w Ho) as H1.
  destruct (step JSON_parse WebSocket_accepts e w) as [w1 out1].
  specialize (IH w1 H1).
  by destruct (run JSON_parse WebSocket_accepts es w1) as [w2 out2].
Qed.
End client_timers.

(** X13.  The slave never leaks a timer.  In every run from a freshly
    constructed client, every armed timer is held by the client object: a
    reconnect timer is the one in [reconnectTimer], a ping interval the one
    in [pingInterval].  So at most one reconnect timer and at most one ping
    interval are armed at any time, whatever the order of connects,
    disconnects, frames and calls of [start] and [stop]. *)
Theorem slave_timers_are_held
    (JSON_parse : string → option json) (WebSocket_accepts : Client.target → bool)
    (opt_masterUrl opt_slaveId opt_slaveName opt_secret opt_localPort : option string)
    (env_MASTER_URL env_SLAVE_ID env_SLAVE_NAME env_CLUSTER_SECRET env_PORT : option string)
    (opt_baseDelay opt_maxDelay : option Q) (events : list Client.event) :
  let c := Client.new_TunnelClient opt_masterUrl opt_slaveId opt_slaveName opt_secret
             opt_localPort env_MASTER_URL env_SLAVE_ID env_SLAVE_NAME env_CLUSTER_SECRET
             env_PORT opt_baseDelay opt_maxDelay in
  let w := (Client.run JSON_parse WebSocket_accepts events (Client.init c)).1 in
  (∀ t tmr, Client.timers w !! t = Some tmr →
     match Client.cb tmr with
     | Client.reconnect => Client.reconnectTimer (Client.this w) = Some t
     | Client.ping_tick => Client.pingInterval (Client.this w) = Some t
     end) ∧
  (∀ t1 t2 tmr1 tmr2,
     Client.timers w !! t1 = Some tmr1 → Client.timers w !! t2 = Some tmr2 →
     Client.cb tmr1 = Client.cb tmr2 → t1 = t2).
Proof.
  intros c w.
  assert (timers_owned w) as Ho.
  { apply run_owned. intros t tmr Ht. simpl in Ht. by rewrite lookup_empty in Ht. }
  split.
  - intros t tmr Ht. destruct (Ho t tmr Ht) as [[-> ?]|[-> ?]]; done.
  - intros t1 t2 tmr1 tmr2 H1 H2 Hcb.
    destruct (Ho t1 tmr1 H1) as [[Hc1 Hp1]|[Hc1 Hp1]],
             (Ho t2 tmr2 H2) as [[Hc2 Hp2]|[Hc2 Hp2]]; congruence.
Qed.

(** ** Losing the connection, and stopping *)

Section client_disconnect.
Import Client.
Variable JSON_parse : string → option json.
Variable WebSocket_accepts : target → bool.

Lemma client_sock_open_js_close s s' w :
  sock_open (js_close s' w) s = true → sock_open w s = true ∧ s ≠ s'.
Proof.
  unfold sock_open, js_close, is_open, ready.
  destruct (socks w !! s') as [st|] eqn:Hs'; simpl.
  - destruct st; simpl; intros H%bool_decide_eq_true.
    + destruct (decide (s = s')) as [->|Hne].
      * by rewrite lookup_insert_eq in H.
      * rewrite lookup_insert_ne in H by done. split; [by apply bool_decide_eq_true|done].
    + destruct (decide (s = s')) as [->|Hne].
      * by rewrite lookup_insert_eq in H.
      * rewrite lookup_insert_ne in H by done. split; [by apply bool_decide_eq_true|done].
    + split; [by apply bool_decide_eq_true|]. intros ->. by rewrite Hs' in H.
    + split; [by apply bool_decide_eq_true|]. intros ->. by rewrite Hs' in H.
  - intros H%bool_decide_eq_true. split; [by apply bool_decide_eq_true|].
    intros ->. by rewrite Hs' in H.
Qed.

Lemma close_local_fold l w0 es :
  let r := foldl close_local (w0, es) l in
  this r.1 = this w0 ∧
  ∀ s, sock_open r.1 s = true → sock_open w0 s = true ∧ s ∉ l.*2.
Proof.
  revert w0 es. induction l as [|entry l IH]; intros w0 es; simpl.
  - split; [done|]. intros s Hs. split; [done | apply not_elem_of_nil].
  - destruct (sock_open w0 entry.2) eqn:Ho.
    + destruct (IH (js_close entry.2 w0) (es ++ [ws_close entry.2])) as [H1 H2].
      split; [by rewrite H1, client_js_close_this|].
      intros s Hs. destruct (H2 s Hs) as [H3 H4].
      apply client_sock_open_js_close in H3 as [H3 H5].
      split; [done|]. apply not_elem_of_cons. by split.
    + destruct (IH w0 es) as [H1 H2]. split; [done|].
      intros s Hs. destruct (H2 s Hs) as [H3 H4]. split; [done|].
      apply not_elem_of_cons. split; [|done]. intros ->. congruence.
Qed.

Lemma close_local_control l w es :
  control (foldl close_local (w, es) l).1 = control w.
Proof.
  revert w es. induction l as [|entry l IH]; intros w es; simpl; [done|].
  destruct (sock_open w entry.2); rewrite IH; [|done].
  unfold js_close. by destruct (ready _ _).
Qed.

Lemma cleanupTunnels_spec w :
  let r := cleanupTunnels w in
  localTunnels (this r.1) = [] ∧
  authenticated (this r.1) = authenticated (this w) ∧
  ws (this r.1) = ws (this w) ∧
  masterUrl (this r.1) = masterUrl (this w) ∧
  control r.1 = control w ∧
  (∀ s, sock_open r.1 s = true →
        sock_open w s = true ∧ s ∉ (localTunnels (this w)).*2).
Proof.
  unfold cleanupTunnels.
  destruct (close_local_fold (localTunnels (this w)) w []) as [H1 H2].
  pose proof (close_local_control (localTunnels (this w)) w []) as H3.
  destruct (foldl close_local (w, []) (localTunnels (this w))) as [w1 es1].
  simpl in *. rewrite H1. by split_and!.
Qed.

Lemma stopPing_fields w :
  let w' := stopPing w in
  pingInterval (this w') = None ∧
  authenticated (this w') = authenticated (this w) ∧
  ws (this w') = ws (this w) ∧
  masterUrl (this w') = masterUrl (this w) ∧
  reconnectTimer (this w') = reconnectTimer (this w) ∧
  localTunnels (this w') = localTunnels (this w) ∧
  control w' = control w ∧
  socks w' = socks w ∧ next_sock w' = next_sock w.
Proof. unfold stopPing. destruct (pingInterval (this w)) eqn:E; by split_and!. Qed.

Lemma scheduleReconnect_fields random w :
  let r := scheduleReconnect random w in
  pingInterval (this r.1) = pingInterval (this w) ∧
  authenticated (this r.1) = authenticated (this w) ∧
  ws (this r.1) = ws (this w) ∧
  masterUrl (this r.1) = masterUrl (this w) ∧
  localTunnels (this r.1) = localTunnels (this w) ∧
  control r.1 = control w ∧
  socks r.1 = socks w ∧ next_sock r.1 = next_sock w ∧
  reconnectTimer (this r.1) = Some (next_timer w) ∧
  ∃ tmr, timers r.1 !! next_timer w = Some tmr ∧ cb tmr = reconnect ∧ repeats tmr = false.
Proof.
  unfold scheduleReconnect. destruct (reconnectTimer (this w)); simpl;
    split_and!; try done; eexists; by rewrite lookup_insert_eq.
Qed.
End client_disconnect.

(** X14.  What the slave is left with when its control connection closes,
    in any state it can reach from a freshly constructed client: it is not
    authenticated and not connected, no ping interval is armed, the table
    of local tunnels is empty and none of the local sockets it held is
    open, and the only timer armed is the reconnect timer held in
    [reconnectTimer]. *)
Theorem disconnect_cleans_up
    (JSON_parse : string → option json) (WebSocket_accepts : Client.target → bool)
    (opt_masterUrl opt_slaveId opt_slaveName opt_secret opt_localPort : option string)
    (env_MASTER_URL env_SLAVE_ID env_SLAVE_NAME env_CLUSTER_SECRET env_PORT : option string)
    (opt_baseDelay opt_maxDelay : option Q) (events : list Client.event)
    (c : sock) (random : Q) :
  let c0 := Client.new_TunnelClient opt_masterUrl opt_slaveId opt_slaveName opt_secret
              opt_localPort env_MASTER_URL env_SLAVE_ID env_SLAVE_NAME env_CLUSTER_SECRET
              env_PORT opt_baseDelay opt_maxDelay in
  let w := (Client.run JSON_parse WebSocket_accepts events (Client.init c0)).1 in
  c ∈ Client.control w →
  let r := Client.step JSON_parse WebSocket_accepts (Client.ev_close c random) w in
  Client.authenticated (Client.this r.1) = false ∧
  Client.isConnected r.1 = false ∧
  Client.pingInterval (Client.this r.1) = None ∧
  Client.localTunnels (Client.this r.1) = [] ∧
  (∀ tid l, (tid, l) ∈ Client.localTunnels (Client.this w) →
            Client.sock_open r.1 l = false) ∧
  (∀ t tmr, Client.timers r.1 !! t = Some tmr →
            Client.cb tmr = Client.reconnect ∧
            Client.reconnectTimer (Client.this r.1) = Some t) ∧
  ∃ t tmr, Client.reconnectTimer (Client.this r.1) = Some t ∧
           Client.timers r.1 !! t = Some tmr.
Proof.
  intros c0 w Hc r.
  assert (timers_owned w) as Ho.
  { apply run_owned. intros t tmr Ht. simpl in Ht. by rewrite lookup_empty in Ht. }
  set (w0 := Client.set_authenticated false (Client.with_socks (<[c := CLOSED]>) w)).
  assert (timers_owned w0) as Ho0 by (intros t tmr; simpl; apply Ho).
  pose proof (stopPing_fields w0) as (P1 & P2 & P3 & P4 & P5 & P6 & P7 & P8 & P9).
  pose proof (stopPing_owned w0 Ho0) as Ho1.
  pose proof (stopPing_no_ping w0 Ho0) as Hno.
  pose proof (cleanupTunnels_spec (Client.stopPing w0)) as (C1 & C2 & C3 & C4 & C5 & C6).
  pose proof (cleanupTunnels_same (Client.stopPing w0)) as (S1 & S2 & S3).
  assert (r = (let '(w2, es1) := Client.cleanupTunnels (Client.stopPing w0) in
               let '(w3, es2) := Client.scheduleReconnect random w2 in
               (w3, Client.console "[TunnelClient] Disconnected from master" :: es1 ++ es2)))
    as Hr.
  { unfold r. cbn [Client.step]. by rewrite decide_True. }
  clearbody r. subst r.
  destruct (Client.cleanupTunnels (Client.stopPing w0)) as [w2 es1].
  cbv beta iota zeta. cbn [fst snd] in *.
  pose proof (scheduleReconnect_fields random w2)
    as (R1 & R2 & R3 & R4 & R5 & R6 & R7 & R8 & R9 & tmr0 & R10 & R11 & R12).
  assert (timers_owned (Client.scheduleReconnect random w2).1) as Ho3.
  { apply scheduleReconnect_owned. intros t tmr. rewrite S1, S2, S3. apply Ho1. }
  assert (∀ t tmr, Client.timers (Client.scheduleReconnect random w2).1 !! t = Some tmr →
                   Client.cb tmr = Client.reconnect) as Hno3.
  { intros t tmr. unfold Client.scheduleReconnect.
    destruct (Client.reconnectTimer (Client.this w2)); simpl;
      intros [[<- <-]|[Hne Ht]]%lookup_insert_Some; try done.
    - apply lookup_delete_Some in Ht as [_ Ht]. rewrite S1 in Ht. by apply (Hno t).
    - rewrite S1 in Ht. by apply (Hno t). }
  destruct (Client.scheduleReconnect random w2) as [w3 es2].
  cbv beta iota zeta. cbn [fst snd] in *.
  split_and!.
  - by rewrite R2, C2, P2.
  - unfold Client.isConnected. rewrite R2, C2, P2. simpl.
    destruct (Client.ws (Client.this w3)); [apply andb_false_r | done].
  - by rewrite R1, S3, P1.
  - by rewrite R5, C1.
  - intros tid l Hin. destruct (Client.sock_open w3 l) eqn:Hopen; [|done].
    exfalso. unfold Client.sock_open in Hopen. rewrite R7 in Hopen.
    destruct (C6 l Hopen) as [_ Hnot]. apply Hnot. rewrite P6. simpl.
    apply list_elem_of_fmap. by exists (tid, l).
  - intros t tmr Ht. split; [by apply (Hno3 t)|].
    destruct (Ho3 t tmr Ht) as [[? ?]|[Hcb ?]]; [done|].
    rewrite (Hno3 t tmr Ht) in Hcb. done.
  - exists (Client.next_timer w2), tmr0. by split.
Qed.

Lemma disconnect_cleans_up_witness :
  let r := Client.step Json.parse Demo5.any_url (Client.ev_close 0 (1 # 4)) Demo7.online in
  0%nat ∈ Client.control Demo7.online ∧
  Client.isConnected r.1 = false ∧
  Client.pingInterval (Client.this r.1) = None.
Proof.
  intros r.
  assert (H : 0%nat ∈ Client.control Demo7.online) by (by vm_compute).
  destruct (disconnect_cleans_up Json.parse Demo5.any_url
              None None None None None
              (Some "https://master.example/") (Some "s1") None (Some "k3y") None
              None None [Client.ev_start 0; Client.ev_open 0] 0%nat (1 # 4) H)
    as (_ & G2 & G3 & _).
  split_and!; [exact H | exact G2 | exact G3].
Defined.

(** X15.  [stop] closes the control socket and clears the client (no
    socket, not authenticated, no reconnect timer, no ping interval, no
    local tunnels), but it leaves the handlers of the socket in place: when
    the close event of that socket arrives afterwards, the close handler
    arms a reconnect timer as after any disconnect, and when that timer
    comes up the client dials the master again. *)
Theorem close_after_stop_reconnects
    (JSON_parse : string → option json) (WebSocket_accepts : Client.target → bool)
    (w : Client.world) (c : sock) (url : string) (random random' : Q) (now : Z) :
  Client.ws (Client.this w) = Some c → c ∈ Client.control w →
  Client.masterUrl (Client.this w) = Some url →
  WebSocket_accepts (Client.master_tunnel (Client.tunnelUrl url)) = true →
  let s := Client.stop w in
  let r := Client.step JSON_parse WebSocket_accepts (Client.ev_close c random) s.1 in
  Client.ws (Client.this s.1) = None ∧
  Client.authenticated (Client.this s.1) = false ∧
  Client.isConnected s.1 = false ∧
  Client.reconnectTimer (Client.this s.1) = None ∧
  Client.pingInterval (Client.this s.1) = None ∧
  Client.localTunnels (Client.this s.1) = [] ∧
  Client.ws_close c ∈ s.2 ∧
  ∃ t, Client.reconnectTimer (Client.this r.1) = Some t ∧
       let d := Client.step JSON_parse WebSocket_accepts
                  (Client.ev_timer t random' now) r.1 in
       d.2 = [Client.new_WebSocket (Client.next_sock r.1)
                (Client.master_tunnel (Client.tunnelUrl url))] ∧
       Client.ws (Client.this d.1) = Some (Client.next_sock r.1).
Proof.
  intros Hws Hc Hurl Hacc s r.
  set (w0 := match Client.reconnectTimer (Client.this w) with
             | Some t => Client.set_reconnectTimer None (Client.clear t w)
             | None => w
             end).
  assert (Client.reconnectTimer (Client.this w0) = None ∧
          Client.ws (Client.this w0) = Some c ∧
          Client.masterUrl (Client.this w0) = Some url ∧
          Client.control w0 = Client.control w) as (W1 & W2 & W3 & W4).
  { unfold w0. by destruct (Client.reconnectTimer (Client.this w)) eqn:E. }
  pose proof (stopPing_fields w0) as (P1 & P2 & P3 & P4 & P5 & P6 & P7 & P8 & P9).
  pose proof (cleanupTunnels_spec (Client.stopPing w0)) as (C1 & C2 & C3 & C4 & C5 & C6).
  pose proof (cleanupTunnels_same (Client.stopPing w0)) as (S1 & S2 & S3).
  assert (s = (let '(w1, es) := Client.cleanupTunnels (Client.stopPing w0) in
               let '(w2, es') := match Client.ws (Client.this w1) with
                                 | Some c => (Client.set_ws None (Client.js_close c w1),
                                              [Client.ws_close c])
                                 | None => (w1, [])
                                 end in
               (Client.set_authenticated false w2,
                Client.console "[TunnelClient] Stopping tunnel client" :: es ++ es')))
    as Hs by done.
  destruct (Client.cleanupTunnels (Client.stopPing w0)) as [w1 es1].
  cbn [fst snd] in *. rewrite C3, P3, W2 in Hs. cbv beta iota zeta in Hs.
  set (w3 := Client.set_authenticated false (Client.set_ws None (Client.js_close c w1))) in *.
  assert (Client.masterUrl (Client.this w3) = Some url ∧ Client.control w3 = Client.control w
          ∧ Client.reconnectTimer (Client.this w3) = None
          ∧ Client.pingInterval (Client.this w3) = None
          ∧ Client.localTunnels (Client.this w3) = []) as (M1 & M2 & M3 & M4 & M5).
  { unfold w3. simpl. rewrite client_js_close_this.
    destruct (js_close_same c w1) as (_ & _ & _).
    assert (Client.control (Client.js_close c w1) = Client.control w1) as ->
      by (unfold Client.js_close; by destruct (ready _ _)).
    rewrite C4, P4, W3, C5, P7, W4, S2, P5, W1, S3, P1, C1. by split_and!. }
  clearbody s. subst s. cbn [fst snd] in *.
  split_and!; [done | done | done | done | done | done | set_solver |].
  assert (r = Client.close_handler random
                (Client.with_socks (<[c := CLOSED]>) w3)) as Hr.
  { unfold r. cbn [Client.step]. rewrite decide_True; [done|]. by rewrite M2. }
  clearbody r. subst r. unfold Client.close_handler.
  set (w4 := Client.stopPing _).
  pose proof (stopPing_fields (Client.set_authenticated false
                                 (Client.with_socks (<[c := CLOSED]>) w3)))
    as (_ & _ & _ & Q4 & _).
  fold w4 in Q4.
  pose proof (cleanupTunnels_spec w4) as (_ & _ & _ & D4 & _).
  destruct (Client.cleanupTunnels w4) as [w5 es5]. cbn [fst snd] in *.
  pose proof (scheduleReconnect_fields random w5)
    as (_ & _ & _ & R4 & _ & _ & _ & _ & R9 & tmr & R10 & R11 & R12).
  destruct (Client.scheduleReconnect random w5) as [w6 es6]. cbn [fst snd] in *.
  exists (Client.next_timer w5). split; [done|].
  cbn [Client.step]. rewrite R10, R11, R12.
  unfold Client.connect. cbn [Client.this Client.with_timers Client.masterUrl].
  rewrite R4, D4, Q4.
  change (Client.masterUrl (Client.this (Client.set_authenticated false
            (Client.with_socks (<[c := CLOSED]>) w3))))
    with (Client.masterUrl (Client.this w3)).
  by rewrite M1, Hacc.
Qed.

Lemma close_after_stop_reconnects_witness :
  let s := Client.stop Demo7.online in
  let r := Client.step Json.parse Demo5.any_url (Client.ev_close 0 (1 # 4)) s.1 in
  Client.ws (Client.this Demo7.online) = Some 0%nat ∧
  Client.isConnected s.1 = false ∧
  ∃ t, Client.reconnectTimer (Client.this r.1) = Some t ∧
       (Client.step Json.parse Demo5.any_url (Client.ev_timer t 0 9000) r.1).2
       = [Client.new_WebSocket (Client.next_sock r.1)
            (Client.master_tunnel (Client.tunnelUrl "https://master.example/"))].
Proof.
  intros s r.
  assert (H1 : Client.ws (Client.this Demo7.online) = Some 0%nat) by (by vm_compute).
  assert (H2 : 0%nat ∈ Client.control Demo7.online) by (by vm_compute).
  assert (H3 : Client.masterUrl (Client.this Demo7.online) = Some "https://master.example/")
    by (by vm_compute).
  destruct (close_after_stop_reconnects Json.parse Demo5.any_url Demo7.online 0%nat
              "https://master.example/" (1 # 4) 0 9000 H1 H2 H3 eq_refl)
    as (_ & _ & G3 & _ & _ & _ & _ & t & G8 & G9 & _).
  split_and!; [exact H1 | exact G3 |]. exists t. by split.
Defined.

(** ** The tunnel URL *)

Section tunnel_url.
Import Client.

Lemma drop_last_slash_snoc_slash u : drop_last_slash (u +:+ "/") = u.
Proof.
  induction u as [|a u IH]; [done|].
  change (String a u +:+ "/") with (String a (u +:+ "/")).
  cbn [drop_last_slash]. rewrite IH. by destruct u.
Qed.

Lemma drop_last_slash_snoc_other u c :
  c ≠ "/"%char → drop_last_slash (u +:+ String c "") = u +:+ String c "".
Proof.
  intros Hc. induction u as [|a u IH].
  - simpl. apply Ascii.eqb_neq in Hc. by rewrite Hc.
  - change (String a u +:+ String c "") with (String a (u +:+ String c "")).
    cbn [drop_last_slash]. rewrite IH. by destruct u.
Qed.
End tunnel_url.

(** X16.  The URL the slave dials.  One trailing slash of the master URL
    gives way to the path /cluster/tunnel, so a master URL with and without
    a trailing slash lead to the same tunnel URL; only the last slash is
    dropped, and an empty master URL gives the bare path.  This is the URL
    [connect] hands to the WebSocket constructor, and the socket it returns
    becomes the control socket. *)
Theorem tunnel_url_ignores_trailing_slash
    (WebSocket_accepts : Client.target → bool) :
  (∀ u, Client.tunnelUrl (u +:+ "/") = u +:+ "/cluster/tunnel") ∧
  (∀ u c, c ≠ "/"%char →
          Client.tunnelUrl (u +:+ String c "") = (u +:+ String c "") +:+ "/cluster/tunnel") ∧
  Client.tunnelUrl "" = "/cluster/tunnel" ∧
  (∀ u random w,
     Client.masterUrl (Client.this w) = Some (u +:+ "/") →
     WebSocket_accepts (Client.master_tunnel (u +:+ "/cluster/tunnel")) = true →
     let r := Client.connect WebSocket_accepts random w in
     r.2 = [Client.new_WebSocket (Client.next_sock w)
              (Client.master_tunnel (u +:+ "/cluster/tunnel"))] ∧
     Client.ws (Client.this r.1) = Some (Client.next_sock w) ∧
     Client.next_sock w ∈ Client.control r.1).
Proof.
  split_and!.
  - intros u. unfold Client.tunnelUrl. by rewrite drop_last_slash_snoc_slash.
  - intros u c Hc. unfold Client.tunnelUrl. by rewrite drop_last_slash_snoc_other.
  - done.
  - intros u random w Hu Hacc. unfold Client.connect. rewrite Hu.
    unfold Client.tunnelUrl. rewrite drop_last_slash_snoc_slash, Hacc. simpl.
    split_and!; [done | done | set_solver].
Qed.

(** ** Requests with a body *)

(** X17.  A request that is neither GET nor HEAD, for a connected slave:
    nothing is written and nothing is pending while its body is read.  When
    the body is complete, one [http_request] frame with the body goes to
    the socket the slave had at the call, the request is pending and its
    timer is armed; the slave, reading the frame, issues the local call
    with that body.  When reading the body fails instead, the promise is
    rejected with the error, no frame is written, nothing is pending and no
    timer is armed. *)
Theorem request_body_is_read_first
    (WebSocket_accepts : Client.target → bool)
    (w : Master.world) (i : string) (s : Master.slave) (rq : Master.request)
    (r : string) (cw : Client.world) :
  Master.connected_slave i w = Some s →
  Master.method rq ≠ "GET" → Master.method rq ≠ "HEAD" →
  let m0 := Master.forwardHttpRequest i rq r w in
  m0.2 = [] ∧
  Master.tm m0.1 = Master.tm w ∧ Master.timers m0.1 = Master.timers w ∧
  (∀ body,
     let f := Master.http_request r (Master.method rq) (Master.url rq)
                (Master.sanitizeHeaders (Master.headers rq)) (Some body) in
     let m1 := Master.body_end r body m0.1 in
     m1.2 = [Master.send (Master.ws s) f] ∧
     Master.pendingRequests (Master.tm m1.1) !! r
     = Some {| Master.timeout := Master.next_timer w |} ∧
     Master.timers m1.1 !! Master.next_timer w = Some (Master.request_deadline r) ∧
     Master.draining m1.1 !! r = None ∧
     (Client.handleMessage WebSocket_accepts (Wire.of_master f) cw).2
     = [Client.local_request (Some r) (Some (JStr (Master.method rq)))
          (Some (JStr (Master.url rq)))
          (Some (Wire.headers_json (Master.sanitizeHeaders (Master.headers rq))))
          (Some (JStr body))]) ∧
  (∀ err,
     let m1 := Master.body_error r err m0.1 in
     m1.2 = [Master.reject r err] ∧
     Master.tm m1.1 = Master.tm w ∧ Master.timers m1.1 = Master.timers w ∧
     Master.draining m1.1 !! r = None ∧
     ∀ body, Master.body_end r body m1.1 = (m1.1, [])).
Proof.
  intros Hs Hg Hh m0.
  assert (m0 = (Master.with_draining (<[r := (Master.ws s, rq)]>) w, [])) as Hm0.
  { unfold m0, Master.forwardHttpRequest. rewrite Hs.
    apply String.eqb_neq in Hg, Hh. by rewrite Hg, Hh. }
  clearbody m0. subst m0. cbn [fst snd]. split_and!; [done | done | done | |].
  - intros body. unfold Master.body_end. simpl. rewrite lookup_insert_eq. simpl.
    split_and!; [done | apply lookup_insert_eq | apply lookup_insert_eq
                | by rewrite lookup_delete_eq | done].
  - intros err. unfold Master.body_error. simpl. rewrite lookup_insert_eq. simpl.
    split_and!; [done | done | done | by rewrite lookup_delete_eq |].
    intros body. unfold Master.body_end. simpl. by rewrite lookup_delete_eq.
Qed.

Lemma request_body_is_read_first_witness :
  let rq := {| Master.method := "POST"; Master.url := "/api/projects";
               Master.originalUrl := "/api/projects"; Master.headers := ∅ |} in
  let m0 := Master.forwardHttpRequest "s1" rq "r1" Demo.s1_connected in
  m0.2 = [] ∧
  (Master.body_end "r1" "{}" m0.1).2
  = [Master.send 1 (Master.http_request "r1" "POST" "/api/projects"
                      (Master.sanitizeHeaders ∅) (Some "{}"))].
Proof.
  intros rq m0.
  assert (H1 : Master.connected_slave "s1" Demo.s1_connected
               = Some {| Master.ws := 1; Master.name := JStr "Slave one";
                         Master.connectedAt := 1000; Master.lastPing := 1000;
                         Master.authenticated := true |}) by (by vm_compute).
  assert (H2 : Master.method rq ≠ "GET") by discriminate.
  assert (H3 : Master.method rq ≠ "HEAD") by discriminate.
  destruct (request_body_is_read_first Demo5.any_url Demo.s1_connected "s1" _ rq "r1"
              Demo7.online H1 H2 H3) as (G1 & _ & _ & G4 & _).
  split; [exact G1|]. exact (proj1 (G4 "{}")).
Defined.

(** ** A tunnel the slave cannot open *)

(** X18.  When the slave cannot create the local socket for a
    [ws_tunnel_open] frame, it keeps no trace of the tunnel and reports an
    [error] frame that carries the tunnel id and no request id.  The
    master, reading an [error] frame without a request id, only logs it:
    the tunnel record stays in its table, the user's socket is not closed
    and no promise is completed. *)
Theorem failed_tunnel_open_is_only_logged
    (WebSocket_accepts : Client.target → bool)
    (cw : Client.world) (c : sock) (t chan : string) (token : option string) :
  let to := Client.local_channel (Client.localPort (Client.this cw))
              (if String.eqb chan "shell" then "/shell" else "/ws")
              (match token with
               | Some tok => if String.eqb tok "" then None else Some (JStr tok)
               | None => None
               end) in
  Client.ws (Client.this cw) = Some c → Client.sock_open cw c = true →
  WebSocket_accepts to = false →
  let c1 := Client.handleMessage WebSocket_accepts
              (Wire.of_master (Master.ws_tunnel_open t chan token)) cw in
  c1.1 = cw ∧
  (∃ line msg, c1.2 = [Client.console line; Client.ws_send c (Client.error (Some t) msg)]) ∧
  (∀ msg i now mw,
     ∃ line,
       Master.handleSlaveMessage i (Wire.of_slave (Client.error (Some t) msg)) now mw
       = (mw, [Master.console line])).
Proof.
  intros to Hws Hopen Hacc c1.
  assert (c1 = (cw, [Client.console "[TunnelClient] Error opening tunnel";
                     Client.ws_send c (Client.error (Some t) "Invalid URL")])) as Hc1.
  { unfold c1, Client.handleMessage, Client.handleWsTunnelOpen.
    assert (prop "token" (Wire.of_master (Master.ws_tunnel_open t chan token))
            = JStr <$> token) as Htok by (by destruct token).
    assert (∀ k, k ≠ "token" →
              prop k (Wire.of_master (Master.ws_tunnel_open t chan token))
              = prop k (JObj [("type", JStr "ws_tunnel_open"); ("tunnelId", JStr t);
                              ("channel", JStr chan)])) as Hk.
    { intros k Hne. destruct token as [tok|]; [|done]. simpl.
      destruct (decide (k = "token")); [done|]. done. }
    rewrite Htok, !Hk by done.
    change (is_str (prop "type" _) "auth_success") with false.
    change (is_str (prop "type" _) "http_request") with false.
    change (is_str (prop "type" _) "ws_tunnel_open") with true. cbv iota.
    change (prop "channel" _) with (Some (JStr chan)).
    change (as_id (prop "tunnelId" _)) with (Some t).
    assert ((if truthy (JStr <$> token) then JStr <$> token else None)
            = match token with
              | Some tok => if String.eqb tok "" then None else Some (JStr tok)
              | None => None
              end) as ->.
    { destruct token as [tok|]; [|done]. simpl. by destruct (String.eqb tok ""). }
    cbn [is_str]. fold to. rewrite Hacc.
    by rewrite (client_send_open _ _ c). }
  rewrite Hc1. split_and!; [done | by do 2 eexists |].
  intros msg i now mw.
  unfold Master.handleSlaveMessage, Master.handleSlaveError.
  change (is_str (prop "type" _) "response") with false.
  change (is_str (prop "type" _) "ws_data") with false.
  change (is_str (prop "type" _) "ws_tunnel_closed") with false.
  change (is_str (prop "type" _) "ping") with false.
  change (is_str (prop "type" _) "error") with true. cbv iota.
  change (prop "requestId" _) with (@None json). cbn [truthy]. by eexists.
Qed.

Lemma failed_tunnel_open_is_only_logged_witness :
  let refuse := λ _ : Client.target, false in
  (Client.handleMessage refuse
     (Wire.of_master (Master.ws_tunnel_open "t1" "shell" (Some "T"))) Demo7.online).1
  = Demo7.online.
Proof.
  intros refuse.
  assert (H1 : Client.ws (Client.this Demo7.online) = Some 0%nat) by (by vm_compute).
  assert (H2 : Client.sock_open Demo7.online 0 = true) by (by vm_compute).
  exact (proj1 (failed_tunnel_open_is_only_logged refuse Demo7.online 0%nat "t1" "shell"
                  (Some "T") H1 H2 eq_refl)).
Defined.

(** ** The user's socket closes *)

Section user_close.
Import Master.

Lemma local_close_fold regs w es :
  let r := foldl (λ '(w, es) reg, let '(w, e) := local_close_1 reg w in (w, es ++ e))
                 (w, es) regs in
  r.2 = es ++ concat (map (λ reg, if sock_open w reg.1
                                  then [send reg.1 (ws_tunnel_close reg.2)] else [])
                          regs) ∧
  tunnels (tm r.1) = foldl (λ m k, JsMap.delete k m) (tunnels (tm w)) regs.*2 ∧
  slaves (tm r.1) = slaves (tm w) ∧
  pendingRequests (tm r.1) = pendingRequests (tm w) ∧
  socks r.1 = socks w.
Proof.
  revert w es. induction regs as [|reg regs IH]; intros w es; simpl.
  - by rewrite app_nil_r.
  - destruct (IH (with_tunnels (JsMap.delete reg.2) w)
                 (es ++ (if sock_open w reg.1
                         then [send reg.1 (ws_tunnel_close reg.2)] else [])))
      as (H1 & H2 & H3 & H4 & H5).
    split_and!; [|exact H2|exact H3|exact H4|exact H5].
    etrans; [exact H1|]. by rewrite <- app_assoc.
Qed.

Lemma local_close_spec l w :
  let r := local_close l w in
  r.2 = concat (map (λ reg, if sock_open w reg.1
                            then [send reg.1 (ws_tunnel_close reg.2)] else [])
                    (registered l w)) ∧
  tunnels (tm r.1)
  = foldl (λ m k, JsMap.delete k m) (tunnels (tm w)) (registered l w).*2 ∧
  slaves (tm r.1) = slaves (tm w) ∧
  pendingRequests (tm r.1) = pendingRequests (tm w).
Proof.
  unfold local_close.
  destruct (local_close_fold (registered l w) w []) as (H1 & H2 & H3 & H4 & _).
  by split_and!.
Qed.

Lemma registered_with_socks f l w : registered l (with_socks f w) = registered l w.
Proof. done. Qed.

Lemma elem_of_concat_map_inv {A B} (f : A → list B) (l : list A) (y : B) :
  y ∈ concat (map f l) → ∃ x, x ∈ l ∧ y ∈ f x.
Proof.
  induction l as [|a l IH]; simpl; [by intros ?%elem_of_nil|].
  intros [Hy|Hy]%elem_of_app.
  - exists a. split; [by left | done].
  - destruct (IH Hy) as (x & Hx & Hyx). exists x. split; [by right | done].
Qed.

Lemma registered_createWsTunnel i l chan token t w s :
  connected_slave i w = Some s →
  registered l (createWsTunnel i l chan token t w).1 = registered l w ++ [(ws s, t)].
Proof.
  intros Hs. unfold createWsTunnel. rewrite Hs. unfold registered. simpl.
  rewrite filter_app, fmap_app. f_equal.
  by rewrite filter_cons_True.
Qed.
End user_close.

(** X19.  When a user's socket closes, every tunnel that was created on it
    is removed from the table; the slave of each is told by one
    [ws_tunnel_close] frame on the socket it had when the tunnel was
    created, provided that socket is still open, and nothing else is
    written; the other tunnels, the registry and the pending requests are
    untouched.  A tunnel made by [createWsTunnel] on that socket is among
    them. *)
Theorem user_close_removes_its_tunnels
    (JSON_parse : string → option json) (w : Master.world) (l : sock) :
  let r := Master.step JSON_parse (Master.ev_local_close l) w in
  (∀ c t, (c, t) ∈ Master.registered l w →
     JsMap.get t (Master.tunnels (Master.tm r.1)) = None ∧
     (Master.sock_open w c = true → c ≠ l →
      Master.send c (Master.ws_tunnel_close t) ∈ r.2)) ∧
  (∀ t, t ∉ (Master.registered l w).*2 →
     JsMap.get t (Master.tunnels (Master.tm r.1))
     = JsMap.get t (Master.tunnels (Master.tm w))) ∧
  (∀ e, e ∈ r.2 →
     ∃ c t, e = Master.send c (Master.ws_tunnel_close t) ∧ (c, t) ∈ Master.registered l w) ∧
  Master.slaves (Master.tm r.1) = Master.slaves (Master.tm w) ∧
  Master.pendingRequests (Master.tm r.1) = Master.pendingRequests (Master.tm w) ∧
  (∀ i s chan token t w0,
     Master.connected_slave i w0 = Some s →
     (Master.ws s, t) ∈ Master.registered l (Master.createWsTunnel i l chan token t w0).1).
Proof.
  intros r.
  assert (r = Master.local_close l (Master.with_socks (<[l := CLOSED]>) w)) as Hr by done.
  clearbody r. subst r.
  destruct (local_close_spec l (Master.with_socks (<[l := CLOSED]>) w))
    as (H1 & H2 & H3 & H4).
  rewrite registered_with_socks in H1, H2.
  change (Master.tm (Master.with_socks (<[l := CLOSED]>) w)) with (Master.tm w)
    in H2, H3, H4.
  split_and!.
  - intros c t Hin. split.
    + rewrite H2, get_deletes. rewrite bool_decide_eq_true_2; [done|].
      apply list_elem_of_fmap. by exists (c, t).
    + intros Hopen Hne. rewrite H1. apply (elem_of_concat_map _ _ (c, t)); [done|].
      simpl.
      assert (Master.sock_open (Master.with_socks (<[l := CLOSED]>) w) c = true) as ->.
      { unfold Master.sock_open, is_open, ready in *. simpl.
        by rewrite lookup_insert_ne. }
      by left.
  - intros t Hnot. rewrite H2, get_deletes. by rewrite bool_decide_eq_false_2.
  - intros e. rewrite H1. intros ([c t] & Hin & He)%elem_of_concat_map_inv.
    simpl in He. destruct (Master.sock_open _ c); [|by apply elem_of_nil in He].
    apply list_elem_of_singleton in He as ->. by exists c, t.
  - done.
  - done.
  - intros i s chan token t w0 Hs.
    rewrite (registered_createWsTunnel i l chan token t w0 s Hs).
    apply elem_of_app. right. by left.
Qed.
